(** * Quantum state-vector simulator: shallow embedding and verification

    Sources embedded here:
    - [src/src/cpp/quantum_simulator.cpp]  (class [QuantumSimulator]),
      module [QuantumSimulator];
    - [src/languages/c/quantum_simulator.c] ([create_state],
      [initialize_state], [apply_hadamard], [apply_pauli_x], [apply_gate]),
      module [CSim].

    Both programs compute with the C [double] type.  The embedding is written
    once over an interface [Double] of the arithmetic the programs use, and
    is instantiated twice: with IEEE-754 binary64 (Rocq's primitive floats,
    the arithmetic the compiled programs run) and with the real numbers (the
    arithmetic in which the algebraic laws of the gates hold exactly). *)

From Stdlib Require Import Floats.
From Stdlib Require Import ZArith List Finite Bool Lia.
From Stdlib Require Import Reals Lra.
From Stdlib Require Strings.Byte Strings.Ascii.
Import ListNotations.

Set Implicit Arguments.

Local Open Scope Z_scope.

(* ===================================================================== *)
(** ** The arithmetic of [double] *)
(* ===================================================================== *)

(** The operations on [double] that the two simulators use: the literals
    [0.0], [1.0], [2.0], the four arithmetic operators, [sqrt] and the
    comparison [<]. *)
Class Double (T : Type) : Type := {
  d_zero : T;
  d_one  : T;
  d_two  : T;
  d_add  : T -> T -> T;
  d_sub  : T -> T -> T;
  d_mul  : T -> T -> T;
  d_div  : T -> T -> T;
  d_sqrt : T -> T;
  d_ltb  : T -> T -> bool
}.

(** [cos] and [sin] of [<cmath>], used by [applyRY] only. *)
Class Trig (T : Type) : Type := {
  d_cos : T -> T;
  d_sin : T -> T
}.

(** IEEE-754 binary64, round to nearest even. *)
#[export] Instance Double_binary64 : Double float := {|
  d_zero := 0%float;
  d_one  := 1%float;
  d_two  := 2%float;
  d_add  := PrimFloat.add;
  d_sub  := PrimFloat.sub;
  d_mul  := PrimFloat.mul;
  d_div  := PrimFloat.div;
  d_sqrt := PrimFloat.sqrt;
  d_ltb  := PrimFloat.ltb
|}.

Definition Rltb (x y : R) : bool := if Rlt_dec x y then true else false.

(** Exact real arithmetic. *)
#[export] Instance Double_R : Double R := {|
  d_zero := 0%R;
  d_one  := 1%R;
  d_two  := 2%R;
  d_add  := Rplus;
  d_sub  := Rminus;
  d_mul  := Rmult;
  d_div  := Rdiv;
  d_sqrt := R_sqrt.sqrt;
  d_ltb  := Rltb
|}.

#[export] Instance Trig_R : Trig R := {|
  d_cos := cos;
  d_sin := sin
|}.

(* ===================================================================== *)
(** ** The [int] type, loops and vectors *)
(* ===================================================================== *)

(** A value of type [int] is a [Z]; [wrap_int] is reduction to the signed
    32-bit range.  The sources compute their sizes, strides and masks with
    [1 << k], which is where a value can leave [int]; sums and products of
    indices are written in [Z] as they stand, and for a register of at most 30
    qubits and qubit indices in range none of them exceeds [2^30]. *)
Definition wrap_int (z : Z) : Z := (z + 2^31) mod 2^32 - 2^31.

(** [1 << k].  For [0 <= k <= 30] the result is [2^k]; a shift that leaves
    the range of [int] is undefined in the sources and wraps here. *)
Definition shl1 (k : Z) : Z := wrap_int (Z.shiftl 1 k).

(** [for (int i = start; i < stop; i += step) body], for [step > 0]: the body
    runs at [start], [start + step], ... as long as the counter is below
    [stop]; [trip_count] is the number of those iterations. *)
Fixpoint for_iter {S : Type} (count : nat) (i step : Z)
    (body : Z -> S -> S) (s : S) : S :=
  match count with
  | O => s
  | Datatypes.S c => for_iter c (i + step) step body (body i s)
  end.

Definition trip_count (start stop step : Z) : nat :=
  Z.to_nat ((stop - start + step - 1) / step).

Definition for_loop {S : Type} (start stop step : Z)
    (body : Z -> S -> S) (s : S) : S :=
  for_iter (trip_count start stop step) start step body s.

Section Vectors.
Context {A : Type}.
Variable dflt : A.

(** [v[i]] read and [v[i] = x] write of a [std::vector] or C array.  An
    access outside [0 <= i < size] is undefined in the sources; here such a
    read gives [dflt] and such a write is dropped.  Every theorem below
    that depends on an access has the index in range. *)
Definition vget (v : list A) (i : Z) : A :=
  if i <? 0 then dflt else nth (Z.to_nat i) v dflt.

Fixpoint replace_nth (k : nat) (x : A) (v : list A) : list A :=
  match v, k with
  | [], _ => []
  | _ :: v', O => x :: v'
  | a :: v', Datatypes.S k' => a :: replace_nth k' x v'
  end.

Definition vset (v : list A) (i : Z) (x : A) : list A :=
  if i <? 0 then v else replace_nth (Z.to_nat i) x v.

(** [std::swap(v[i], v[j])]. *)
Definition vswap (v : list A) (i j : Z) : list A :=
  let a := vget v i in
  let b := vget v j in
  vset (vset v i b) j a.

(** The loop that rewrites the element at every index from the index and
    the old element. *)
Definition map_loop (g : Z -> A -> A) (dim : Z) (v : list A) : list A :=
  for_loop 0 dim 1 (fun i v => vset v i (g i (vget v i))) v.
End Vectors.

(* ===================================================================== *)
(** ** Complex numbers over [double] *)
(* ===================================================================== *)

Section ComplexNumbers.
Context {T : Type} `{Double T}.

(** [std::complex<double>] and C99 [double complex]. *)
Record Complex : Type := mkComplex { re : T; im : T }.

Definition C0 : Complex := mkComplex d_zero d_zero.   (* Complex(0.0, 0.0) *)
Definition C1 : Complex := mkComplex d_one d_zero.    (* Complex(1.0, 0.0) *)

Definition Cadd (a b : Complex) : Complex :=
  mkComplex (d_add (re a) (re b)) (d_add (im a) (im b)).
Definition Csub (a b : Complex) : Complex :=
  mkComplex (d_sub (re a) (re b)) (d_sub (im a) (im b)).
(** [z / x] for a complex [z] and a double [x]: both parts are divided. *)
Definition Cdiv (z : Complex) (x : T) : Complex :=
  mkComplex (d_div (re z) x) (d_div (im z) x).
(** [x * z] for a double [x] and a complex [z]: both parts are scaled. *)
Definition Cscale (x : T) (z : Complex) : Complex :=
  mkComplex (d_mul x (re z)) (d_mul x (im z)).
(** [std::norm(z)]: the squared magnitude. *)
Definition norm (z : Complex) : T :=
  d_add (d_mul (re z) (re z)) (d_mul (im z) (im z)).
End ComplexNumbers.

Arguments Complex T : clear implicits.

(* ===================================================================== *)
(** ** Outcome of a call *)
(* ===================================================================== *)

(** Modelled from the spec: the error taxonomy of its section 7.  Neither
    source declares, throws or returns any of these errors; the type exists
    so that "raises E" can be stated about a call. *)
Inductive error : Type :=
  | CapacityError
  | InvalidQubitIndex
  | UnsupportedGateError
  | NormalizationViolation.

(** The exceptions of the C++ library that calls made by the sources can
    throw: [std::length_error] from [vector::resize] when the requested size
    exceeds [max_size()], and [std::bad_alloc] when the allocation fails. *)
Inductive library_exception : Type :=
  | std_length_error
  | std_bad_alloc.

Inductive outcome (A : Type) : Type :=
  | Returned (a : A)
  | Raised (e : error)
  | Thrown (x : library_exception).

Arguments Returned {A} a.
Arguments Raised {A} e.
Arguments Thrown {A} x.

(* ===================================================================== *)
(** ** [src/src/cpp/quantum_simulator.cpp] *)
(* ===================================================================== *)

(** The member [mt19937 rng] together with the
    [uniform_real_distribution<double>(0.0, 1.0)] that reads it: the sequence
    of doubles it will produce and the number already drawn.  The generator
    is seeded from [random_device], so the sequence is a parameter. *)
Record Rng (T : Type) : Type := mkRng {
  stream : nat -> T;
  cursor : nat
}.

(** [dist(rng)]: the next double, and the advanced generator. *)
Definition draw {T : Type} (g : Rng T) : T * Rng T :=
  (stream g (cursor g), mkRng (stream g) (Datatypes.S (cursor g))).

Module QuantumSimulator.
Section WithDouble.
Context {T : Type} `{Double T}.

(** The private members of [class QuantumSimulator]. *)
Record t : Type := mk {
  num_qubits : Z;
  state_vector : list (Complex T);
  rng : Rng T
}.

Definition with_state (sim : t) (sv : list (Complex T)) : t :=
  mk (num_qubits sim) sv (rng sim).

(** [QuantumSimulator(int n)], lines 22-27. *)
Definition new (n : Z) (g : Rng T) : t :=
  let dim := shl1 n in
  let sv := repeat C0 (Z.to_nat dim) in        (* resize(dim, Complex(0.0, 0.0)) *)
  mk n (vset sv 0 C1) g.                       (* state_vector[0] = Complex(1.0, 0.0) *)

(** [applyH], lines 30-46. *)
Definition applyH (q : Z) (sim : t) : t :=
  let stride := shl1 q in
  let block_size := stride in
  with_state sim
    (for_loop 0 (shl1 (num_qubits sim)) (2 * stride) (fun i sv =>
       for_loop 0 block_size 1 (fun j sv =>
         let idx0 := i + j in
         let idx1 := i + j + stride in
         let a := vget C0 sv idx0 in
         let b := vget C0 sv idx1 in
         let sv := vset sv idx0 (Cdiv (Cadd a b) (d_sqrt d_two)) in
         vset sv idx1 (Cdiv (Csub a b) (d_sqrt d_two))) sv)
     (state_vector sim)).

(** [applyX], lines 49-57. *)
Definition applyX (q : Z) (sim : t) : t :=
  let stride := shl1 q in
  with_state sim
    (for_loop 0 (shl1 (num_qubits sim)) (2 * stride) (fun i sv =>
       for_loop 0 stride 1 (fun j sv =>
         vswap C0 sv (i + j) (i + j + stride)) sv)
     (state_vector sim)).

(** The test of the two nested [if]s of [applyCNOT], lines 65-67:
    [i & control_mask] is nonzero and [target_bit == 0]. *)
Definition cnot_swaps (control_mask target_mask i : Z) : bool :=
  negb (Z.land i control_mask =? 0) &&
  ((if negb (Z.land i target_mask =? 0) then 1 else 0) =? 0).

(** [applyCNOT], lines 60-73. *)
Definition applyCNOT (c t' : Z) (sim : t) : t :=
  let control_mask := shl1 c in
  let target_mask := shl1 t' in
  with_state sim
    (for_loop 0 (shl1 (num_qubits sim)) 1 (fun i sv =>
       if cnot_swaps control_mask target_mask i then
         let j := Z.lxor i target_mask in
         vswap C0 sv i j
       else sv)
     (state_vector sim)).

(** [applyRY], lines 76-93. *)
Definition applyRY `{Trig T} (q : Z) (theta : T) (sim : t) : t :=
  let stride := shl1 q in
  let cos_theta := d_cos (d_div theta d_two) in
  let sin_theta := d_sin (d_div theta d_two) in
  with_state sim
    (for_loop 0 (shl1 (num_qubits sim)) (2 * stride) (fun i sv =>
       for_loop 0 stride 1 (fun j sv =>
         let idx0 := i + j in
         let idx1 := i + j + stride in
         let a := vget C0 sv idx0 in
         let b := vget C0 sv idx1 in
         let sv := vset sv idx0 (Csub (Cscale cos_theta a) (Cscale sin_theta b)) in
         vset sv idx1 (Cadd (Cscale sin_theta a) (Cscale cos_theta b))) sv)
     (state_vector sim)).

(** The first loop of [measure], lines 97-104. *)
Definition measure_prob0 (q : Z) (sim : t) : T :=
  let mask := shl1 q in
  for_loop 0 (shl1 (num_qubits sim)) 1 (fun i prob0 =>
    if Z.land i mask =? 0 then d_add prob0 (norm (vget C0 (state_vector sim) i))
    else prob0) d_zero.

(** [measure], lines 96-131: the returned bit and the simulator after the
    call. *)
Definition measure (q : Z) (sim : t) : Z * t :=
  let prob0 := measure_prob0 q sim in
  let mask := shl1 q in
  let (r, rng') := draw (rng sim) in
  if d_ltb r prob0 then
    (* Project onto |0> *)
    (0, mk (num_qubits sim)
           (for_loop 0 (shl1 (num_qubits sim)) 1 (fun i sv =>
              if negb (Z.land i mask =? 0) then vset sv i C0
              else vset sv i (Cdiv (vget C0 sv i) (d_sqrt prob0)))
            (state_vector sim))
           rng')
  else
    (* Project onto |1> *)
    let prob1 := d_sub d_one prob0 in
    (1, mk (num_qubits sim)
           (for_loop 0 (shl1 (num_qubits sim)) 1 (fun i sv =>
              if negb (Z.land i mask =? 0)
              then vset sv i (Cdiv (vget C0 sv i) (d_sqrt prob1))
              else vset sv i C0)
            (state_vector sim))
           rng').

(** [createBellState], lines 134-137. *)
Definition createBellState (sim : t) : t :=
  applyCNOT 0 1 (applyH 0 sim).

(** [getProbabilities], lines 140-146. *)
Definition getProbabilities (sim : t) : list T :=
  let probs := repeat d_zero (Z.to_nat (shl1 (num_qubits sim))) in
  for_loop 0 (shl1 (num_qubits sim)) 1 (fun i probs =>
    vset probs i (norm (vget C0 (state_vector sim) i))) probs.

(** What a caller observes of the constructor, lines 22-27.  The source
    has no [throw], but [resize] takes a [size_t]: a negative [dim] (as
    [1 << 31] is) converts to [2^64 + dim], which exceeds [max_size()], and
    [resize] throws [std::length_error] before it allocates.  Otherwise
    [resize] allocates [dim] amplitudes, and throws [std::bad_alloc] when the
    allocation fails; [alloc_ok] tells whether it succeeds.  [new] is the
    object built when [resize] returns. *)
Definition call_new (alloc_ok : bool) (n : Z) (g : Rng T) : outcome t :=
  let dim := shl1 n in
  if dim <? 0 then Thrown std_length_error
  else if negb alloc_ok then Thrown std_bad_alloc
  else Returned (new n g).

(** What a caller observes of the other calls.  No member function contains
    a [throw], [operator[]] does not check its index and nothing is
    allocated, so every call that finishes returns normally. *)
Definition call_applyCNOT (c t' : Z) (sim : t) : outcome t :=
  Returned (applyCNOT c t' sim).
Definition call_measure (q : Z) (sim : t) : outcome (Z * t) :=
  Returned (measure q sim).
End WithDouble.
Arguments t T : clear implicits.
End QuantumSimulator.

(* ===================================================================== *)
(** ** [src/languages/c/quantum_simulator.c] *)
(* ===================================================================== *)

Module CSim.

Definition MAX_QUBITS : Z := 32.

(** [enum GateType], lines 20-27, and the value of each enumerator. *)
Inductive GateType : Type :=
  | GATE_H | GATE_X | GATE_Y | GATE_Z | GATE_CNOT | GATE_SWAP.

Definition GateType_value (g : GateType) : Z :=
  match g with
  | GATE_H => 0 | GATE_X => 1 | GATE_Y => 2
  | GATE_Z => 3 | GATE_CNOT => 4 | GATE_SWAP => 5
  end.

(** What the functions write to [stderr]. *)
Inductive message : Type :=
  | TooManyQubits (max : Z)          (* "Error: Too many qubits (max %d)\n" *)
  | AllocStateFailed                 (* perror("Failed to allocate state") *)
  | AllocAmplitudesFailed            (* perror("Failed to allocate amplitudes") *)
  | GateNotImplemented (type : Z).   (* "Gate type %d not implemented\n" *)

(** Calls of the allocator that succeeded, and calls of [free]. *)
Inductive heap_event : Type :=
  | MallocState
  | CallocAmplitudes (count : Z)
  | FreeState.

(** Whether [malloc] and [calloc] will succeed: the environment of
    [create_state]. *)
Record allocator : Type := mkAllocator {
  malloc_succeeds : bool;
  calloc_succeeds : bool
}.

Section WithDouble.
Context {T : Type} `{Double T}.

(** [struct QuantumGate], lines 30-35. *)
Record QuantumGate : Type := mkGate {
  type : GateType;
  target : Z;
  control : Z;
  angle : T
}.

(** [struct QuantumState], lines 38-42. *)
Record QuantumState : Type := mkState {
  num_qubits : Z;
  dimension : Z;
  amplitudes : list (Complex T)
}.

(** The result of [create_state]: the returned pointer ([None] is [NULL]),
    the heap events and the lines on [stderr]. *)
Record created : Type := mkCreated {
  returned : option QuantumState;
  heap : list heap_event;
  errors : list message
}.

(** [create_state], lines 64-87.  [calloc] returns zeroed bytes, which read
    as [0.0 + 0.0i]. *)
Definition create_state (al : allocator) (num_qubits : Z) : created :=
  if num_qubits >? MAX_QUBITS then
    mkCreated None [] [TooManyQubits MAX_QUBITS]
  else if negb (malloc_succeeds al) then
    mkCreated None [] [AllocStateFailed]
  else
    let dimension := shl1 num_qubits in
    if negb (calloc_succeeds al) then
      mkCreated None [MallocState; FreeState] [AllocAmplitudesFailed]
    else
      mkCreated
        (Some (mkState num_qubits dimension (repeat C0 (Z.to_nat dimension))))
        [MallocState; CallocAmplitudes dimension] [].

(** The constant [I] of [<complex.h>] and the sum of a double and a
    complex number, which adds to the real part. *)
Definition CI : Complex T := mkComplex d_zero d_one.
Definition Cadd_real (x : T) (z : Complex T) : Complex T :=
  mkComplex (d_add x (re z)) (im z).

(** [initialize_state], lines 98-103. *)
Definition initialize_state (state : QuantumState) : QuantumState :=
  let amps :=
    for_loop 0 (dimension state) 1 (fun i amps => vset amps i C0)
      (amplitudes state) in
  mkState (num_qubits state) (dimension state)
    (vset amps 0 (Cadd_real d_one (Cscale d_zero CI))).   (* 1.0 + 0.0 * I *)

(** [apply_hadamard], lines 120-136. *)
Definition apply_hadamard (state : QuantumState) (qubit : Z) : QuantumState :=
  let shift := shl1 qubit in
  let dim := dimension state in
  mkState (num_qubits state) (dimension state)
    (for_loop 0 dim (2 * shift) (fun i amps =>
       for_loop 0 shift 1 (fun j amps =>
         let idx0 := i + j in
         let idx1 := i + j + shift in
         let a0 := vget C0 amps idx0 in
         let a1 := vget C0 amps idx1 in
         let amps := vset amps idx0 (Cdiv (Cadd a0 a1) (d_sqrt d_two)) in
         vset amps idx1 (Cdiv (Csub a0 a1) (d_sqrt d_two))) amps)
     (amplitudes state)).

(** [apply_pauli_x], lines 139-153. *)
Definition apply_pauli_x (state : QuantumState) (qubit : Z) : QuantumState :=
  let shift := shl1 qubit in
  let dim := dimension state in
  mkState (num_qubits state) (dimension state)
    (for_loop 0 dim (2 * shift) (fun i amps =>
       for_loop 0 shift 1 (fun j amps =>
         let idx0 := i + j in
         let idx1 := i + j + shift in
         let temp := vget C0 amps idx0 in
         let amps := vset amps idx0 (vget C0 amps idx1) in
         vset amps idx1 temp) amps)
     (amplitudes state)).

(** [apply_gate], lines 156-168: the state after the call and what the call
    wrote to [stderr]. *)
Definition apply_gate (state : QuantumState) (gate : QuantumGate)
    : QuantumState * list message :=
  match type gate with
  | GATE_H => (apply_hadamard state (target gate), [])
  | GATE_X => (apply_pauli_x state (target gate), [])
  (* Additional gates would be implemented here *)
  | other => (state, [GateNotImplemented (GateType_value other)])
  end.
End WithDouble.
Arguments QuantumGate T : clear implicits.
Arguments QuantumState T : clear implicits.
Arguments created T : clear implicits.
End CSim.

(* ===================================================================== *)
(** ** Notions used by the statements *)
(* ===================================================================== *)

Section Notions.
Context {T : Type} `{Double T}.

(** The sum of a sequence of doubles, accumulated from [0.0] from left to
    right, as the accumulation loops of the sources do. *)
Definition sum_list (l : list T) : T := fold_left d_add l d_zero.

(** The amplitudes of [v] paired with their basis indices. *)
Fixpoint indexed_from (i : Z) (v : list (Complex T)) : list (Z * Complex T) :=
  match v with
  | [] => []
  | a :: v' => (i, a) :: indexed_from (i + 1) v'
  end.

Definition indexed (v : list (Complex T)) : list (Z * Complex T) :=
  indexed_from 0 v.

(** The amplitudes whose basis index has bit [q] equal to [b], in
    increasing order of the index. *)
Definition amplitudes_with_bit (q : Z) (b : bool) (v : list (Complex T))
    : list (Complex T) :=
  map snd (filter (fun ia => Bool.eqb (Z.testbit (fst ia) q) b) (indexed v)).

(** The sum of [|amplitude_i|^2] over the basis indices whose bit [q] is
    [0]. *)
Definition probability_of_bit0 (q : Z) (v : list (Complex T)) : T :=
  sum_list (map norm (amplitudes_with_bit q false v)).

(** The sum of the entries of [getProbabilities()]. *)
Definition total_probability (sim : QuantumSimulator.t T) : T :=
  sum_list (QuantumSimulator.getProbabilities sim).

(** The representation invariant of [QuantumSimulator]: the qubit count is
    one for which [1 << num_qubits] does not leave [int], and the state
    vector has [2^num_qubits] amplitudes.  The constructor establishes
    it and every member function keeps it. *)
Definition well_formed (sim : QuantumSimulator.t T) : Prop :=
  0 <= QuantumSimulator.num_qubits sim <= 30 /\
  Z.of_nat (length (QuantumSimulator.state_vector sim))
    = 2 ^ QuantumSimulator.num_qubits sim.

(** The same for the C [QuantumState], as [create_state] builds it. *)
Definition well_formed_state (st : CSim.QuantumState T) : Prop :=
  0 <= CSim.num_qubits st <= 30 /\
  CSim.dimension st = 2 ^ CSim.num_qubits st /\
  Z.of_nat (length (CSim.amplitudes st)) = 2 ^ CSim.num_qubits st.

(** One iteration of the inner loop of a single-qubit gate: the pair at
    [idx0] and [idx0 + stride] is replaced by [(f0 a b, f1 a b)]. *)
Definition pair_step (f0 f1 : Complex T -> Complex T -> Complex T)
    (stride : Z) (sv : list (Complex T)) (idx0 : Z) : list (Complex T) :=
  let a := vget C0 sv idx0 in
  let b := vget C0 sv (idx0 + stride) in
  vset (vset sv idx0 (f0 a b)) (idx0 + stride) (f1 a b).

(** The loop nest shared by [applyH], [applyX], [applyRY],
    [apply_hadamard] and [apply_pauli_x]. *)
Definition pair_loop (f0 f1 : Complex T -> Complex T -> Complex T)
    (dim stride : Z) (sv : list (Complex T)) : list (Complex T) :=
  for_loop 0 dim (2 * stride) (fun i sv =>
    for_loop 0 stride 1 (fun j sv => pair_step f0 f1 stride sv (i + j)) sv) sv.

(** The new pair of the Hadamard gate and of the Y rotation, from the old
    pair [(a, b)]. *)
Definition hadamard0 (a b : Complex T) : Complex T :=
  Cdiv (Cadd a b) (d_sqrt d_two).
Definition hadamard1 (a b : Complex T) : Complex T :=
  Cdiv (Csub a b) (d_sqrt d_two).
Definition rotate0 (c s : T) (a b : Complex T) : Complex T :=
  Csub (Cscale c a) (Cscale s b).
Definition rotate1 (c s : T) (a b : Complex T) : Complex T :=
  Cadd (Cscale s a) (Cscale c b).

(** The values of [idx0] that this loop nest visits, in order, when it
    runs over [blocks] blocks of [2 * stride] amplitudes. *)
Definition pair_indices (stride : Z) (blocks : nat) : list Z :=
  flat_map (fun k =>
              map (fun j => Z.of_nat k * (2 * stride) + Z.of_nat j)
                  (seq 0 (Z.to_nat stride)))
           (seq 0 blocks).


(** The amplitude that the projection onto [|0>] of [measure] leaves at
    index [i], and the one that the projection onto [|1>] leaves. *)
Definition keep0 (mask : Z) (d : T) (i : Z) (a : Complex T) : Complex T :=
  if negb (Z.land i mask =? 0) then C0 else Cdiv a d.
Definition keep1 (mask : Z) (d : T) (i : Z) (a : Complex T) : Complex T :=
  if negb (Z.land i mask =? 0) then Cdiv a d else C0.
End Notions.

(** The equations between literals on which the initial state depends.  They
    hold in binary64 by evaluation and in the reals by arithmetic. *)
Class DoubleLiterals (T : Type) `{Double T} : Prop := {
  mul_zero_zero : d_mul d_zero d_zero = d_zero;
  mul_zero_one  : d_mul d_zero d_one = d_zero;
  mul_one_one   : d_mul d_one d_one = d_one;
  add_zero_zero : d_add d_zero d_zero = d_zero;
  add_zero_one  : d_add d_zero d_one = d_one;
  add_one_zero  : d_add d_one d_zero = d_one
}.

Arguments DoubleLiterals T {_}.

(** The indices at which [applyCNOT] swaps: control bit set, target bit
    clear. *)
Definition cnot_indices (c t : Z) (len : nat) : list Z :=
  filter (fun i => Z.testbit i c && negb (Z.testbit i t))
         (map Z.of_nat (seq 0 len)).

(** The tolerance of the spec, [1e-9]. *)
Definition tolerance : R := (1 / 1000000000)%R.

Definition within_tolerance (x y : R) : Prop := (Rabs (x - y) <= tolerance)%R.

(** The real number a finite binary64 value stands for: sign, mantissa and
    exponent are those of [Prim2SF]. *)
Definition pow2_R (e : Z) : R :=
  if e <? 0 then (/ IZR (2 ^ (- e)))%R else IZR (2 ^ e).

Definition spec_float_to_R (f : spec_float) : option R :=
  match f with
  | S754_zero _ => Some 0%R
  | S754_finite s m e =>
      Some ((if s then -1 else 1) * IZR (Z.pos m) * pow2_R e)%R
  | _ => None
  end.

Definition float_to_R (f : float) : option R := spec_float_to_R (Prim2SF f).

(** A binary64 value is within the tolerance of a real number. *)
Definition float_within_tolerance (f : float) (y : R) : Prop :=
  exists x, float_to_R f = Some x /\ within_tolerance x y.

(** Examples: a generator whose draws are all [0.0], the allocator that
    always succeeds, and the largest double below [1.0]. *)
Definition no_draws : Rng float := mkRng (fun _ => 0%float) 0.
Definition heap_ok : CSim.allocator := CSim.mkAllocator true true.
Definition below_one : float := 0x1.fffffffffffffp-1%float.

(** A generator whose first two draws are [0.25] and [below_one]. *)
Definition two_draws : Rng float :=
  mkRng (fun k => match k with O => 0.25%float | _ => below_one end) 0.

(** The register after [applyH(0); applyH(1)] on a fresh 2-qubit simulator,
    and after one measurement of qubit 0 on it. *)
Definition plus_plus : QuantumSimulator.t float :=
  QuantumSimulator.applyH 1
    (QuantumSimulator.applyH 0 (QuantumSimulator.new 2 two_draws)).
Definition measured_once : QuantumSimulator.t float :=
  snd (QuantumSimulator.measure 0 plus_plus).
Definition measured_twice : QuantumSimulator.t float :=
  snd (QuantumSimulator.measure 0 measured_once).


(** The C++ state [|1>] of one qubit: [applyX(0)] on a fresh simulator. *)
Definition one_state : QuantumSimulator.t float :=
  QuantumSimulator.applyX 0 (QuantumSimulator.new 1 no_draws).

(** A fresh one-qubit simulator over the reals whose draws are all [0]. *)
Definition real_qubit : QuantumSimulator.t R :=
  QuantumSimulator.new 1 (mkRng (fun _ => 0%R) 0).

(** The C state [|1>] of one qubit, built by the program's own functions. *)
Definition c_one_qubit : CSim.QuantumState float :=
  match CSim.returned (CSim.create_state heap_ok 1) with
  | Some st =>
      fst (CSim.apply_gate (CSim.initialize_state st)
             (CSim.mkGate CSim.GATE_X 0 (-1) 0%float))
  | None => CSim.mkState 0 0 []
  end.

(** The sum of a list of reals, and the sum of the squared magnitudes of a
    vector of complex numbers over the reals. *)
Definition Rsum (l : list R) : R := fold_right Rplus 0%R l.

Definition sumsq (v : list (Complex R)) : R := Rsum (map norm v).

(** [sum_{k < n} F k]. *)
Fixpoint big_sum (F : nat -> R) (n : nat) : R :=
  match n with
  | O => 0%R
  | Datatypes.S n' => (big_sum F n' + F n')%R
  end.

(** The sum of [|amplitude_k|^2] over the indices [k] whose bit [q] is [b]. *)
Definition mass (b : bool) (q : Z) (v : list (Complex R)) : R :=
  big_sum (fun k => if Bool.eqb (Z.testbit (Z.of_nat k) q) b
                    then norm (vget C0 v (Z.of_nat k)) else 0%R)
          (length v).


(* ===================================================================== *)
(** ** The circuit functions of [src/languages/c/quantum_simulator.c] *)
(* ===================================================================== *)

Module CCircuit.

Definition MAX_GATES : Z := 100.

(** [sizeof(circuit->name)]: the member is [char name[50]]. *)
Definition NAME_SIZE : nat := 50.

(** What [create_circuit] and [add_gate] write to [stderr]. *)
Inductive message : Type :=
  | AllocCircuitFailed     (* perror("Failed to allocate circuit") *)
  | TooManyGates.          (* "Error: Too many gates in circuit\n" *)

(** The characters of a C string held in [bytes]: those before the first
    NUL. *)
Fixpoint c_string (bytes : list Byte.byte) : list Byte.byte :=
  match bytes with
  | [] => []
  | b :: rest => if Byte.eqb b Byte.x00 then [] else b :: c_string rest
  end.

(** The [n] bytes that [strncpy(dest, src, n)] writes: the characters of
    [src], at most [n] of them, then NULs up to [n] bytes. *)
Definition strncpy (src : list Byte.byte) (n : nat) : list Byte.byte :=
  firstn n (c_string src) ++ repeat Byte.x00 (n - length (c_string src)).

(** The blocks of the heap that the program allocates for a state. *)
Inductive block : Type := StateBlock | AmplitudesBlock.

(** The blocks that are allocated and not freed after a sequence of heap
    events of [create_state]. *)
Fixpoint live_blocks (events : list CSim.heap_event) (live : list block)
    : list block :=
  match events with
  | [] => live
  | CSim.MallocState :: rest => live_blocks rest (live ++ [StateBlock])
  | CSim.CallocAmplitudes _ :: rest => live_blocks rest (live ++ [AmplitudesBlock])
  | CSim.FreeState :: rest =>
      live_blocks rest
        (filter (fun b => match b with StateBlock => false | _ => true end) live)
  end.

Section WithDouble.
Context {T : Type} `{Double T}.

(** [struct QuantumCircuit], lines 45-50.  The array [gates] is part of a
    block that [malloc] returns, so an element that was never written is
    indeterminate: [None]. *)
Record QuantumCircuit : Type := mkCircuit {
  num_qubits : Z;
  num_gates : Z;
  gates : list (option (CSim.QuantumGate T));
  name : list Byte.byte
}.

(** [destroy_state], lines 90-95: the blocks it frees, in order.  [None] is
    the pointer [NULL]. *)
Definition destroy_state (state : option (CSim.QuantumState T)) : list block :=
  match state with
  | Some _ => [AmplitudesBlock; StateBlock]
  | None => []
  end.

(** [create_circuit], lines 171-184.  [malloc_ok] tells whether [malloc]
    succeeds. *)
Definition create_circuit (malloc_ok : bool) (num_qubits : Z)
    (name : list Byte.byte) : option QuantumCircuit * list message :=
  if negb malloc_ok then (None, [AllocCircuitFailed])
  else
    let written := strncpy name (NAME_SIZE - 1) in
    (Some (mkCircuit num_qubits 0
             (repeat None (Z.to_nat MAX_GATES))
             (written ++ [Byte.x00])),       (* name[sizeof(name) - 1] = 0 *)
     []).

(** [add_gate], lines 187-198: the circuit after the call and what the call
    wrote to [stderr]. *)
Definition add_gate (circuit : QuantumCircuit) (type : CSim.GateType)
    (target control : Z) : QuantumCircuit * list message :=
  if num_gates circuit >=? MAX_GATES then (circuit, [TooManyGates])
  else
    let gate := CSim.mkGate type target control d_zero in
    (mkCircuit (num_qubits circuit) (num_gates circuit + 1)
       (vset (gates circuit) (num_gates circuit) (Some gate))
       (name circuit),
     []).

(** [simulate_circuit], lines 201-205: the state after the call and what
    [apply_gate] wrote to [stderr]; [None] when the loop reads a gate that
    was never written. *)
Definition simulate_circuit (circuit : QuantumCircuit)
    (state : CSim.QuantumState T)
    : option (CSim.QuantumState T * list CSim.message) :=
  for_loop 0 (num_gates circuit) 1 (fun i acc =>
    match acc with
    | Some (state, log) =>
        match vget None (gates circuit) i with
        | Some gate =>
            let (state', written) := CSim.apply_gate state gate in
            Some (state', log ++ written)
        | None => None
        end
    | None => None
    end) (Some (state, [])).

(** The gates of a circuit in the order in which [simulate_circuit] reads
    them. *)
Definition gate_list (circuit : QuantumCircuit) : list (CSim.QuantumGate T) :=
  flat_map (fun g => match g with Some gate => [gate] | None => [] end)
           (firstn (Z.to_nat (num_gates circuit)) (gates circuit)).

(** A circuit as [create_circuit] and [add_gate] leave it: the count is
    within the array and every gate below the count has been written. *)
Definition circuit_ok (circuit : QuantumCircuit) : Prop :=
  0 <= num_gates circuit <= MAX_GATES /\
  Z.of_nat (length (gates circuit)) = MAX_GATES /\
  forall i, 0 <= i < num_gates circuit ->
    exists gate, vget None (gates circuit) i = Some gate.

(** A run of [apply_gate] over a list of gates, with the accumulated
    [stderr]. *)
Definition apply_gates (l : list (CSim.QuantumGate T))
    (start : CSim.QuantumState T * list CSim.message)
    : CSim.QuantumState T * list CSim.message :=
  fold_left (fun acc gate =>
               (fst (CSim.apply_gate (fst acc) gate),
                snd acc ++ snd (CSim.apply_gate (fst acc) gate)))
            l start.
End WithDouble.
Arguments QuantumCircuit T : clear implicits.
End CCircuit.

(* ===================================================================== *)
(** ** [QuantumSimulator::printState] *)
(* ===================================================================== *)

Module PrintState.

(** [bitset<8>(i).to_string()]: the low 8 bits of [i], most significant
    first, as characters ['0'] and ['1']. *)
Definition char_0 : Ascii.ascii :=     (* '0', code 48 *)
  Ascii.Ascii false false false false true true false false.
Definition char_1 : Ascii.ascii :=     (* '1', code 49 *)
  Ascii.Ascii true false false false true true false false.

Definition bit_char (b : bool) : Ascii.ascii := if b then char_1 else char_0.

Definition bitset8_to_string (i : Z) : list Ascii.ascii :=
  map (fun k => bit_char (Z.testbit i (Z.of_nat k))) [7; 6; 5; 4; 3; 2; 1; 0]%nat.

(** [s.substr(pos)] for a [size_t] position: the suffix from [pos], and
    [None] for the exception [std::out_of_range] when [pos > s.size()]. *)
Definition substr (s : list Ascii.ascii) (pos : Z) : option (list Ascii.ascii) :=
  if pos >? Z.of_nat (length s) then None else Some (skipn (Z.to_nat pos) s).

(** The conversion of an [int] to the 64-bit [size_t]. *)
Definition to_size_t (z : Z) : Z := z mod 2 ^ 64.

(** [bitset<8>(i).to_string().substr(8 - num_qubits)], line 153. *)
Definition basis_label (num_qubits i : Z) : option (list Ascii.ascii) :=
  substr (bitset8_to_string i) (to_size_t (8 - num_qubits)).

(** The number that a string of binary digits denotes. *)
Definition binary_value (s : list Ascii.ascii) : Z :=
  fold_left (fun acc ch => 2 * acc + (if Ascii.eqb ch char_1 then 1 else 0)) s 0.

Section WithDouble.
Context {T : Type} `{Double T}.

(** One line of the output: the label between ['|'] and ['>'], the
    amplitude and the probability, as the values handed to [operator<<]. *)
Record line : Type := mkLine {
  label : list Ascii.ascii;
  amplitude : Complex T;
  prob : T
}.

(** How a call of [printState] ends: it returns after the lines, or
    [substr] throws [std::out_of_range] after the lines. *)
Inductive printed : Type :=
  | Completed (lines : list line)
  | OutOfRange (lines : list line).

(** [printState], lines 149-158.  The parameter [visible] is the test
    [abs(state_vector[i]) > 1e-10] of line 152, whose [abs] is the library's
    [hypot]. *)
Definition printState (visible : Complex T -> bool)
    (sim : QuantumSimulator.t T) : printed :=
  for_loop 0 (shl1 (QuantumSimulator.num_qubits sim)) 1 (fun i acc =>
    match acc with
    | Completed lines =>
        let z := vget C0 (QuantumSimulator.state_vector sim) i in
        if visible z then
          match basis_label (QuantumSimulator.num_qubits sim) i with
          | Some l => Completed (lines ++ [mkLine l z (norm z)])
          | None => OutOfRange lines
          end
        else acc
    | OutOfRange _ => acc
    end) (Completed []).
End WithDouble.
End PrintState.

(** ** The C program's [main] *)

Module CMain.

(** The string literal ["Bell State"] with its terminating NUL. *)
Definition bell_state_name : list Byte.byte :=
  [Byte.x42; Byte.x65; Byte.x6c; Byte.x6c; Byte.x20;
   Byte.x53; Byte.x74; Byte.x61; Byte.x74; Byte.x65; Byte.x00].

Section WithDouble.
Context {T : Type} `{Double T}.

(** What [main] does with the state and the heap after [create_circuit], in
    order. *)
Inductive step : Type :=
  | PrintState (state : CSim.QuantumState T)     (* print_state(state) *)
  | DestroyState                                 (* destroy_state(state) *)
  | FreeCircuit.                                 (* free(bell_circuit) *)

(** [main], lines 208-247: the exit status and the steps; [None] when
    [simulate_circuit] reads a gate that was never written.
    [circuit_malloc_ok] and [al] tell which allocations succeed. *)
Definition main (circuit_malloc_ok : bool) (al : CSim.allocator)
    : option (Z * list step) :=
  match fst (CCircuit.create_circuit circuit_malloc_ok 2 bell_state_name) with
  | None => Some (1, [])
  | Some bell_circuit =>
      let bell_circuit := fst (CCircuit.add_gate bell_circuit CSim.GATE_H 0 (-1)) in
      let bell_circuit := fst (CCircuit.add_gate bell_circuit CSim.GATE_X 1 0) in
      match CSim.returned (CSim.create_state al 2) with
      | None => Some (1, [FreeCircuit])
      | Some state =>
          let state := CSim.initialize_state state in
          match CCircuit.simulate_circuit bell_circuit state with
          | Some (final, _) =>
              Some (0, [PrintState state; PrintState final;
                        DestroyState; FreeCircuit])
          | None => None
          end
      end
  end.
End WithDouble.
End CMain.

(** ** Further concrete inputs *)

(** The circuit of the C [main] before and after its first [add_gate]. *)
Definition empty_circuit : CCircuit.QuantumCircuit float :=
  match fst (CCircuit.create_circuit true 2 CMain.bell_state_name) with
  | Some circuit => circuit
  | None => CCircuit.mkCircuit 0 0 [] []
  end.
Definition h_circuit : CCircuit.QuantumCircuit float :=
  fst (CCircuit.add_gate empty_circuit CSim.GATE_H 0 (-1)).

(** The C state [|0>] of one qubit over the reals; over binary64 the state
    [|00>] of two qubits as the C [main] builds it, and the state of one
    qubit that [create_state] returns before [initialize_state]. *)
Definition c_real_qubit : CSim.QuantumState R :=
  match CSim.returned (CSim.create_state heap_ok 1) with
  | Some st => CSim.initialize_state st
  | None => CSim.mkState 0 0 []
  end.
Definition c_two_qubits : CSim.QuantumState float :=
  match CSim.returned (CSim.create_state heap_ok 2) with
  | Some st => CSim.initialize_state st
  | None => CSim.mkState 0 0 []
  end.
Definition c_created_qubit : CSim.QuantumState float :=
  match CSim.returned (CSim.create_state heap_ok 1) with
  | Some st => st
  | None => CSim.mkState 0 0 []
  end.

(** A stand-in for the library's [cos] and [sin] on binary64, which the
    properties of the register's shape do not depend on. *)
Definition identity_trig : Trig float :=
  {| d_cos := fun x => x; d_sin := fun x => x |}.

(** The test [abs(z) > 1e-10] of [printState] for amplitudes whose
    imaginary part is zero: [abs] is then the absolute value of the real
    part. *)
Definition visible_real_part (z : Complex float) : bool :=
  PrimFloat.ltb 0x1.b7cdfd9d7bdbbp-34%float (PrimFloat.abs (re z)).   (* 1e-10 *)

(** ** Notions for the output of the two programs *)

Section OutputNotions.
Context {T : Type} `{Double T}.
Implicit Types (sim : QuantumSimulator.t T).

(** The lines that a list of gates makes [apply_gate] write. *)
Definition unimplemented_lines (l : list (CSim.QuantumGate T))
    : list CSim.message :=
  flat_map (fun g =>
              match CSim.type g with
              | CSim.GATE_H | CSim.GATE_X => []
              | other => [CSim.GateNotImplemented (CSim.GateType_value other)]
              end) l.

(** All registers of at most 8 qubits and all their indices, checked by
    evaluation: the label exists, has [num_qubits] characters and denotes
    the index. *)
Definition labels_checked : bool :=
  forallb (fun n =>
    forallb (fun i =>
      match PrintState.basis_label (Z.of_nat n) (Z.of_nat i) with
      | Some l => (PrintState.binary_value l =? Z.of_nat i)
                  && Nat.eqb (length l) n
      | None => false
      end) (seq 0 (2 ^ n)))
    (seq 0 9).

(** The lines that [printState] prints for the indices of [l]. *)
Definition lines_of (visible : Complex T -> bool) sim (l : list Z)
    : list PrintState.line :=
  flat_map (fun i =>
    let z := vget C0 (QuantumSimulator.state_vector sim) i in
    if visible z then
      match PrintState.basis_label (QuantumSimulator.num_qubits sim) i with
      | Some lbl => [PrintState.mkLine lbl z (norm z)]
      | None => []
      end
    else []) l.
End OutputNotions.

(* ===================================================================== *)
(** * Theorems *)
(* ===================================================================== *)

(** ** Integers *)

Lemma shl1_pow2 (k : Z) : 0 <= k <= 30 -> shl1 k = 2 ^ k.
Proof.
  intros Hk. unfold shl1, wrap_int. rewrite Z.shiftl_1_l.
  assert (0 < 2 ^ k) by (apply Z.pow_pos_nonneg; lia).
  assert (2 ^ k <= 2 ^ 30) by (apply Z.pow_le_mono_r; lia).
  change (2 ^ 30) with 1073741824 in *.
  change (2 ^ 31) with 2147483648. change (2 ^ 32) with 4294967296.
  rewrite Z.mod_small by lia. lia.
Qed.

Lemma pow2_pos (k : Z) : 0 <= k -> 0 < 2 ^ k.
Proof. intros. apply Z.pow_pos_nonneg; lia. Qed.

(** [i & (1 << q)] is zero exactly when bit [q] of [i] is clear. *)
Lemma land_pow2_eqb (i q : Z) :
  0 <= q -> (Z.land i (2 ^ q) =? 0) = negb (Z.testbit i q).
Proof.
  intros Hq. destruct (Z.testbit i q) eqn:Hb; simpl.
  - apply Z.eqb_neq. intros Hz.
    apply (f_equal (fun z => Z.testbit z q)) in Hz.
    rewrite Z.land_spec, Hb, Z.pow2_bits_true, Z.bits_0 in Hz by lia.
    discriminate.
  - apply Z.eqb_eq. apply Z.bits_inj'. intros m Hm.
    rewrite Z.land_spec, Z.bits_0, Z.pow2_bits_eqb by lia.
    destruct (Z.eqb_spec q m) as [->|];
      [rewrite Hb; reflexivity | apply andb_false_r].
Qed.

(** Bit [q] splits an index into a block number and an offset. *)
Lemma testbit_block (k j q : Z) :
  0 <= q -> 0 <= j < 2 ^ q ->
  Z.testbit (k * (2 * 2 ^ q) + j) q = false /\
  Z.testbit (k * (2 * 2 ^ q) + j + 2 ^ q) q = true.
Proof.
  intros Hq Hj. pose proof (pow2_pos Hq) as Hp.
  rewrite !Z.testbit_eqb by lia.
  assert ((k * (2 * 2 ^ q) + j) / 2 ^ q = 2 * k) as ->.
  { replace (k * (2 * 2 ^ q) + j) with (j + (2 * k) * 2 ^ q) by ring.
    rewrite Z.div_add, Z.div_small by lia. ring. }
  assert ((k * (2 * 2 ^ q) + j + 2 ^ q) / 2 ^ q = 2 * k + 1) as ->.
  { replace (k * (2 * 2 ^ q) + j + 2 ^ q) with (j + (2 * k + 1) * 2 ^ q) by ring.
    rewrite Z.div_add, Z.div_small by lia. ring. }
  split; [apply Z.eqb_neq | apply Z.eqb_eq].
  - rewrite Z.mul_comm, Z.mod_mul by lia. lia.
  - rewrite Z.add_comm, Z.mul_comm, Z.mod_add by lia. reflexivity.
Qed.

Lemma block_of_clear_bit (i q : Z) :
  0 <= q -> 0 <= i -> Z.testbit i q = false ->
  exists k j, 0 <= k /\ 0 <= j < 2 ^ q /\ i = k * (2 * 2 ^ q) + j.
Proof.
  intros Hq Hi Hb. pose proof (pow2_pos Hq) as Hp.
  rewrite Z.testbit_eqb in Hb by lia. apply Z.eqb_neq in Hb.
  exists (i / 2 ^ q / 2), (i mod 2 ^ q).
  pose proof (Z.mod_pos_bound i (2 ^ q) Hp).
  pose proof (Z.div_mod i (2 ^ q)) as Hd.
  pose proof (Z.div_mod (i / 2 ^ q) 2) as Hd2.
  pose proof (Z.mod_pos_bound (i / 2 ^ q) 2).
  assert (0 <= i / 2 ^ q) by (apply Z.div_pos; lia).
  assert (0 <= i / 2 ^ q / 2) by (apply Z.div_pos; lia).
  repeat split; try lia.
  assert ((i / 2 ^ q) mod 2 = 0) by lia.
  nia.
Qed.

(** ** Loops *)

Section Loops.
Context {S : Type}.
Implicit Types (body : Z -> S -> S).

Lemma fold_left_flat_map {B C : Type} (f : S -> C -> S) (g : B -> list C)
    (l : list B) (s : S) :
  fold_left f (flat_map g l) s = fold_left (fun s b => fold_left f (g b) s) l s.
Proof.
  revert s. induction l as [|b l IH]; intros s; [reflexivity|].
  simpl. rewrite fold_left_app. apply IH.
Qed.

Lemma fold_left_ext_in {B : Type} (f g : S -> B -> S) (l : list B) (s : S) :
  (forall a b, In b l -> f a b = g a b) ->
  fold_left f l s = fold_left g l s.
Proof.
  revert s. induction l as [|b l IH]; intros s Hfg; [reflexivity|].
  simpl. rewrite Hfg by (left; reflexivity).
  apply IH. intros a b' Hb'. apply Hfg. right. exact Hb'.
Qed.
Lemma fold_left_map_arg {B C : Type} (f : S -> C -> S) (g : B -> C)
    (l : list B) (s : S) :
  fold_left f (map g l) s = fold_left (fun s b => f s (g b)) l s.
Proof.
  revert s. induction l as [|b l IH]; intros s; [reflexivity|]. apply IH.
Qed.

(** The model of the [for] statement does what the statement does: test,
    body, increment. *)
Lemma for_loop_unfold body (i stop step : Z) (s : S) :
  0 < step ->
  for_loop i stop step body s =
    if i <? stop then for_loop (i + step) stop step body (body i s) else s.
Proof.
  intros Hstep. unfold for_loop, trip_count.
  destruct (Z.ltb_spec i stop) as [Hlt|Hge].
  - replace (stop - i + step - 1) with ((stop - (i + step) + step - 1) + 1 * step) by ring.
    rewrite Z.div_add by lia.
    assert (0 <= (stop - (i + step) + step - 1) / step)
      by (apply Z.div_pos; lia).
    rewrite Z2Nat.inj_add by lia. rewrite Nat.add_comm. reflexivity.
  - assert ((stop - i + step - 1) / step <= 0) as Hle.
    { apply Z.lt_succ_r. apply Z.div_lt_upper_bound; lia. }
    destruct ((stop - i + step - 1) / step); try lia; reflexivity.
Qed.

Lemma for_iter_fold body (count : nat) (i step : Z) (s : S) :
  for_iter count i step body s =
    fold_left (fun s k => body (i + Z.of_nat k * step) s) (seq 0 count) s.
Proof.
  revert i s. induction count as [|c IH]; intros i s; [reflexivity|].
  cbn [for_iter seq fold_left]. rewrite IH, <- seq_shift, fold_left_map_arg.
  replace (i + Z.of_nat 0 * step) with i by (simpl; ring).
  apply fold_left_ext_in. intros a k _.
  f_equal. rewrite Nat2Z.inj_succ. ring.
Qed.

(** [for (i = 0; i < n; ++i)]. *)
Lemma for_loop_count body (n : nat) (s : S) :
  for_loop 0 (Z.of_nat n) 1 body s =
    fold_left (fun s k => body (Z.of_nat k) s) (seq 0 n) s.
Proof.
  unfold for_loop, trip_count.
  replace (Z.of_nat n - 0 + 1 - 1) with (Z.of_nat n) by ring.
  rewrite Z.div_1_r, Nat2Z.id, for_iter_fold.
  apply fold_left_ext_in. intros a k _. f_equal. ring.
Qed.

(** [for (i = 0; i < blocks * step; i += step)]. *)
Lemma for_loop_blocks body (blocks : nat) (step : Z) (s : S) :
  0 < step ->
  for_loop 0 (Z.of_nat blocks * step) step body s =
    fold_left (fun s k => body (Z.of_nat k * step) s) (seq 0 blocks) s.
Proof.
  intros Hstep. unfold for_loop, trip_count.
  replace (Z.of_nat blocks * step - 0 + step - 1)
    with ((step - 1) + Z.of_nat blocks * step) by ring.
  rewrite Z.div_add, Z.div_small, Z.add_0_l, Nat2Z.id by lia.
  rewrite for_iter_fold. reflexivity.
Qed.

End Loops.

(** ** Vectors *)

Section VectorFacts.
Context {A : Type}.
Variable dflt : A.
Implicit Types (v : list A) (i j : Z).

Lemma replace_nth_length (k : nat) (x : A) v :
  length (replace_nth k x v) = length v.
Proof.
  revert k. induction v as [|a v IH]; intros [|k]; simpl; auto.
Qed.

Lemma nth_replace_nth_same (k : nat) (x : A) v :
  (k < length v)%nat -> nth k (replace_nth k x v) dflt = x.
Proof.
  revert k. induction v as [|a v IH]; intros [|k] Hk; simpl in *;
    try lia; auto. apply IH. lia.
Qed.

Lemma nth_replace_nth_other (k m : nat) (x : A) v :
  k <> m -> nth m (replace_nth k x v) dflt = nth m v dflt.
Proof.
  revert k m. induction v as [|a v IH]; intros [|k] [|m] Hkm; simpl;
    try congruence; auto.
Qed.

Lemma vset_length v i (x : A) : length (vset v i x) = length v.
Proof.
  unfold vset. destruct (i <? 0); [reflexivity|apply replace_nth_length].
Qed.

Lemma vget_vset_same v i (x : A) :
  0 <= i < Z.of_nat (length v) -> vget dflt (vset v i x) i = x.
Proof.
  intros Hi. unfold vget, vset.
  destruct (Z.ltb_spec i 0); [lia|].
  apply nth_replace_nth_same. lia.
Qed.

Lemma vget_vset_other v i j (x : A) :
  i <> j -> vget dflt (vset v i x) j = vget dflt v j.
Proof.
  intros Hij. unfold vget, vset.
  destruct (Z.ltb_spec j 0); [reflexivity|].
  destruct (Z.ltb_spec i 0); [reflexivity|].
  apply nth_replace_nth_other. lia.
Qed.

Lemma vswap_length v i j : length (vswap dflt v i j) = length v.
Proof. unfold vswap. rewrite !vset_length. reflexivity. Qed.

(** Two vectors of one size with the same element at every index are
    equal. *)
Lemma vget_ext v w :
  length v = length w ->
  (forall i, 0 <= i < Z.of_nat (length v) -> vget dflt v i = vget dflt w i) ->
  v = w.
Proof.
  intros Hlen Hget. apply (nth_ext v w dflt dflt Hlen).
  intros n Hn. specialize (Hget (Z.of_nat n)).
  unfold vget in Hget.
  destruct (Z.ltb_spec (Z.of_nat n) 0); [lia|].
  rewrite Nat2Z.id in Hget. apply Hget. lia.
Qed.

Lemma vget_repeat (x : A) (n : nat) i :
  vget dflt (repeat x n) i = if (0 <=? i) && (i <? Z.of_nat n) then x else dflt.
Proof.
  unfold vget.
  destruct (Z.ltb_spec i 0); destruct (Z.leb_spec 0 i); try lia;
    [reflexivity|]. simpl.
  destruct (Z.ltb_spec i (Z.of_nat n)).
  - apply nth_repeat_lt. lia.
  - apply nth_overflow. rewrite repeat_length. lia.
Qed.

Lemma vget_app_l v w i :
  0 <= i < Z.of_nat (length v) -> vget dflt (v ++ w) i = vget dflt v i.
Proof.
  intros Hi. unfold vget. destruct (Z.ltb_spec i 0); [lia|].
  apply app_nth1. lia.
Qed.

Lemma vget_app_last v (a : A) :
  vget dflt (v ++ [a]) (Z.of_nat (length v)) = a.
Proof.
  unfold vget. destruct (Z.ltb_spec (Z.of_nat (length v)) 0); [lia|].
  rewrite Nat2Z.id, app_nth2, Nat.sub_diag by lia. reflexivity.
Qed.
Lemma fold_map_step (g : Z -> A -> A) (n : nat) v :
  (n <= length v)%nat ->
  let res := fold_left (fun v k =>
               vset v (Z.of_nat k) (g (Z.of_nat k) (vget dflt v (Z.of_nat k))))
               (seq 0 n) v in
  length res = length v /\
  forall i, vget dflt res i =
    if (0 <=? i) && (i <? Z.of_nat n) then g i (vget dflt v i) else vget dflt v i.
Proof.
  induction n as [|n IH]; intros Hn.
  - simpl. split; [reflexivity|]. intros i.
    destruct (Z.leb_spec 0 i); simpl; [|reflexivity].
    destruct (Z.ltb_spec i 0); [lia|reflexivity].
  - destruct IH as [Hlen Hget]; [lia|].
    cbv zeta. rewrite seq_S, fold_left_app. cbn [fold_left Nat.add].
    set (res := fold_left _ (seq 0 n) v) in *.
    split; [rewrite vset_length; exact Hlen|].
    intros i. destruct (Z.eq_dec i (Z.of_nat n)) as [->|Hne].
    + rewrite vget_vset_same by lia. rewrite Hget.
      destruct (Z.leb_spec 0 (Z.of_nat n)); [|lia].
      destruct (Z.ltb_spec (Z.of_nat n) (Z.of_nat n)); [lia|].
      destruct (Z.ltb_spec (Z.of_nat n) (Z.of_nat (Datatypes.S n))); [|lia].
      reflexivity.
    + rewrite vget_vset_other by congruence. rewrite Hget.
      destruct (Z.leb_spec 0 i); cbn [andb]; [|reflexivity].
      destruct (Z.ltb_spec i (Z.of_nat n));
        destruct (Z.ltb_spec i (Z.of_nat (Datatypes.S n))); try lia;
        reflexivity.
Qed.

(** A loop that rewrites the element at every index applies [g] to each
    element, independently of the others. *)
Lemma map_loop_spec (g : Z -> A -> A) v :
  let res := map_loop dflt g (Z.of_nat (length v)) v in
  length res = length v /\
  forall i, 0 <= i < Z.of_nat (length v) ->
    vget dflt res i = g i (vget dflt v i).
Proof.
  cbv zeta. unfold map_loop. rewrite for_loop_count.
  destruct (@fold_map_step g (length v) v (le_n _)) as [Hlen Hget].
  split; [exact Hlen|]. intros i Hi. rewrite Hget.
  destruct (Z.leb_spec 0 i); [|lia].
  destruct (Z.ltb_spec i (Z.of_nat (length v))); [|lia]. reflexivity.
Qed.

End VectorFacts.

(** ** The loop nest of the single-qubit gates *)

Section PairLoops.
Context {T : Type} `{Double T}.
Variables f0 f1 : Complex T -> Complex T -> Complex T.
Implicit Types (sv : list (Complex T)).

Lemma pair_step_length stride sv idx0 :
  length (pair_step f0 f1 stride sv idx0) = length sv.
Proof. unfold pair_step. rewrite !vset_length. reflexivity. Qed.

(** A sequence of pair steps whose pairs are in range and pairwise disjoint
    rewrites each pair from the original amplitudes and touches nothing
    else. *)
Lemma fold_pair_step (stride : Z) (l : list Z) sv :
  0 < stride ->
  NoDup l ->
  (forall x, In x l -> 0 <= x /\ x + stride < Z.of_nat (length sv)) ->
  (forall x y, In x l -> In y l -> x <> y + stride) ->
  let res := fold_left (pair_step f0 f1 stride) l sv in
  length res = length sv /\
  (forall x, In x l ->
     vget C0 res x = f0 (vget C0 sv x) (vget C0 sv (x + stride)) /\
     vget C0 res (x + stride) = f1 (vget C0 sv x) (vget C0 sv (x + stride))) /\
  (forall z, (forall x, In x l -> z <> x /\ z <> x + stride) ->
     vget C0 res z = vget C0 sv z).
Proof.
  intros Hs. revert sv. induction l as [|x l IH]; intros sv Hnd Hrange Hdisj.
  - simpl. split; [reflexivity|split]; [intros x []|reflexivity].
  - inversion Hnd as [|? ? Hnotin Hnd']; subst.
    cbn [fold_left].
    assert (Hx : 0 <= x /\ x + stride < Z.of_nat (length sv))
      by (apply Hrange; left; reflexivity).
    specialize (IH (pair_step f0 f1 stride sv x) Hnd').
    destruct IH as (Hlen & Hin & Hout).
    { intros y Hy. rewrite pair_step_length. apply Hrange. right; exact Hy. }
    { intros y z Hy Hz. apply Hdisj; right; assumption. }
    assert (Hstep : forall z, z <> x -> z <> x + stride ->
              vget C0 (pair_step f0 f1 stride sv x) z = vget C0 sv z).
    { intros z Hz1 Hz2. unfold pair_step.
      rewrite !vget_vset_other by congruence. reflexivity. }
    assert (Hlo : vget C0 (pair_step f0 f1 stride sv x) x
                  = f0 (vget C0 sv x) (vget C0 sv (x + stride))).
    { unfold pair_step. rewrite vget_vset_other by lia.
      apply vget_vset_same. lia. }
    assert (Hhi : vget C0 (pair_step f0 f1 stride sv x) (x + stride)
                  = f1 (vget C0 sv x) (vget C0 sv (x + stride))).
    { unfold pair_step. apply vget_vset_same. rewrite vset_length. lia. }
    split; [|split].
    + rewrite Hlen. apply pair_step_length.
    + intros y [<-|Hy].
      * rewrite (Hout x), (Hout (x + stride)); [split; assumption| |].
        -- intros z Hz. split.
           ++ intros E. symmetry in E. revert E.
              apply Hdisj; [right; exact Hz|left; reflexivity].
           ++ intros E. assert (x = z) by lia. subst z. contradiction.
        -- intros z Hz. split; [intros ->; contradiction|].
           apply Hdisj; [left; reflexivity|right; exact Hz].
      * destruct (Hin y Hy) as [E0 E1]. rewrite E0, E1.
        assert (y <> x) by (intros ->; contradiction).
        assert (y <> x + stride)
          by (apply Hdisj; [right; exact Hy|left; reflexivity]).
        assert (y + stride <> x)
          by (intros E; symmetry in E; revert E;
              apply Hdisj; [left; reflexivity|right; exact Hy]).
        rewrite !Hstep by lia. split; reflexivity.
    + intros z Hz. rewrite Hout.
      * apply Hstep; apply Hz; left; reflexivity.
      * intros y Hy. apply Hz. right; exact Hy.
Qed.
End PairLoops.

Section PairLoopSpec.
Context {T : Type} `{Double T}.
Variables f0 f1 : Complex T -> Complex T -> Complex T.
Implicit Types (sv : list (Complex T)).

Lemma in_pair_indices (stride : Z) (blocks : nat) (x : Z) :
  0 < stride ->
  In x (pair_indices stride blocks) <->
  exists k j, 0 <= k < Z.of_nat blocks /\ 0 <= j < stride /\
              x = k * (2 * stride) + j.
Proof.
  intros Hs. unfold pair_indices. rewrite in_flat_map. split.
  - intros (k & Hk & Hx). apply in_map_iff in Hx as (j & <- & Hj).
    apply in_seq in Hk. apply in_seq in Hj.
    exists (Z.of_nat k), (Z.of_nat j). repeat split; lia.
  - intros (k & j & Hk & Hj & ->).
    exists (Z.to_nat k). split; [apply in_seq; lia|].
    apply in_map_iff. exists (Z.to_nat j).
    split; [rewrite !Z2Nat.id by lia; reflexivity|apply in_seq; lia].
Qed.

Lemma NoDup_pair_indices (stride : Z) (blocks : nat) :
  0 < stride -> NoDup (pair_indices stride blocks).
Proof.
  intros Hs. induction blocks as [|b IH]; [constructor|].
  unfold pair_indices in *. rewrite seq_S, flat_map_app.
  cbn [flat_map Nat.add]. rewrite app_nil_r. apply NoDup_app; [exact IH| |].
  - apply Injective_map_NoDup_in; [|apply seq_NoDup].
    intros x y _ _ E. lia.
  - intros x Hx Hx'.
    apply (in_pair_indices b x Hs) in Hx as (k & j & Hk & Hj & ->).
    apply in_map_iff in Hx' as (j' & E & Hj'). apply in_seq in Hj'.
    assert ((k + 1) * (2 * stride) <= Z.of_nat b * (2 * stride))
      by (apply Z.mul_le_mono_nonneg_r; lia).
    lia.
Qed.

Lemma pair_loop_fold (stride : Z) (blocks : nat) sv :
  0 < stride ->
  pair_loop f0 f1 (Z.of_nat blocks * (2 * stride)) stride sv =
    fold_left (pair_step f0 f1 stride) (pair_indices stride blocks) sv.
Proof.
  intros Hs. unfold pair_loop, pair_indices.
  rewrite for_loop_blocks by lia. rewrite fold_left_flat_map.
  apply fold_left_ext_in. intros a k _.
  rewrite <- (Z2Nat.id stride) at 1 by lia.
  rewrite for_loop_count, fold_left_map_arg. reflexivity.
Qed.

(** For a target qubit [q] of an [n]-qubit register the loop nest is a
    sequence of pair steps, one at every index whose bit [q] is clear; the
    pairs are in range and pairwise disjoint. *)
Lemma pair_loop_steps (n q : Z) sv :
  0 <= q < n ->
  exists l,
    pair_loop f0 f1 (2 ^ n) (2 ^ q) sv = fold_left (pair_step f0 f1 (2 ^ q)) l sv /\
    NoDup l /\
    (forall x, In x l -> 0 <= x /\ x + 2 ^ q < 2 ^ n) /\
    (forall x y, In x l -> In y l -> x <> y + 2 ^ q) /\
    (forall i, 0 <= i < 2 ^ n -> Z.testbit i q = false -> In i l).
Proof.
  intros Hq.
  assert (Hs : 0 < 2 ^ q) by (apply pow2_pos; lia).
  assert (Hb : 0 < 2 ^ (n - q - 1)) by (apply pow2_pos; lia).
  assert (Hdim : 2 ^ n = Z.of_nat (Z.to_nat (2 ^ (n - q - 1))) * (2 * 2 ^ q)).
  { rewrite Z2Nat.id by lia.
    replace (2 * 2 ^ q) with (2 ^ (q + 1))
      by (rewrite Z.pow_add_r by lia; ring).
    rewrite <- Z.pow_add_r by lia. f_equal. ring. }
  set (blocks := Z.to_nat (2 ^ (n - q - 1))) in *.
  exists (pair_indices (2 ^ q) blocks). repeat apply conj.
  - rewrite Hdim at 1. apply pair_loop_fold. exact Hs.
  - apply NoDup_pair_indices; exact Hs.
  - intros x Hx. apply in_pair_indices in Hx as (k & j & Hk & Hj & ->); [|exact Hs].
    rewrite Hdim. nia.
  - intros x y Hx Hy E.
    apply in_pair_indices in Hx as (k & j & Hk & Hj & ->); [|exact Hs].
    apply in_pair_indices in Hy as (k' & j' & Hk' & Hj' & ->); [|exact Hs].
    destruct (@testbit_block k j q) as [B0 _]; [lia|lia|].
    destruct (@testbit_block k' j' q) as [_ B1]; [lia|lia|].
    rewrite E, B1 in B0. discriminate.
  - intros i Hi Hbit.
    destruct (@block_of_clear_bit i q) as (k & j & Hk & Hj & ->);
      [lia|lia|exact Hbit|].
    assert (Hkb : k < Z.of_nat blocks) by nia.
    apply in_pair_indices; [exact Hs|].
    exists k, j. repeat split; lia.
Qed.

(** What the loop nest computes: every index [i] whose bit [q] is clear is
    paired with [i + 2^q], and the pair is rewritten from its old values.
    Every index below [2^n] is the first or the second element of exactly
    one such pair. *)
Lemma pair_loop_spec (n q : Z) sv :
  0 <= q < n ->
  Z.of_nat (length sv) = 2 ^ n ->
  let res := pair_loop f0 f1 (2 ^ n) (2 ^ q) sv in
  length res = length sv /\
  forall i, 0 <= i < 2 ^ n -> Z.testbit i q = false ->
    i + 2 ^ q < 2 ^ n /\
    vget C0 res i = f0 (vget C0 sv i) (vget C0 sv (i + 2 ^ q)) /\
    vget C0 res (i + 2 ^ q) = f1 (vget C0 sv i) (vget C0 sv (i + 2 ^ q)).
Proof.
  intros Hq Hlen.
  assert (Hs : 0 < 2 ^ q) by (apply pow2_pos; lia).
  destruct (pair_loop_steps sv Hq) as (l & Hfold & Hnd & Hrange & Hdisj & Hcov).
  cbv zeta. rewrite Hfold.
  destruct (@fold_pair_step T _ f0 f1 (2 ^ q) l sv Hs Hnd) as (Hl & Hin & _).
  - intros x Hx. rewrite Hlen. apply Hrange. exact Hx.
  - exact Hdisj.
  - split; [exact Hl|]. intros i Hi Hbit.
    split; [apply Hrange, Hcov; assumption|].
    apply Hin, Hcov; assumption.
Qed.
End PairLoopSpec.

(** ** The loops of [measure] *)

Section MeasureLoops.
Context {T : Type} `{Double T}.
Implicit Types (sv : list (Complex T)).

Lemma for_loop_ext {S : Type} (body body' : Z -> S -> S) start stop step s :
  (forall i a, body i a = body' i a) ->
  for_loop start stop step body s = for_loop start stop step body' s.
Proof.
  intros E. unfold for_loop. generalize (trip_count start stop step) as c.
  intros c. revert start s. induction c as [|c IH]; intros start s;
    [reflexivity|]. simpl. rewrite E. apply IH.
Qed.

Lemma vget_of_nat sv (k : nat) : vget C0 sv (Z.of_nat k) = nth k sv C0.
Proof.
  unfold vget. destruct (Z.ltb_spec (Z.of_nat k) 0); [lia|].
  rewrite Nat2Z.id. reflexivity.
Qed.

(** The accumulation loop of [measure] adds, from [0.0] and in increasing
    order of the index, the squared magnitudes of the selected
    amplitudes. *)
Lemma fold_select (P : Z -> bool) sv (start : Z) (acc : T) :
  fold_left (fun p k =>
               if P (start + Z.of_nat k) then d_add p (norm (nth k sv C0)) else p)
            (seq 0 (length sv)) acc =
  fold_left d_add
    (map norm (map snd (filter (fun ia => P (fst ia)) (indexed_from start sv))))
    acc.
Proof.
  revert start acc. induction sv as [|a sv IH]; intros start acc;
    [reflexivity|].
  cbn [length seq fold_left indexed_from filter fst].
  rewrite <- seq_shift, fold_left_map_arg.
  replace (start + Z.of_nat 0) with start by (simpl; ring).
  rewrite (fold_left_ext_in _
    (fun p k => if P (start + 1 + Z.of_nat k)
                then d_add p (norm (nth k sv C0)) else p)).
  - rewrite IH. destruct (P start); reflexivity.
  - intros p k _. cbn [nth].
    replace (start + Z.of_nat (Datatypes.S k)) with (start + 1 + Z.of_nat k)
      by (rewrite Nat2Z.inj_succ; ring).
    reflexivity.
Qed.
End MeasureLoops.

(** ** [QuantumSimulator::measure] *)

Section Measure.
Context {T : Type} `{Double T}.
Implicit Types (sim : QuantumSimulator.t T).

Lemma measure_unfold (q : Z) sim :
  QuantumSimulator.measure q sim =
    let prob0 := QuantumSimulator.measure_prob0 q sim in
    let dim := shl1 (QuantumSimulator.num_qubits sim) in
    let sv := QuantumSimulator.state_vector sim in
    if d_ltb (fst (draw (QuantumSimulator.rng sim))) prob0 then
      (0, QuantumSimulator.mk (QuantumSimulator.num_qubits sim)
            (map_loop C0 (keep0 (shl1 q) (d_sqrt prob0)) dim sv)
            (snd (draw (QuantumSimulator.rng sim))))
    else
      (1, QuantumSimulator.mk (QuantumSimulator.num_qubits sim)
            (map_loop C0 (keep1 (shl1 q) (d_sqrt (d_sub d_one prob0))) dim sv)
            (snd (draw (QuantumSimulator.rng sim)))).
Proof.
  unfold QuantumSimulator.measure, draw, map_loop, keep0, keep1.
  cbn [fst snd].
  destruct (d_ltb _ _); f_equal; f_equal; apply for_loop_ext;
    intros i a; destruct (negb _); reflexivity.
Qed.

Lemma measure_prob0_spec (q : Z) sim :
  well_formed sim -> 0 <= q <= 30 ->
  QuantumSimulator.measure_prob0 q sim =
    probability_of_bit0 q (QuantumSimulator.state_vector sim).
Proof.
  intros [Hn Hlen] Hq.
  unfold QuantumSimulator.measure_prob0, probability_of_bit0, sum_list,
    amplitudes_with_bit, indexed.
  rewrite !shl1_pow2 by lia. rewrite <- Hlen, for_loop_count.
  rewrite <- (fold_select (fun i => Bool.eqb (Z.testbit i q) false)).
  apply fold_left_ext_in. intros p k _.
  rewrite land_pow2_eqb, vget_of_nat by lia. rewrite Z.add_0_l.
  destruct (Z.testbit (Z.of_nat k) q); reflexivity.
Qed.

(** The two outcomes of [measure], with [prob0] as its first loop leaves
    it. *)
Lemma measure_pointwise (q : Z) sim :
  well_formed sim ->
  0 <= q < QuantumSimulator.num_qubits sim ->
  let sv := QuantumSimulator.state_vector sim in
  let prob0 := QuantumSimulator.measure_prob0 q sim in
  let r := fst (draw (QuantumSimulator.rng sim)) in
  let bit := fst (QuantumSimulator.measure q sim) in
  let sim' := snd (QuantumSimulator.measure q sim) in
  let sv' := QuantumSimulator.state_vector sim' in
  QuantumSimulator.rng sim' = snd (draw (QuantumSimulator.rng sim)) /\
  QuantumSimulator.num_qubits sim' = QuantumSimulator.num_qubits sim /\
  length sv' = length sv /\
  (d_ltb r prob0 = true ->
     bit = 0 /\
     forall i, 0 <= i < 2 ^ QuantumSimulator.num_qubits sim ->
       vget C0 sv' i =
         if Z.testbit i q then C0 else Cdiv (vget C0 sv i) (d_sqrt prob0)) /\
  (d_ltb r prob0 = false ->
     bit = 1 /\
     forall i, 0 <= i < 2 ^ QuantumSimulator.num_qubits sim ->
       vget C0 sv' i =
         if Z.testbit i q
         then Cdiv (vget C0 sv i) (d_sqrt (d_sub d_one prob0)) else C0).
Proof.
  intros Hwf Hq. pose proof Hwf as [Hn Hlen].
  cbv zeta. rewrite measure_unfold. cbv zeta.
  set (p := QuantumSimulator.measure_prob0 q sim).
  rewrite !shl1_pow2 by lia. rewrite <- Hlen.
  destruct (d_ltb _ p); cbn [fst snd QuantumSimulator.rng
    QuantumSimulator.num_qubits QuantumSimulator.state_vector].
  - destruct (map_loop_spec C0 (keep0 (2 ^ q) (d_sqrt p))
                (QuantumSimulator.state_vector sim)) as [Hl Hg].
    repeat split; try assumption; try discriminate.
    intros i Hi. rewrite Hg by exact Hi. unfold keep0.
    rewrite land_pow2_eqb, negb_involutive by lia. reflexivity.
  - destruct (map_loop_spec C0 (keep1 (2 ^ q) (d_sqrt (d_sub d_one p)))
                (QuantumSimulator.state_vector sim)) as [Hl Hg].
    repeat split; try assumption; try discriminate.
    intros i Hi. rewrite Hg by exact Hi. unfold keep1.
    rewrite land_pow2_eqb, negb_involutive by lia. reflexivity.
Qed.

Lemma measure_well_formed (q : Z) sim :
  well_formed sim ->
  0 <= q < QuantumSimulator.num_qubits sim ->
  well_formed (snd (QuantumSimulator.measure q sim)).
Proof.
  intros Hwf Hq. pose proof Hwf as [Hn Hlen].
  destruct (measure_pointwise Hwf Hq) as (_ & Hnq & Hl & _).
  unfold well_formed. rewrite Hnq, Hl. split; assumption.
Qed.

(** C2.  For a register that satisfies the representation invariant and a
    qubit index in range, [measure] takes [prob0] to be the sum of
    [|amplitude_i|^2] over the indices whose bit [qubit] is 0 and [r] to be
    the next double of the generator.  If [r < prob0] it returns 0, zeroes
    every amplitude whose bit is 1 and divides every other amplitude by
    [sqrt(prob0)]; otherwise it returns 1, zeroes every amplitude whose bit
    is 0 and divides every other amplitude by [sqrt(1 - prob0)]. *)
Theorem measure_collapses (q : Z) sim :
  well_formed sim ->
  0 <= q < QuantumSimulator.num_qubits sim ->
  let sv := QuantumSimulator.state_vector sim in
  let prob0 := probability_of_bit0 q sv in
  let r := fst (draw (QuantumSimulator.rng sim)) in
  let bit := fst (QuantumSimulator.measure q sim) in
  let sim' := snd (QuantumSimulator.measure q sim) in
  let sv' := QuantumSimulator.state_vector sim' in
  QuantumSimulator.measure_prob0 q sim = prob0 /\
  QuantumSimulator.rng sim' = snd (draw (QuantumSimulator.rng sim)) /\
  length sv' = length sv /\
  (d_ltb r prob0 = true ->
     bit = 0 /\
     forall i, 0 <= i < 2 ^ QuantumSimulator.num_qubits sim ->
       vget C0 sv' i =
         if Z.testbit i q then C0 else Cdiv (vget C0 sv i) (d_sqrt prob0)) /\
  (d_ltb r prob0 = false ->
     bit = 1 /\
     forall i, 0 <= i < 2 ^ QuantumSimulator.num_qubits sim ->
       vget C0 sv' i =
         if Z.testbit i q
         then Cdiv (vget C0 sv i) (d_sqrt (d_sub d_one prob0)) else C0).
Proof.
  intros Hwf Hq. pose proof Hwf as [Hn Hlen]. cbv zeta.
  destruct (measure_pointwise Hwf Hq) as (Hrng & _ & Hl & Hthen & Helse).
  rewrite <- (measure_prob0_spec Hwf) by lia.
  repeat split; try assumption; try (apply Hthen; assumption);
    apply Helse; assumption.
Qed.
End Measure.

(** ** The gates as instances of the shared loop nest *)

Section Gates.
Context {T : Type} `{Double T}.
Implicit Types (sim : QuantumSimulator.t T) (st : CSim.QuantumState T).

Lemma applyH_pair_loop (q : Z) sim :
  QuantumSimulator.applyH q sim =
    QuantumSimulator.with_state sim
      (pair_loop hadamard0 hadamard1
         (shl1 (QuantumSimulator.num_qubits sim)) (shl1 q)
         (QuantumSimulator.state_vector sim)).
Proof. reflexivity. Qed.

Lemma applyX_pair_loop (q : Z) sim :
  QuantumSimulator.applyX q sim =
    QuantumSimulator.with_state sim
      (pair_loop (fun a b => b) (fun a b => a)
         (shl1 (QuantumSimulator.num_qubits sim)) (shl1 q)
         (QuantumSimulator.state_vector sim)).
Proof. reflexivity. Qed.

Lemma applyRY_pair_loop `{Trig T} (q : Z) (theta : T) sim :
  QuantumSimulator.applyRY q theta sim =
    QuantumSimulator.with_state sim
      (pair_loop (rotate0 (d_cos (d_div theta d_two)) (d_sin (d_div theta d_two)))
                 (rotate1 (d_cos (d_div theta d_two)) (d_sin (d_div theta d_two)))
         (shl1 (QuantumSimulator.num_qubits sim)) (shl1 q)
         (QuantumSimulator.state_vector sim)).
Proof. reflexivity. Qed.

Lemma apply_hadamard_pair_loop st (qubit : Z) :
  CSim.apply_hadamard st qubit =
    CSim.mkState (CSim.num_qubits st) (CSim.dimension st)
      (pair_loop hadamard0 hadamard1 (CSim.dimension st) (shl1 qubit)
         (CSim.amplitudes st)).
Proof. reflexivity. Qed.

Lemma apply_pauli_x_pair_loop st (qubit : Z) :
  CSim.apply_pauli_x st qubit =
    CSim.mkState (CSim.num_qubits st) (CSim.dimension st)
      (pair_loop (fun a b => b) (fun a b => a) (CSim.dimension st) (shl1 qubit)
         (CSim.amplitudes st)).
Proof. reflexivity. Qed.

(** *** [applyCNOT] with equal control and target *)

Lemma for_loop_skip {S : Type} (body : Z -> S -> S) start stop step (s : S) :
  (forall i a, body i a = a) -> for_loop start stop step body s = s.
Proof.
  intros E. unfold for_loop. generalize (trip_count start stop step) as c.
  intros c. revert start s. induction c as [|c IH]; intros start s;
    [reflexivity|]. simpl. rewrite E. apply IH.
Qed.

Lemma cnot_swaps_same_mask (mask i : Z) :
  QuantumSimulator.cnot_swaps mask mask i = false.
Proof.
  unfold QuantumSimulator.cnot_swaps.
  destruct (Z.land i mask =? 0); reflexivity.
Qed.

Lemma applyCNOT_same (c : Z) sim : QuantumSimulator.applyCNOT c c sim = sim.
Proof.
  unfold QuantumSimulator.applyCNOT, QuantumSimulator.with_state.
  rewrite for_loop_skip.
  - destruct sim; reflexivity.
  - intros i a. rewrite cnot_swaps_same_mask. reflexivity.
Qed.

(** C10.  [applyCNOT(c, t)] with [c == t]: the two masks coincide, the test
    that guards the swap fails at every index, the call returns normally
    and the simulator, with every amplitude, is as before the call. *)
Theorem applyCNOT_same_qubit_is_identity (c : Z) sim :
  (forall i, QuantumSimulator.cnot_swaps (shl1 c) (shl1 c) i = false) /\
  QuantumSimulator.applyCNOT c c sim = sim /\
  QuantumSimulator.call_applyCNOT c c sim = Returned sim /\
  (forall e, QuantumSimulator.call_applyCNOT c c sim <> Raised e).
Proof.
  split; [intros i; apply cnot_swaps_same_mask|].
  split; [apply applyCNOT_same|].
  unfold QuantumSimulator.call_applyCNOT. rewrite applyCNOT_same.
  split; [reflexivity|discriminate].
Qed.

(** C4, as the code has it.  A CNOT whose control equals its target raises
    no error.  In the C++ class the call returns normally and every
    amplitude is unchanged; in the C program [apply_gate] does not
    implement [GATE_CNOT] at all: for any control and target it reports the
    gate as not implemented and leaves the state unchanged. *)
Theorem cnot_same_qubit_returns_unchanged (c : Z) sim st (angle : T) :
  (exists sim',
     QuantumSimulator.call_applyCNOT c c sim = Returned sim' /\
     QuantumSimulator.state_vector sim' = QuantumSimulator.state_vector sim /\
     QuantumSimulator.num_qubits sim' = QuantumSimulator.num_qubits sim) /\
  CSim.apply_gate st (CSim.mkGate CSim.GATE_CNOT c c angle) =
    (st, [CSim.GateNotImplemented 4]).
Proof.
  split; [|reflexivity].
  exists sim. unfold QuantumSimulator.call_applyCNOT.
  rewrite applyCNOT_same. repeat split.
Qed.
End Gates.

(** ** [apply_gate] of the C program *)

Section ApplyGate.
Context {T : Type} `{Double T}.
Implicit Types (st : CSim.QuantumState T) (gate : CSim.QuantumGate T).

Lemma apply_gate_unimplemented st gate :
  CSim.type gate <> CSim.GATE_H -> CSim.type gate <> CSim.GATE_X ->
  CSim.apply_gate st gate =
    (st, [CSim.GateNotImplemented (CSim.GateType_value (CSim.type gate))]).
Proof.
  unfold CSim.apply_gate. destruct (CSim.type gate); congruence.
Qed.

(** [apply_gate] implements two of the six kinds of [GateType]. *)
Lemma apply_gate_spec st gate :
  well_formed_state st ->
  0 <= CSim.target gate < CSim.num_qubits st ->
  let q := CSim.target gate in
  let st' := fst (CSim.apply_gate st gate) in
  let log := snd (CSim.apply_gate st gate) in
  let old := vget C0 (CSim.amplitudes st) in
  let new := vget C0 (CSim.amplitudes st') in
  well_formed_state st' /\
  CSim.num_qubits st' = CSim.num_qubits st /\
  match CSim.type gate with
  | CSim.GATE_H =>
      log = [] /\
      forall i, 0 <= i < 2 ^ CSim.num_qubits st -> Z.testbit i q = false ->
        new i = Cdiv (Cadd (old i) (old (i + 2 ^ q))) (d_sqrt d_two) /\
        new (i + 2 ^ q) = Cdiv (Csub (old i) (old (i + 2 ^ q))) (d_sqrt d_two)
  | CSim.GATE_X =>
      log = [] /\
      forall i, 0 <= i < 2 ^ CSim.num_qubits st -> Z.testbit i q = false ->
        new i = old (i + 2 ^ q) /\ new (i + 2 ^ q) = old i
  | other =>
      log = [CSim.GateNotImplemented (CSim.GateType_value other)] /\
      st' = st
  end.
Proof.
  intros (Hn & Hdim & Hlen) Hq. cbv zeta. unfold CSim.apply_gate.
  destruct (CSim.type gate); cbn [fst snd];
    try (split; [unfold well_formed_state; auto|]; split; [reflexivity|];
         split; reflexivity).
  - rewrite apply_hadamard_pair_loop. cbn [CSim.amplitudes CSim.num_qubits].
    rewrite Hdim, shl1_pow2 by lia.
    destruct (@pair_loop_spec T _ hadamard0 hadamard1 (CSim.num_qubits st)
                (CSim.target gate) (CSim.amplitudes st) Hq Hlen) as [Hl Hp].
    split; [|split; [reflexivity|split; [reflexivity|]]].
    + unfold well_formed_state. cbn. rewrite Hl. auto.
    + intros i Hi Hb. apply (Hp i Hi Hb).
  - rewrite apply_pauli_x_pair_loop. cbn [CSim.amplitudes CSim.num_qubits].
    rewrite Hdim, shl1_pow2 by lia.
    destruct (@pair_loop_spec T _ (fun a b => b) (fun a b => a)
                (CSim.num_qubits st) (CSim.target gate) (CSim.amplitudes st)
                Hq Hlen) as [Hl Hp].
    split; [|split; [reflexivity|split; [reflexivity|]]].
    + unfold well_formed_state. cbn. rewrite Hl. auto.
    + intros i Hi Hb. apply (Hp i Hi Hb).
Qed.
End ApplyGate.

(** ** Construction *)

#[export] Instance DoubleLiterals_binary64 : DoubleLiterals float.
Proof. split; reflexivity. Qed.


Section Construction.
Context {T : Type} `{Double T}.
Implicit Types (sim : QuantumSimulator.t T).

Lemma to_nat_pow2 (n : Z) :
  0 <= n -> Z.to_nat (2 ^ n) = Datatypes.S (Z.to_nat (2 ^ n) - 1).
Proof. intros Hn. pose proof (pow2_pos Hn). lia. Qed.

Lemma vset_repeat_0 {A : Type} (x y : A) (m : nat) :
  vset (repeat x (Datatypes.S m)) 0 y = y :: repeat x m.
Proof. reflexivity. Qed.

Lemma new_state_vector (n : Z) (g : Rng T) :
  0 <= n <= 30 ->
  QuantumSimulator.state_vector (QuantumSimulator.new n g)
    = C1 :: repeat C0 (Z.to_nat (2 ^ n) - 1).
Proof.
  intros Hn. unfold QuantumSimulator.new.
  cbn [QuantumSimulator.state_vector].
  rewrite shl1_pow2 by lia. set (m := (Z.to_nat (2 ^ n) - 1)%nat).
  replace (Z.to_nat (2 ^ n)) with (Datatypes.S m)
    by (subst m; rewrite <- to_nat_pow2; [reflexivity|lia]).
  apply vset_repeat_0.
Qed.

Lemma new_well_formed (n : Z) (g : Rng T) :
  0 <= n <= 30 -> well_formed (QuantumSimulator.new n g).
Proof.
  intros Hn. split; [exact Hn|]. rewrite new_state_vector by exact Hn.
  cbn [length QuantumSimulator.new QuantumSimulator.num_qubits].
  rewrite repeat_length. pose proof (@pow2_pos n). lia.
Qed.

Lemma vget_map {A B : Type} (f : A -> B) (da : A) (db : B) (v : list A) i :
  0 <= i < Z.of_nat (length v) -> vget db (map f v) i = f (vget da v i).
Proof.
  intros Hi. unfold vget. destruct (Z.ltb_spec i 0); [lia|].
  rewrite (nth_indep _ db (f da)) by (rewrite length_map; lia).
  apply map_nth.
Qed.

(** [getProbabilities()] is the list of the squared magnitudes. *)
Lemma getProbabilities_map sim :
  well_formed sim ->
  QuantumSimulator.getProbabilities sim
    = map norm (QuantumSimulator.state_vector sim).
Proof.
  intros [Hn Hlen]. unfold QuantumSimulator.getProbabilities.
  rewrite shl1_pow2, <- Hlen, Nat2Z.id by lia.
  set (sv := QuantumSimulator.state_vector sim).
  pose proof (map_loop_spec d_zero (fun i _ => norm (vget C0 sv i))
                (repeat d_zero (length sv))) as Hspec.
  cbv zeta in Hspec. rewrite repeat_length in Hspec.
  destruct Hspec as [Hl Hg].
  apply (vget_ext d_zero).
  - unfold map_loop in Hl. rewrite Hl, length_map. reflexivity.
  - intros i Hi. unfold map_loop in Hl, Hg. rewrite Hl in Hi.
    rewrite Hg by exact Hi. symmetry. apply vget_map. exact Hi.
Qed.

Context `{!DoubleLiterals T}.

Lemma norm_C0 : norm C0 = d_zero.
Proof.
  unfold norm, C0. cbn [re im].
  rewrite mul_zero_zero. apply add_zero_zero.
Qed.

Lemma norm_C1 : norm C1 = d_one.
Proof.
  unfold norm, C1. cbn [re im].
  rewrite mul_one_one, mul_zero_zero. apply add_one_zero.
Qed.

Lemma sum_list_basis (m : nat) : sum_list (d_one :: repeat d_zero m) = d_one.
Proof.
  unfold sum_list. cbn [fold_left]. rewrite add_zero_one.
  induction m as [|m IH]; [reflexivity|].
  cbn [repeat fold_left]. rewrite add_one_zero. exact IH.
Qed.

(** The probabilities of a freshly constructed simulator. *)
Lemma new_probabilities (n : Z) (g : Rng T) :
  0 <= n <= 30 ->
  QuantumSimulator.getProbabilities (QuantumSimulator.new n g)
    = d_one :: repeat d_zero (Z.to_nat (2 ^ n) - 1).
Proof.
  intros Hn. rewrite getProbabilities_map by (apply new_well_formed; exact Hn).
  rewrite new_state_vector by exact Hn. cbn [map].
  rewrite map_repeat, norm_C0, norm_C1. reflexivity.
Qed.

(** The expression [1.0 + 0.0 * I] of [initialize_state]. *)
Lemma one_plus_zero_I : CSim.Cadd_real d_one (Cscale d_zero CSim.CI) = C1.
Proof.
  unfold CSim.Cadd_real, Cscale, CSim.CI, C1. cbn [re im].
  rewrite mul_zero_zero, mul_zero_one, add_one_zero. reflexivity.
Qed.

(** [create_state] followed by [initialize_state]. *)
Lemma create_then_initialize (al : CSim.allocator) (n : Z) :
  0 <= n <= 30 ->
  CSim.malloc_succeeds al = true -> CSim.calloc_succeeds al = true ->
  exists st,
    CSim.returned (CSim.create_state al n) = Some st /\
    well_formed_state st /\
    CSim.amplitudes (CSim.initialize_state st)
      = C1 :: repeat C0 (Z.to_nat (2 ^ n) - 1).
Proof.
  intros Hn Hm Hc. unfold CSim.create_state.
  destruct (Z.gtb_spec n CSim.MAX_QUBITS) as [Hgt|_];
    [unfold CSim.MAX_QUBITS in Hgt; lia|].
  rewrite Hm, Hc. cbn [negb CSim.returned].
  rewrite shl1_pow2 by exact Hn.
  eexists. split; [reflexivity|]. split.
  - unfold well_formed_state. cbn. rewrite repeat_length.
    pose proof (@pow2_pos n). repeat split; lia.
  - unfold CSim.initialize_state.
    cbn [CSim.amplitudes CSim.dimension CSim.num_qubits].
    rewrite one_plus_zero_I.
    pose proof (map_loop_spec C0 (fun _ _ => C0)
                  (repeat C0 (Z.to_nat (2 ^ n)))) as Hspec.
    cbv zeta in Hspec. unfold map_loop in Hspec.
    rewrite repeat_length, Z2Nat.id in Hspec
      by (pose proof (@pow2_pos n); lia).
    destruct Hspec as [Hl Hg].
    set (amps := for_loop _ _ _ _ _) in *.
    assert (amps = repeat C0 (Z.to_nat (2 ^ n))) as ->.
    { apply (vget_ext C0); [rewrite Hl, repeat_length; reflexivity|].
      intros i Hi. rewrite Hl in Hi.
      rewrite Hg by lia. rewrite vget_repeat.
      destruct (Z.leb_spec 0 i); [|lia].
      destruct (Z.ltb_spec i (Z.of_nat (Z.to_nat (2 ^ n)))); [|lia].
      reflexivity. }
    set (m := (Z.to_nat (2 ^ n) - 1)%nat).
    replace (Z.to_nat (2 ^ n)) with (Datatypes.S m)
      by (subst m; rewrite <- to_nat_pow2; [reflexivity|lia]).
    apply vset_repeat_0.
Qed.

(** C5, as the code has it.  [create_state] refuses a qubit count above
    [MAX_QUBITS] (so [MAX_QUBITS + 1]): it reports "Too many qubits",
    returns [NULL] and has allocated nothing.  It has no lower bound: for
    [0 <= num_qubits <= 30] and an allocator that succeeds, so for 0, it
    returns a state with [2^num_qubits] zeroed amplitudes.  The C++
    constructor has no capacity check either: for [0 <= n <= 30], so for 0,
    it returns a register with [2^n] amplitudes when the allocation succeeds
    and throws [std::bad_alloc] when it fails; for [n = 31], where [1 << n]
    is negative, [resize] throws [std::length_error] and nothing is
    allocated.  No call raises [CapacityError]. *)
Theorem construction_capacity :
  (forall al n, CSim.MAX_QUBITS < n ->
     CSim.create_state (T:=T) al n =
       CSim.mkCreated None [] [CSim.TooManyQubits CSim.MAX_QUBITS]) /\
  (forall al n, 0 <= n <= 30 ->
     CSim.malloc_succeeds al = true -> CSim.calloc_succeeds al = true ->
     CSim.create_state (T:=T) al n =
       CSim.mkCreated
         (Some (CSim.mkState n (2 ^ n) (repeat C0 (Z.to_nat (2 ^ n)))))
         [CSim.MallocState; CSim.CallocAmplitudes (2 ^ n)] []) /\
  (forall n (g : Rng T), 0 <= n <= 30 ->
     QuantumSimulator.call_new true n g = Returned (QuantumSimulator.new n g) /\
     Z.of_nat (length (QuantumSimulator.state_vector (QuantumSimulator.new n g)))
       = 2 ^ n /\
     QuantumSimulator.call_new false n g = Thrown std_bad_alloc) /\
  (forall alloc_ok (g : Rng T),
     QuantumSimulator.call_new alloc_ok 31 g = Thrown std_length_error) /\
  (forall alloc_ok n (g : Rng T),
     QuantumSimulator.call_new alloc_ok n g <> Raised CapacityError).
Proof.
  split; [|split; [|split; [|split]]].
  - intros al n Hn. unfold CSim.create_state.
    destruct (Z.gtb_spec n CSim.MAX_QUBITS); [reflexivity|lia].
  - intros al n Hn Hm Hc. unfold CSim.create_state.
    destruct (Z.gtb_spec n CSim.MAX_QUBITS) as [Hgt|_];
      [unfold CSim.MAX_QUBITS in Hgt; lia|].
    rewrite Hm, Hc, shl1_pow2 by exact Hn. reflexivity.
  - intros n g Hn. unfold QuantumSimulator.call_new. cbv zeta.
    rewrite shl1_pow2 by exact Hn. pose proof (@pow2_pos n) as Hpos.
    destruct (Z.ltb_spec (2 ^ n) 0); [lia|].
    split; [reflexivity|]. split; [|reflexivity].
    apply (new_well_formed g). exact Hn.
  - intros alloc_ok g. reflexivity.
  - intros alloc_ok n g. unfold QuantumSimulator.call_new. cbv zeta.
    destruct (shl1 n <? 0); [discriminate|].
    destruct (negb alloc_ok); discriminate.
Qed.
End Construction.

(** ** The simulators in binary64 *)

Lemma float_within_tolerance_one : float_within_tolerance 1%float 1%R.
Proof.
  unfold float_within_tolerance, float_to_R.
  replace (Prim2SF 1%float) with (S754_finite false 4503599627370496 (-52))
    by (vm_compute; reflexivity).
  eexists. split; [reflexivity|]. unfold within_tolerance, tolerance, pow2_R.
  cbn [Z.ltb Z.compare Z.opp]. change (2 ^ 52) with 4503599627370496.
  apply Rabs_le. lra.
Qed.

(** C8.  For every qubit count [n] with [0 <= n <= 30], so for every count
    the spec calls valid, the probabilities of a freshly constructed C++
    simulator are [1.0] at index 0 and [0.0] at every other index, and their
    sum is [1.0], exactly and hence within [1e-9].  In the C program
    [create_state] followed by [initialize_state] gives the amplitudes
    [1.0 + 0.0i] at index 0 and [0.0] elsewhere. *)
Theorem fresh_register_is_basis_state (n : Z) (g : Rng float)
    (al : CSim.allocator) :
  0 <= n <= 30 ->
  let probs := QuantumSimulator.getProbabilities (QuantumSimulator.new n g) in
  Z.of_nat (length probs) = 2 ^ n /\
  vget 0%float probs 0 = 1%float /\
  (forall i, 1 <= i < 2 ^ n -> vget 0%float probs i = 0%float) /\
  sum_list probs = 1%float /\
  float_within_tolerance (sum_list probs) 1%R /\
  (CSim.malloc_succeeds al = true -> CSim.calloc_succeeds al = true ->
   exists st,
     CSim.returned (CSim.create_state (T:=float) al n) = Some st /\
     CSim.amplitudes (CSim.initialize_state st)
       = C1 :: repeat C0 (Z.to_nat (2 ^ n) - 1)).
Proof.
  intros Hn. cbv zeta. rewrite (new_probabilities g Hn).
  pose proof (pow2_pos (proj1 Hn)) as Hp.
  change (@d_one float Double_binary64) with 1%float.
  change (@d_zero float Double_binary64) with 0%float.
  split; [cbn [length]; rewrite repeat_length; lia|].
  split; [reflexivity|]. split.
  - intros i Hi. unfold vget. destruct (Z.ltb_spec i 0); [lia|].
    destruct (Z.to_nat i) as [|k] eqn:Hk; [lia|].
    cbn [nth]. destruct (Nat.lt_ge_cases k (Z.to_nat (2 ^ n) - 1)).
    + apply nth_repeat_lt. assumption.
    + apply nth_overflow. rewrite repeat_length. assumption.
  - pose proof (@sum_list_basis float _ _ (Z.to_nat (2 ^ n) - 1)) as Hsum.
    change (@d_one float Double_binary64) with 1%float in Hsum.
    change (@d_zero float Double_binary64) with 0%float in Hsum.
    rewrite Hsum.
    split; [reflexivity|]. split; [apply float_within_tolerance_one|].
    intros Hm Hc.
    destruct (@create_then_initialize float _ _ al n Hn Hm Hc)
      as (st & Hst & _ & Hamps).
    exists st. split; assumption.
Qed.

Lemma fresh_register_is_basis_state_witness :
  0 <= 3 <= 30 /\
  let probs := QuantumSimulator.getProbabilities (QuantumSimulator.new 3 no_draws) in
  Z.of_nat (length probs) = 2 ^ 3 /\
  vget 0%float probs 0 = 1%float /\
  (forall i, 1 <= i < 2 ^ 3 -> vget 0%float probs i = 0%float) /\
  sum_list probs = 1%float /\
  float_within_tolerance (sum_list probs) 1%R /\
  (CSim.malloc_succeeds heap_ok = true -> CSim.calloc_succeeds heap_ok = true ->
   exists st,
     CSim.returned (CSim.create_state (T:=float) heap_ok 3) = Some st /\
     CSim.amplitudes (CSim.initialize_state st)
       = C1 :: repeat C0 (Z.to_nat (2 ^ 3) - 1)).
Proof.
  split; [lia|].
  apply (@fresh_register_is_basis_state 3 no_draws heap_ok). lia.
Defined.

(** The double nearest to [1/sqrt 2] that the Hadamard gate produces. *)
Lemma inv_sqrt2_within_tolerance :
  float_within_tolerance 0x1.6a09e667f3bccp-1%float (/ R_sqrt.sqrt 2)%R.
Proof.
  unfold float_within_tolerance, float_to_R.
  replace (Prim2SF 0x1.6a09e667f3bccp-1%float)
    with (S754_finite false 6369051672525772 (-53))
    by (vm_compute; reflexivity).
  eexists. split; [reflexivity|]. unfold within_tolerance, tolerance, pow2_R.
  cbn [Z.ltb Z.compare Z.opp]. change (2 ^ 53) with 9007199254740992.
  assert (Hs : (0 < R_sqrt.sqrt 2)%R) by (apply sqrt_lt_R0; lra).
  assert (Hy : (0 < / R_sqrt.sqrt 2)%R) by (apply Rinv_0_lt_compat; exact Hs).
  assert (Hyy : (/ R_sqrt.sqrt 2 * / R_sqrt.sqrt 2 = / 2)%R).
  { rewrite <- Rinv_mult. rewrite sqrt_sqrt by lra. reflexivity. }
  set (y := (/ R_sqrt.sqrt 2)%R) in *.
  apply Rabs_le. split; nra.
Qed.

(** The Bell circuit in any arithmetic, as the expressions the code
    evaluates, and in exact real arithmetic. *)
Lemma bell_state_symbolic {T : Type} `{Double T} (g : Rng T) :
  QuantumSimulator.state_vector
    (QuantumSimulator.createBellState (QuantumSimulator.new 2 g))
  = [hadamard0 C1 C0; hadamard1 C0 C0; hadamard0 C0 C0; hadamard1 C1 C0].
Proof. reflexivity. Qed.

Lemma bell_state_exact (g : Rng R) :
  QuantumSimulator.state_vector
    (QuantumSimulator.createBellState (QuantumSimulator.new 2 g))
  = [mkComplex (/ R_sqrt.sqrt 2)%R 0%R; C0; C0; mkComplex (/ R_sqrt.sqrt 2)%R 0%R].
Proof.
  rewrite bell_state_symbolic.
  assert (Hne : R_sqrt.sqrt 2 <> 0%R).
  { pose proof (sqrt_lt_R0 2). lra. }
  unfold hadamard0, hadamard1, Cdiv, Cadd, Csub, C0, C1. cbn.
  repeat f_equal; field; exact Hne.
Qed.

(** C1.  In binary64, on a freshly constructed 2-qubit simulator,
    [createBellState] (Hadamard on qubit 0, then CNOT with control 0 and
    target 1) leaves the amplitudes [x + 0i] at indices 0 and 3, where [x] is
    the double [0x1.6a09e667f3bccp-1], within [1e-9] of the real number
    [1/sqrt 2], and exactly [0 + 0i] at indices 1 and 2. *)
Theorem bell_state_amplitudes (g : Rng float) :
  let sv := QuantumSimulator.state_vector
              (QuantumSimulator.createBellState (QuantumSimulator.new 2 g)) in
  length sv = 4%nat /\
  float_within_tolerance (re (vget C0 sv 0)) (/ R_sqrt.sqrt 2)%R /\
  im (vget C0 sv 0) = 0%float /\
  vget C0 sv 1 = C0 /\
  vget C0 sv 2 = C0 /\
  float_within_tolerance (re (vget C0 sv 3)) (/ R_sqrt.sqrt 2)%R /\
  im (vget C0 sv 3) = 0%float.
Proof.
  cbv zeta.
  assert (E : QuantumSimulator.state_vector
                (QuantumSimulator.createBellState (QuantumSimulator.new 2 g))
              = [mkComplex 0x1.6a09e667f3bccp-1%float 0%float; C0; C0;
                 mkComplex 0x1.6a09e667f3bccp-1%float 0%float])
    by (vm_compute; reflexivity).
  rewrite E. cbn [length vget Z.ltb Z.compare Z.to_nat nth re im Pos.to_nat
                  Pos.iter_op Nat.add].
  repeat split; try reflexivity; apply inv_sqrt2_within_tolerance.
Qed.

(** ** The simulators in exact real arithmetic *)

Section RealSums.
Local Open Scope R_scope.
Implicit Types (v : list (Complex R)) (a b : Complex R).

Lemma fold_left_Rplus (l : list R) (acc : R) :
  fold_left Rplus l acc = acc + Rsum l.
Proof.
  revert acc. induction l as [|x l IH]; intros acc; simpl.
  - ring.
  - rewrite IH. ring.
Qed.

Lemma sum_list_R (l : list R) : sum_list l = Rsum l.
Proof.
  unfold sum_list. cbn [d_add d_zero Double_R].
  rewrite fold_left_Rplus. ring.
Qed.

Lemma norm_R a : norm a = re a * re a + im a * im a.
Proof. reflexivity. Qed.

Lemma norm_nonneg a : 0 <= norm a.
Proof. rewrite norm_R. nra. Qed.

Lemma norm_C0_R : norm (T:=R) C0 = 0.
Proof. rewrite norm_R. cbn. ring. Qed.

Lemma total_probability_sumsq (sim : QuantumSimulator.t R) :
  well_formed sim ->
  total_probability sim = sumsq (QuantumSimulator.state_vector sim).
Proof.
  intros Hwf. unfold total_probability, sumsq.
  rewrite getProbabilities_map by exact Hwf. apply sum_list_R.
Qed.

Lemma sumsq_replace_nth (k : nat) (x : Complex R) v :
  (k < length v)%nat ->
  sumsq (replace_nth k x v) = sumsq v - norm (nth k v C0) + norm x.
Proof.
  unfold sumsq. revert k. induction v as [|a v IH]; intros [|k] Hk;
    simpl in *; try lia.
  - ring.
  - rewrite IH by lia. ring.
Qed.

Lemma sumsq_vset v (i : Z) (x : Complex R) :
  (0 <= i < Z.of_nat (length v))%Z ->
  sumsq (vset v i x) = sumsq v - norm (vget C0 v i) + norm x.
Proof.
  intros Hi. unfold vset, vget. destruct (Z.ltb_spec i 0); [lia|].
  apply sumsq_replace_nth. lia.
Qed.






End RealSums.

(** ** [QuantumSimulator::applyCNOT] *)

Section CNOT.
Context {T : Type} `{Double T}.
Implicit Types (sim : QuantumSimulator.t T) (sv : list (Complex T)).

Lemma lxor_pow2_clear (i t : Z) :
  0 <= t -> Z.testbit i t = false -> Z.lxor i (2 ^ t) = i + 2 ^ t.
Proof.
  intros Ht Hb. symmetry. apply Z.add_nocarry_lxor.
  apply Z.eqb_eq. rewrite land_pow2_eqb, Hb by lia. reflexivity.
Qed.

Lemma testbit_lxor_pow2 (i t c : Z) :
  0 <= t -> 0 <= c ->
  Z.testbit (Z.lxor i (2 ^ t)) c =
    if c =? t then negb (Z.testbit i c) else Z.testbit i c.
Proof.
  intros Ht Hc. rewrite Z.lxor_spec, Z.pow2_bits_eqb by lia.
  rewrite (Z.eqb_sym t c).
  destruct (c =? t); [apply xorb_true_r|apply xorb_false_r].
Qed.

Lemma clear_bit_add_lt (n q i : Z) :
  0 <= q < n -> 0 <= i < 2 ^ n -> Z.testbit i q = false -> i + 2 ^ q < 2 ^ n.
Proof.
  intros Hq Hi Hb.
  destruct (@pair_loop_steps T _ (fun a _ => a) (fun _ b => b) n q [] Hq)
    as (l & _ & _ & Hrange & _ & Hcov).
  apply Hrange, Hcov; assumption.
Qed.

Lemma fold_left_filter {S B : Type} (f : S -> B -> S) (P : B -> bool)
    (l : list B) (s : S) :
  fold_left (fun s b => if P b then f s b else s) l s
    = fold_left f (filter P l) s.
Proof.
  revert s. induction l as [|b l IH]; intros s; [reflexivity|].
  cbn [fold_left filter]. destruct (P b); [cbn [fold_left]|]; apply IH.
Qed.

Lemma cnot_swaps_bits (c t i : Z) :
  0 <= c -> 0 <= t ->
  QuantumSimulator.cnot_swaps (2 ^ c) (2 ^ t) i
    = Z.testbit i c && negb (Z.testbit i t).
Proof.
  intros Hc Ht. unfold QuantumSimulator.cnot_swaps.
  rewrite !land_pow2_eqb, !negb_involutive by lia.
  destruct (Z.testbit i c), (Z.testbit i t); reflexivity.
Qed.

Lemma in_cnot_indices (c t : Z) (len : nat) (x : Z) :
  In x (cnot_indices c t len) <->
  0 <= x < Z.of_nat len /\ Z.testbit x c = true /\ Z.testbit x t = false.
Proof.
  unfold cnot_indices. rewrite filter_In, in_map_iff, andb_true_iff,
    negb_true_iff. split.
  - intros [(k & <- & Hk) Hb]. apply in_seq in Hk. split; [lia|exact Hb].
  - intros (Hx & Hb). split; [|exact Hb].
    exists (Z.to_nat x). split; [lia|apply in_seq; lia].
Qed.

Lemma applyCNOT_steps (c t : Z) sim :
  well_formed sim -> 0 <= c <= 30 -> 0 <= t <= 30 ->
  QuantumSimulator.state_vector (QuantumSimulator.applyCNOT c t sim) =
    fold_left (pair_step (fun a b => b) (fun a b => a) (2 ^ t))
      (cnot_indices c t (length (QuantumSimulator.state_vector sim)))
      (QuantumSimulator.state_vector sim).
Proof.
  intros [Hn Hlen] Hc Ht. unfold QuantumSimulator.applyCNOT.
  cbn [QuantumSimulator.with_state QuantumSimulator.state_vector].
  rewrite !shl1_pow2 by lia. rewrite <- Hlen, for_loop_count.
  unfold cnot_indices. rewrite <- fold_left_filter, fold_left_map_arg.
  apply fold_left_ext_in. intros sv k _.
  rewrite cnot_swaps_bits by lia.
  destruct (Z.testbit (Z.of_nat k) c); [|reflexivity].
  destruct (Z.testbit (Z.of_nat k) t) eqn:Hb; [reflexivity|].
  cbn [andb negb]. rewrite lxor_pow2_clear by (lia || exact Hb).
  reflexivity.
Qed.

(** What [applyCNOT] computes for distinct control and target in range:
    the amplitude at an index with the control bit set comes from the index
    with the target bit flipped, and every other amplitude stays. *)
Lemma applyCNOT_spec (c t : Z) sim :
  well_formed sim ->
  0 <= c < QuantumSimulator.num_qubits sim ->
  0 <= t < QuantumSimulator.num_qubits sim ->
  c <> t ->
  let sv := QuantumSimulator.state_vector sim in
  let sv' := QuantumSimulator.state_vector (QuantumSimulator.applyCNOT c t sim) in
  length sv' = length sv /\
  forall i, 0 <= i < 2 ^ QuantumSimulator.num_qubits sim ->
    vget C0 sv' i =
      if Z.testbit i c then vget C0 sv (Z.lxor i (2 ^ t)) else vget C0 sv i.
Proof.
  intros Hwf Hc Ht Hct. pose proof Hwf as [Hn Hlen]. cbv zeta.
  rewrite applyCNOT_steps by (assumption || lia).
  set (sv := QuantumSimulator.state_vector sim) in *.
  set (n := QuantumSimulator.num_qubits sim) in *.
  assert (Hs : 0 < 2 ^ t) by (apply pow2_pos; lia).
  destruct (@fold_pair_step T _ (fun a b => b) (fun a b => a) (2 ^ t)
              (cnot_indices c t (length sv)) sv Hs) as (Hl & Hin & Hout).
  - apply NoDup_filter. apply Injective_map_NoDup_in; [|apply seq_NoDup].
    intros x y _ _ E. lia.
  - intros x Hx. apply in_cnot_indices in Hx as (Hx & _ & Hb).
    split; [lia|]. rewrite Hlen in *. apply clear_bit_add_lt; assumption.
  - intros x y Hx Hy E.
    apply in_cnot_indices in Hx as (_ & _ & Hbx).
    apply in_cnot_indices in Hy as (_ & _ & Hby).
    rewrite E, <- lxor_pow2_clear, testbit_lxor_pow2, Z.eqb_refl, Hby in Hbx
      by (lia || exact Hby).
    discriminate.
  - split; [exact Hl|]. intros i Hi.
    destruct (Z.testbit i c) eqn:Hbc; [destruct (Z.testbit i t) eqn:Hbt|].
    + (* control set, target set: [i] is the upper index of its pair *)
      set (x := Z.lxor i (2 ^ t)).
      assert (Hxt : Z.testbit x t = false)
        by (unfold x; rewrite testbit_lxor_pow2, Z.eqb_refl, Hbt by lia;
            reflexivity).
      assert (Hxc : Z.testbit x c = true).
      { unfold x. rewrite testbit_lxor_pow2 by lia.
        destruct (Z.eqb_spec c t); [contradiction|exact Hbc]. }
      assert (Hxi : x + 2 ^ t = i).
      { rewrite <- lxor_pow2_clear by (lia || exact Hxt). unfold x.
        rewrite Z.lxor_assoc, Z.lxor_nilpotent, Z.lxor_0_r. reflexivity. }
      assert (Hx0 : 0 <= x) by (unfold x; apply Z.lxor_nonneg; lia).
      destruct (Hin x) as [_ E].
      { apply in_cnot_indices. repeat split; try assumption; lia. }
      rewrite Hxi in E. exact E.
    + (* control set, target clear: [i] is the lower index of its pair *)
      rewrite lxor_pow2_clear by (lia || exact Hbt).
      apply Hin. apply in_cnot_indices. repeat split; try assumption; lia.
    + (* control clear: no pair contains [i] *)
      apply Hout. intros x Hx. apply in_cnot_indices in Hx as (_ & Hxc & Hxt).
      split; intros E; subst i.
      * rewrite Hxc in Hbc. discriminate.
      * rewrite <- lxor_pow2_clear, testbit_lxor_pow2 in Hbc
          by (lia || exact Hxt).
        destruct (Z.eqb_spec c t); [contradiction|].
        rewrite Hxc in Hbc. discriminate.
Qed.
End CNOT.

(** ** The gates that the code implements *)

Section ImplementedGates.
Context {T : Type} `{Double T}.
Implicit Types (sim : QuantumSimulator.t T).

(** The three single-qubit member functions of the C++ class, on a target
    in range. *)
Lemma single_qubit_gates_spec `{Trig T} (q : Z) (theta : T) sim :
  well_formed sim -> 0 <= q < QuantumSimulator.num_qubits sim ->
  let old := vget C0 (QuantumSimulator.state_vector sim) in
  let afterH :=
    vget C0 (QuantumSimulator.state_vector (QuantumSimulator.applyH q sim)) in
  let afterX :=
    vget C0 (QuantumSimulator.state_vector (QuantumSimulator.applyX q sim)) in
  let afterRY :=
    vget C0 (QuantumSimulator.state_vector
               (QuantumSimulator.applyRY q theta sim)) in
  let c := d_cos (d_div theta d_two) in
  let s := d_sin (d_div theta d_two) in
  forall i, 0 <= i < 2 ^ QuantumSimulator.num_qubits sim ->
    Z.testbit i q = false ->
    (afterH i = Cdiv (Cadd (old i) (old (i + 2 ^ q))) (d_sqrt d_two) /\
     afterH (i + 2 ^ q) = Cdiv (Csub (old i) (old (i + 2 ^ q))) (d_sqrt d_two)) /\
    (afterX i = old (i + 2 ^ q) /\ afterX (i + 2 ^ q) = old i) /\
    (afterRY i = Csub (Cscale c (old i)) (Cscale s (old (i + 2 ^ q))) /\
     afterRY (i + 2 ^ q) = Cadd (Cscale s (old i)) (Cscale c (old (i + 2 ^ q)))).
Proof.
  intros [Hn Hlen] Hq. cbv zeta. intros i Hi Hb.
  rewrite applyH_pair_loop, applyX_pair_loop, applyRY_pair_loop.
  cbn [QuantumSimulator.with_state QuantumSimulator.state_vector].
  rewrite !shl1_pow2 by lia.
  split; [|split].
  - destruct (pair_loop_spec hadamard0 hadamard1 _ Hq Hlen) as [_ Hp].
    apply (Hp i Hi Hb).
  - destruct (pair_loop_spec (fun a b => b) (fun a b => a) _ Hq Hlen) as [_ Hp].
    apply (Hp i Hi Hb).
  - destruct (pair_loop_spec
                (rotate0 (d_cos (d_div theta d_two)) (d_sin (d_div theta d_two)))
                (rotate1 (d_cos (d_div theta d_two)) (d_sin (d_div theta d_two)))
                _ Hq Hlen) as [_ Hp].
    apply (Hp i Hi Hb).
Qed.

(** C6, as the code has it.  The gates that are implemented perform their
    transformation; PauliY, PauliZ and Swap are implemented nowhere.
    (1) The C [apply_gate], on a state as [create_state] builds it and a
    target in range: [GATE_H] replaces every pair [(a, b)] of amplitudes at
    indices [i] (target bit 0) and [i + 2^target] by
    [((a+b)/sqrt 2, (a-b)/sqrt 2)]; [GATE_X] exchanges the two amplitudes of
    every such pair; [GATE_Y], [GATE_Z], [GATE_CNOT] and [GATE_SWAP] write
    "Gate type %d not implemented" and leave the state, with every amplitude,
    unchanged.  (2) The C++ class, on a register that satisfies the
    representation invariant: [applyH] and [applyX] do the same as [GATE_H]
    and [GATE_X]; [applyRY(q, theta)] replaces every such pair by
    [(cos(theta/2) a - sin(theta/2) b, sin(theta/2) a + cos(theta/2) b)];
    [applyCNOT(c, t)] with distinct indices in range moves to every index
    whose control bit is 1 the amplitude of the index with the target bit
    flipped and leaves the other amplitudes. *)
Theorem implemented_gates_transform :
  (forall (st : CSim.QuantumState T) (gate : CSim.QuantumGate T),
     well_formed_state st ->
     0 <= CSim.target gate < CSim.num_qubits st ->
     let q := CSim.target gate in
     let st' := fst (CSim.apply_gate st gate) in
     let log := snd (CSim.apply_gate st gate) in
     let old := vget C0 (CSim.amplitudes st) in
     let new := vget C0 (CSim.amplitudes st') in
     well_formed_state st' /\
     match CSim.type gate with
     | CSim.GATE_H =>
         log = [] /\
         forall i, 0 <= i < 2 ^ CSim.num_qubits st -> Z.testbit i q = false ->
           new i = Cdiv (Cadd (old i) (old (i + 2 ^ q))) (d_sqrt d_two) /\
           new (i + 2 ^ q) = Cdiv (Csub (old i) (old (i + 2 ^ q))) (d_sqrt d_two)
     | CSim.GATE_X =>
         log = [] /\
         forall i, 0 <= i < 2 ^ CSim.num_qubits st -> Z.testbit i q = false ->
           new i = old (i + 2 ^ q) /\ new (i + 2 ^ q) = old i
     | other =>
         log = [CSim.GateNotImplemented (CSim.GateType_value other)] /\
         st' = st
     end) /\
  (forall (trig : Trig T) (sim : QuantumSimulator.t T),
     well_formed sim ->
     let n := QuantumSimulator.num_qubits sim in
     let old := vget C0 (QuantumSimulator.state_vector sim) in
     (forall q theta i, 0 <= q < n -> 0 <= i < 2 ^ n -> Z.testbit i q = false ->
        let afterH :=
          vget C0 (QuantumSimulator.state_vector (QuantumSimulator.applyH q sim)) in
        let afterX :=
          vget C0 (QuantumSimulator.state_vector (QuantumSimulator.applyX q sim)) in
        let afterRY :=
          vget C0 (QuantumSimulator.state_vector
                     (QuantumSimulator.applyRY q theta sim)) in
        let c := d_cos (d_div theta d_two) in
        let s := d_sin (d_div theta d_two) in
        (afterH i = Cdiv (Cadd (old i) (old (i + 2 ^ q))) (d_sqrt d_two) /\
         afterH (i + 2 ^ q)
           = Cdiv (Csub (old i) (old (i + 2 ^ q))) (d_sqrt d_two)) /\
        (afterX i = old (i + 2 ^ q) /\ afterX (i + 2 ^ q) = old i) /\
        (afterRY i = Csub (Cscale c (old i)) (Cscale s (old (i + 2 ^ q))) /\
         afterRY (i + 2 ^ q)
           = Cadd (Cscale s (old i)) (Cscale c (old (i + 2 ^ q))))) /\
     (forall c t i, 0 <= c < n -> 0 <= t < n -> c <> t -> 0 <= i < 2 ^ n ->
        vget C0 (QuantumSimulator.state_vector
                   (QuantumSimulator.applyCNOT c t sim)) i
          = if Z.testbit i c then old (Z.lxor i (2 ^ t)) else old i)).
Proof.
  split.
  - intros st gate Hwf Hq. cbv zeta.
    destruct (apply_gate_spec gate Hwf Hq) as (Hwf' & _ & Hcases).
    split; [exact Hwf'|exact Hcases].
  - intros trig sim Hwf. cbv zeta. split.
    + intros q theta i Hq Hi Hb.
      apply (single_qubit_gates_spec theta Hwf Hq Hi Hb).
    + intros c t i Hc Ht Hct Hi.
      destruct (applyCNOT_spec Hwf Hc Ht Hct) as [_ Hg]. apply Hg. exact Hi.
Qed.
End ImplementedGates.

(** ** Measurement in exact real arithmetic *)

Section RealMeasure.
Local Open Scope R_scope.
Implicit Types (v : list (Complex R)) (sim : QuantumSimulator.t R).

Lemma big_sum_ext (F G : nat -> R) (n : nat) :
  (forall k, (k < n)%nat -> F k = G k) -> big_sum F n = big_sum G n.
Proof.
  induction n as [|n IH]; intros E; [reflexivity|]. simpl.
  rewrite IH by (intros k Hk; apply E; lia). rewrite E by lia. reflexivity.
Qed.

Lemma big_sum_div (F : nat -> R) (c : R) (n : nat) :
  big_sum (fun k => F k / c) n = big_sum F n / c.
Proof.
  induction n as [|n IH]; simpl; [unfold Rdiv; ring|].
  rewrite IH. unfold Rdiv. ring.
Qed.

Lemma big_sum_plus (F G : nat -> R) (n : nat) :
  big_sum (fun k => F k + G k) n = big_sum F n + big_sum G n.
Proof.
  induction n as [|n IH]; simpl; [ring|]. rewrite IH. ring.
Qed.

Lemma big_sum_zero (n : nat) : big_sum (fun _ => 0) n = 0.
Proof. induction n as [|n IH]; simpl; [reflexivity|]. rewrite IH. ring. Qed.

Lemma fold_big_sum (P : nat -> bool) (F : nat -> R) (n : nat) (acc : R) :
  fold_left (fun p k => if P k then p + F k else p) (seq 0 n) acc
    = acc + big_sum (fun k => if P k then F k else 0) n.
Proof.
  induction n as [|n IH]; [simpl; ring|].
  rewrite seq_S, fold_left_app, IH. cbn [fold_left big_sum Nat.add].
  destruct (P n); ring.
Qed.

Lemma sumsq_app v (a : Complex R) : sumsq (v ++ [a]) = sumsq v + norm a.
Proof.
  unfold sumsq, Rsum.
  induction v as [|b v IH]; cbn [app map fold_right]; [ring|].
  rewrite IH. ring.
Qed.

Lemma sumsq_big_sum v :
  sumsq v = big_sum (fun k => norm (vget C0 v (Z.of_nat k))) (length v).
Proof.
  induction v as [|a v IH] using rev_ind; [reflexivity|].
  rewrite sumsq_app, length_app, Nat.add_comm. cbn [length Nat.add big_sum].
  rewrite vget_app_last, IH. f_equal.
  apply big_sum_ext. intros k Hk. rewrite vget_app_l by lia. reflexivity.
Qed.

Lemma mass_split (q : Z) v : mass false q v + mass true q v = sumsq v.
Proof.
  unfold mass. rewrite <- big_sum_plus, sumsq_big_sum.
  apply big_sum_ext. intros k _.
  destruct (Z.testbit (Z.of_nat k) q); cbn [Bool.eqb]; ring.
Qed.

Lemma measure_prob0_mass (q : Z) sim :
  well_formed sim -> (0 <= q <= 30)%Z ->
  QuantumSimulator.measure_prob0 q sim
    = mass false q (QuantumSimulator.state_vector sim).
Proof.
  intros [Hn Hlen] Hq. unfold QuantumSimulator.measure_prob0, mass.
  rewrite !shl1_pow2 by lia. rewrite <- Hlen, for_loop_count.
  cbn [d_add d_zero Double_R].
  rewrite (fold_left_ext_in _
    (fun p k => if negb (Z.testbit (Z.of_nat k) q)
                then p + norm (vget C0 (QuantumSimulator.state_vector sim)
                                 (Z.of_nat k))
                else p)).
  - rewrite fold_big_sum, Rplus_0_l. apply big_sum_ext. intros k _.
    destruct (Z.testbit (Z.of_nat k) q); reflexivity.
  - intros p k _. rewrite land_pow2_eqb by lia. reflexivity.
Qed.

(** The mass of a vector obtained index by index from another. *)
Lemma mass_pointwise (b : bool) (q : Z) (g : Z -> Complex R -> Complex R) v v' :
  length v' = length v ->
  (forall i, (0 <= i < Z.of_nat (length v))%Z ->
     vget C0 v' i = g i (vget C0 v i)) ->
  mass b q v' =
    big_sum (fun k => if Bool.eqb (Z.testbit (Z.of_nat k) q) b
                      then norm (g (Z.of_nat k) (vget C0 v (Z.of_nat k)))
                      else 0) (length v).
Proof.
  intros Hlen Hg. unfold mass. rewrite Hlen. apply big_sum_ext.
  intros k Hk. rewrite Hg by lia. reflexivity.
Qed.

Lemma norm_Cdiv_sqrt (a : Complex R) (p : R) :
  0 < p -> norm (Cdiv a (R_sqrt.sqrt p)) = norm a / p.
Proof.
  intros Hp. rewrite !norm_R. cbn.
  assert (Hs : R_sqrt.sqrt p * R_sqrt.sqrt p = p) by (apply sqrt_sqrt; lra).
  assert (Hne : R_sqrt.sqrt p <> 0) by (intros E; rewrite E in Hs; lra).
  assert (Ht : / R_sqrt.sqrt p * / R_sqrt.sqrt p = / p)
    by (rewrite <- Rinv_mult, Hs; reflexivity).
  unfold Rdiv. set (t := / R_sqrt.sqrt p) in *.
  transitivity (t * t * (re a * re a + im a * im a)); [ring|].
  rewrite Ht. ring.
Qed.

Lemma Cdiv_sqrt_one (a : Complex R) : Cdiv a (R_sqrt.sqrt 1) = a.
Proof.
  destruct a as [x y]. unfold Cdiv. cbn. rewrite sqrt_1.
  f_equal; field.
Qed.

Lemma Rltb_true (x y : R) : Rltb x y = true <-> x < y.
Proof. unfold Rltb. destruct (Rlt_dec x y); split; intros; (assumption || discriminate || reflexivity || contradiction). Qed.

Lemma Rltb_false (x y : R) : Rltb x y = false <-> y <= x.
Proof.
  unfold Rltb. destruct (Rlt_dec x y); split; intros;
    try discriminate; try reflexivity; lra.
Qed.

(** The masses of the two halves after each projection. *)
Lemma mass_after_keep0 (q : Z) (p : R) v v' :
  0 < p -> length v' = length v ->
  (forall i, (0 <= i < Z.of_nat (length v))%Z ->
     vget C0 v' i = if Z.testbit i q then C0
                    else Cdiv (vget C0 v i) (R_sqrt.sqrt p)) ->
  mass false q v' = mass false q v / p /\ mass true q v' = 0.
Proof.
  intros Hp Hlen Hg.
  rewrite !(mass_pointwise _ q
              (fun i a => if Z.testbit i q then C0
                          else Cdiv a (R_sqrt.sqrt p)) v v' Hlen Hg).
  split.
  - unfold mass. rewrite <- big_sum_div. apply big_sum_ext. intros k _.
    destruct (Z.testbit (Z.of_nat k) q); cbn [Bool.eqb].
    + unfold Rdiv. ring.
    + apply norm_Cdiv_sqrt. exact Hp.
  - transitivity (big_sum (fun _ => 0) (length v)); [|apply big_sum_zero].
    apply big_sum_ext. intros k _.
    destruct (Z.testbit (Z.of_nat k) q); cbn [Bool.eqb];
      [apply norm_C0_R|reflexivity].
Qed.

Lemma mass_after_keep1 (q : Z) (p : R) v v' :
  0 < p -> length v' = length v ->
  (forall i, (0 <= i < Z.of_nat (length v))%Z ->
     vget C0 v' i = if Z.testbit i q
                    then Cdiv (vget C0 v i) (R_sqrt.sqrt p) else C0) ->
  mass false q v' = 0 /\ mass true q v' = mass true q v / p.
Proof.
  intros Hp Hlen Hg.
  rewrite !(mass_pointwise _ q
              (fun i a => if Z.testbit i q
                          then Cdiv a (R_sqrt.sqrt p) else C0) v v' Hlen Hg).
  split.
  - transitivity (big_sum (fun _ => 0) (length v)); [|apply big_sum_zero].
    apply big_sum_ext. intros k _.
    destruct (Z.testbit (Z.of_nat k) q); cbn [Bool.eqb];
      [reflexivity|apply norm_C0_R].
  - unfold mass. rewrite <- big_sum_div. apply big_sum_ext. intros k _.
    destruct (Z.testbit (Z.of_nat k) q); cbn [Bool.eqb].
    + apply norm_Cdiv_sqrt. exact Hp.
    + unfold Rdiv. ring.
Qed.

(** Whatever the vector before it, the projection onto [|1>] leaves no mass
    on the indices with bit 0: this uses no property of the divisor. *)
Lemma mass0_after_keep1 (q : Z) (d : R) v v' :
  length v' = length v ->
  (forall i, (0 <= i < Z.of_nat (length v))%Z ->
     vget C0 v' i = if Z.testbit i q then Cdiv (vget C0 v i) d else C0) ->
  mass false q v' = 0.
Proof.
  intros Hlen Hg.
  rewrite (mass_pointwise false q
             (fun i a => if Z.testbit i q then Cdiv a d else C0) v v' Hlen Hg).
  transitivity (big_sum (fun _ => 0) (length v)); [|apply big_sum_zero].
    apply big_sum_ext. intros k _.
  destruct (Z.testbit (Z.of_nat k) q); cbn [Bool.eqb];
    [reflexivity|apply norm_C0_R].
Qed.
End RealMeasure.

(** ** The representation invariant is kept *)

Section Invariant.
Context {T : Type} `{Double T}.
Implicit Types (sim : QuantumSimulator.t T).

Lemma fold_pair_step_length (f0 f1 : Complex T -> Complex T -> Complex T)
    (stride : Z) (l : list Z) (sv : list (Complex T)) :
  length (fold_left (pair_step f0 f1 stride) l sv) = length sv.
Proof.
  revert sv. induction l as [|x l IH]; intros sv; [reflexivity|].
  cbn [fold_left]. rewrite IH. apply pair_step_length.
Qed.

Lemma pair_loop_well_formed (f0 f1 : Complex T -> Complex T -> Complex T)
    (q : Z) sim :
  well_formed sim -> 0 <= q < QuantumSimulator.num_qubits sim ->
  well_formed
    (QuantumSimulator.with_state sim
       (pair_loop f0 f1 (shl1 (QuantumSimulator.num_qubits sim)) (shl1 q)
          (QuantumSimulator.state_vector sim))).
Proof.
  intros [Hn Hlen] Hq. rewrite !shl1_pow2 by lia.
  destruct (pair_loop_spec f0 f1 _ Hq Hlen) as [Hl _].
  split; cbn [QuantumSimulator.with_state QuantumSimulator.num_qubits
              QuantumSimulator.state_vector]; [exact Hn|].
  rewrite Hl. exact Hlen.
Qed.

Lemma applyCNOT_well_formed (c t : Z) sim :
  well_formed sim -> 0 <= c <= 30 -> 0 <= t <= 30 ->
  well_formed (QuantumSimulator.applyCNOT c t sim).
Proof.
  intros Hwf Hc Ht. pose proof Hwf as [Hn Hlen]. split.
  - exact Hn.
  - rewrite applyCNOT_steps by assumption.
    rewrite fold_pair_step_length. exact Hlen.
Qed.

Lemma fold_left_invariant {S B : Type} (Inv : S -> Prop) (f : S -> B -> S)
    (l : list B) (s : S) :
  (forall a b, In b l -> Inv a -> Inv (f a b)) -> Inv s ->
  Inv (fold_left f l s).
Proof.
  revert s. induction l as [|b l IH]; intros s Hf Hs; [exact Hs|].
  cbn [fold_left]. apply IH.
  - intros a b' Hb'. apply Hf. right. exact Hb'.
  - apply Hf; [left; reflexivity|exact Hs].
Qed.

Context `{!DoubleLiterals T}.

(** After [measure] has returned 1 the first loop of the next [measure] of
    the same qubit adds zeros only, so [prob0] is [0.0] and that call
    returns 1 unless the draw is below [0.0].  This holds in every
    arithmetic with the literal equations, binary64 included. *)
Lemma measure_one_repeats (q : Z) sim :
  well_formed sim -> 0 <= q < QuantumSimulator.num_qubits sim ->
  fst (QuantumSimulator.measure q sim) = 1 ->
  let sim1 := snd (QuantumSimulator.measure q sim) in
  QuantumSimulator.measure_prob0 q sim1 = d_zero /\
  (d_ltb (fst (draw (QuantumSimulator.rng sim1))) d_zero = false ->
   fst (QuantumSimulator.measure q sim1) = 1).
Proof.
  intros Hwf Hq Hbit. pose proof Hwf as [Hn Hlen]. cbv zeta.
  pose proof (measure_well_formed Hwf Hq) as Hwf1.
  destruct (measure_pointwise Hwf Hq) as (_ & Hnq & Hl & Hthen & Helse).
  set (sim1 := snd (QuantumSimulator.measure q sim)) in *.
  assert (Hsv1 : forall i, 0 <= i < 2 ^ QuantumSimulator.num_qubits sim ->
             Z.testbit i q = false ->
             vget C0 (QuantumSimulator.state_vector sim1) i = C0).
  { destruct (d_ltb (fst (draw (QuantumSimulator.rng sim)))
                (QuantumSimulator.measure_prob0 q sim)) eqn:Hlt.
    - destruct (Hthen eq_refl) as [Hb0 _]. rewrite Hb0 in Hbit. discriminate.
    - destruct (Helse eq_refl) as [_ Hg]. intros i Hi Hb.
      rewrite Hg, Hb by exact Hi. reflexivity. }
  assert (Hp0 : QuantumSimulator.measure_prob0 q sim1 = d_zero).
  { unfold QuantumSimulator.measure_prob0. rewrite Hnq.
    rewrite !shl1_pow2 by lia. rewrite <- Hlen, for_loop_count.
    apply (fold_left_invariant (fun p => p = d_zero)); [|reflexivity].
    intros p k Hk ->. apply in_seq in Hk.
    rewrite land_pow2_eqb by lia.
    destruct (Z.testbit (Z.of_nat k) q) eqn:Hb; [reflexivity|].
    cbn [negb]. rewrite Hsv1 by (lia || exact Hb).
    rewrite norm_C0. apply add_zero_zero. }
  split; [exact Hp0|]. intros Hr.
  assert (Hq1 : 0 <= q < QuantumSimulator.num_qubits sim1) by (rewrite Hnq; exact Hq).
  destruct (measure_pointwise Hwf1 Hq1) as (_ & _ & _ & _ & Helse1).
  rewrite Hp0 in Helse1. destruct (Helse1 Hr) as [Hb1 _]. exact Hb1.
Qed.
End Invariant.

(** ** Normalization in exact real arithmetic *)

Section RealNormalization.
Local Open Scope R_scope.
Implicit Types (sim : QuantumSimulator.t R).








End RealNormalization.

(** ** Repeated and boundary measurements in exact real arithmetic *)

Section RealRepeat.
Local Open Scope R_scope.
Implicit Types (sim : QuantumSimulator.t R).

(** In exact real arithmetic a repeated measurement returns the same bit
    and rewrites every amplitude to itself. *)
Lemma measure_repeats_R (q : Z) sim :
  well_formed sim -> (0 <= q < QuantumSimulator.num_qubits sim)%Z ->
  let m1 := QuantumSimulator.measure q sim in
  let m2 := QuantumSimulator.measure q (snd m1) in
  0 <= fst (draw (QuantumSimulator.rng sim)) ->
  0 <= fst (draw (QuantumSimulator.rng (snd m1))) < 1 ->
  fst m2 = fst m1 /\
  QuantumSimulator.state_vector (snd m2) = QuantumSimulator.state_vector (snd m1).
Proof.
  intros Hwf Hq. cbv zeta. intros Hr Hr'. pose proof Hwf as [Hn Hlen].
  pose proof (measure_well_formed Hwf Hq) as Hwf1.
  destruct (measure_pointwise Hwf Hq) as (_ & Hnq & Hl & Hthen & Helse).
  set (sim1 := snd (QuantumSimulator.measure q sim)) in *.
  assert (Hq1 : (0 <= q < QuantumSimulator.num_qubits sim1)%Z)
    by (rewrite Hnq; exact Hq).
  destruct (measure_pointwise Hwf1 Hq1) as (_ & _ & Hl2 & Hthen2 & Helse2).
  rewrite (measure_prob0_mass Hwf1) in Hthen2, Helse2 by lia.
  rewrite Hnq, <- Hlen in Hthen2, Helse2. rewrite <- Hlen in Hthen, Helse.
  set (r' := fst (draw (QuantumSimulator.rng sim1))) in *.
  set (p := QuantumSimulator.measure_prob0 q sim) in *.
  cbn [d_ltb d_sqrt d_sub d_one Double_R] in *.
  destruct (Rltb (fst (draw (QuantumSimulator.rng sim))) p) eqn:Hlt.
  - (* the first call returned 0 *)
    apply Rltb_true in Hlt. assert (Hp : 0 < p) by lra.
    destruct (Hthen eq_refl) as [Hb Hg].
    destruct (@mass_after_keep0 q p _ _ Hp Hl Hg) as [E0 _].
    rewrite <- (measure_prob0_mass Hwf) in E0 by lia. fold p in E0.
    replace (p / p) with 1 in E0 by (field; lra).
    rewrite E0 in Hthen2.
    destruct Hthen2 as [Hb2 Hg2]; [apply Rltb_true; lra|].
    split; [rewrite Hb, Hb2; reflexivity|].
    apply (vget_ext C0); [exact Hl2|]. intros i Hi. rewrite Hl2, Hl in Hi.
    rewrite Hg2 by exact Hi. rewrite Cdiv_sqrt_one.
    destruct (Z.testbit i q) eqn:Hbit; [|reflexivity].
    rewrite Hg, Hbit by exact Hi. reflexivity.
  - (* the first call returned 1 *)
    destruct (Helse eq_refl) as [Hb Hg].
    rewrite (@mass0_after_keep1 q _ _ _ Hl Hg) in Helse2.
    destruct Helse2 as [Hb2 Hg2]; [apply Rltb_false; lra|].
    split; [rewrite Hb, Hb2; reflexivity|].
    apply (vget_ext C0); [exact Hl2|]. intros i Hi. rewrite Hl2, Hl in Hi.
    rewrite Hg2 by exact Hi. rewrite Rminus_0_r, Cdiv_sqrt_one.
    destruct (Z.testbit i q) eqn:Hbit; [reflexivity|].
    rewrite Hg, Hbit by exact Hi. reflexivity.
Qed.

End RealRepeat.

(** ** Repeated measurement *)

Lemma measure_rng {T : Type} `{Double T} (q : Z) (sim : QuantumSimulator.t T) :
  QuantumSimulator.rng (snd (QuantumSimulator.measure q sim))
    = snd (draw (QuantumSimulator.rng sim)).
Proof.
  rewrite measure_unfold. cbv zeta. destruct (d_ltb _ _); reflexivity.
Qed.

(** C9, as the code has it.  (1) In every arithmetic with the literal
    equations, binary64 included: after [measure] has returned 1, an
    immediately repeated [measure] of the same qubit returns 1 for every draw
    that is not below [0.0].  (2) In exact real arithmetic: for every
    register that satisfies the representation invariant, every qubit in
    range and all draws in [[0,1)], an immediately repeated [measure] returns
    the same bit as the first and leaves every amplitude unchanged. *)
Theorem repeated_measurement_same_bit :
  (forall (T : Type) (D : Double T), DoubleLiterals T ->
   forall (sim : QuantumSimulator.t T) (q : Z),
     well_formed sim -> 0 <= q < QuantumSimulator.num_qubits sim ->
     let m1 := QuantumSimulator.measure q sim in
     fst m1 = 1 ->
     d_ltb (fst (draw (QuantumSimulator.rng (snd m1)))) d_zero = false ->
     fst (QuantumSimulator.measure q (snd m1)) = 1) /\
  (forall (sim : QuantumSimulator.t R) (q : Z),
     well_formed sim -> 0 <= q < QuantumSimulator.num_qubits sim ->
     let m1 := QuantumSimulator.measure q sim in
     let m2 := QuantumSimulator.measure q (snd m1) in
     (0 <= fst (draw (QuantumSimulator.rng sim)) < 1)%R ->
     (0 <= fst (draw (QuantumSimulator.rng (snd m1))) < 1)%R ->
     fst m2 = fst m1 /\
     QuantumSimulator.state_vector (snd m2)
       = QuantumSimulator.state_vector (snd m1)).
Proof.
  split.
  - intros T D L sim q Hwf Hq m1 Hbit Hr.
    destruct (measure_one_repeats Hwf Hq Hbit) as [_ Hrep].
    apply Hrep. exact Hr.
  - intros sim q Hwf Hq m1 m2 Hr Hr'.
    apply measure_repeats_R; try assumption. apply Hr.
Qed.

(** ** The claims at concrete inputs *)

Lemma well_formed_plus_plus : well_formed plus_plus.
Proof. split; [simpl; lia|reflexivity]. Qed.

Lemma well_formed_one_state : well_formed one_state.
Proof. split; [simpl; lia|reflexivity]. Qed.

Lemma well_formed_real_qubit : well_formed real_qubit.
Proof. apply new_well_formed. lia. Qed.


Lemma measure_collapses_witness :
  well_formed plus_plus /\
  0 <= 0 < QuantumSimulator.num_qubits plus_plus /\
  QuantumSimulator.measure_prob0 0 plus_plus
    = probability_of_bit0 0 (QuantumSimulator.state_vector plus_plus) /\
  length (QuantumSimulator.state_vector (snd (QuantumSimulator.measure 0 plus_plus)))
    = length (QuantumSimulator.state_vector plus_plus).
Proof.
  assert (Hq : 0 <= 0 < QuantumSimulator.num_qubits plus_plus) by (simpl; lia).
  destruct (measure_collapses well_formed_plus_plus Hq) as (H1 & _ & H3 & _).
  split; [exact well_formed_plus_plus|].
  split; [exact Hq|]. split; [exact H1|exact H3].
Defined.



Lemma repeated_measurement_same_bit_witness :
  fst (QuantumSimulator.measure 0 one_state) = 1 /\
  fst (QuantumSimulator.measure 0 (snd (QuantumSimulator.measure 0 one_state))) = 1 /\
  QuantumSimulator.state_vector
    (snd (QuantumSimulator.measure 0 (snd (QuantumSimulator.measure 0 real_qubit))))
    = QuantumSimulator.state_vector (snd (QuantumSimulator.measure 0 real_qubit)).
Proof.
  destruct repeated_measurement_same_bit as [Hany Hreal].
  assert (Hq : 0 <= 0 < QuantumSimulator.num_qubits one_state) by (simpl; lia).
  assert (Hq' : 0 <= 0 < QuantumSimulator.num_qubits real_qubit) by (simpl; lia).
  split; [reflexivity|]. split.
  - apply (Hany float _ _ one_state 0 well_formed_one_state Hq);
      vm_compute; reflexivity.
  - apply (Hreal real_qubit 0 well_formed_real_qubit Hq').
    + simpl. lra.
    + rewrite measure_rng. simpl. lra.
Defined.

Lemma well_formed_c_one_qubit : well_formed_state c_one_qubit.
Proof. split; [simpl; lia|split; reflexivity]. Qed.

Lemma implemented_gates_transform_witness :
  well_formed_state c_one_qubit /\
  0 <= 0 < CSim.num_qubits c_one_qubit /\
  well_formed_state
    (fst (CSim.apply_gate c_one_qubit (CSim.mkGate CSim.GATE_H 0 (-1) 0%float))) /\
  snd (CSim.apply_gate c_one_qubit (CSim.mkGate CSim.GATE_SWAP 0 (-1) 0%float))
    = [CSim.GateNotImplemented 5] /\
  vget C0 (QuantumSimulator.state_vector
             (QuantumSimulator.applyCNOT 0 1 plus_plus)) 1
    = vget C0 (QuantumSimulator.state_vector plus_plus) 3.
Proof.
  assert (Hq : 0 <= 0 < CSim.num_qubits c_one_qubit) by (simpl; lia).
  destruct (@implemented_gates_transform float _) as [HC HCpp].
  pose proof (HC c_one_qubit (CSim.mkGate CSim.GATE_H 0 (-1) 0%float)
                well_formed_c_one_qubit Hq) as HH.
  pose proof (HC c_one_qubit (CSim.mkGate CSim.GATE_SWAP 0 (-1) 0%float)
                well_formed_c_one_qubit Hq) as HS.
  cbv zeta in HH, HS. cbn [CSim.type] in HS.
  destruct HH as (Hwf' & _). destruct HS as (_ & Hlog & _).
  split; [exact well_formed_c_one_qubit|].
  split; [exact Hq|]. split; [exact Hwf'|]. split; [exact Hlog|].
  destruct (HCpp {| d_cos := fun x => x; d_sin := fun x => x |}
              plus_plus well_formed_plus_plus) as [_ Hcnot].
  apply (Hcnot 0 1 1); simpl; lia.
Defined.

Lemma construction_capacity_witness :
  CSim.create_state (T:=float) heap_ok (CSim.MAX_QUBITS + 1)
    = CSim.mkCreated None [] [CSim.TooManyQubits 32] /\
  CSim.create_state (T:=float) heap_ok 0
    = CSim.mkCreated (Some (CSim.mkState 0 1 [C0]))
        [CSim.MallocState; CSim.CallocAmplitudes 1] [] /\
  QuantumSimulator.call_new true 0 no_draws
    = Returned (QuantumSimulator.new 0 no_draws).
Proof.
  destruct (@construction_capacity float _) as (Hhigh & Hlow & Hnew & _).
  split; [|split].
  - apply Hhigh. unfold CSim.MAX_QUBITS. lia.
  - apply (Hlow heap_ok 0); [lia|reflexivity|reflexivity].
  - apply (Hnew 0 no_draws). lia.
Defined.

(** *** Where the code departs from the claims *)

(** C4 at a concrete input: [applyCNOT(0, 0)] on a fresh 2-qubit simulator
    returns normally; it does not raise [InvalidQubitIndex]. *)
Lemma cnot_same_qubit_raises_no_error :
  QuantumSimulator.call_applyCNOT 0 0 (QuantumSimulator.new 2 no_draws)
    = Returned (QuantumSimulator.new 2 no_draws) /\
  QuantumSimulator.call_applyCNOT 0 0 (QuantumSimulator.new 2 no_draws)
    <> Raised InvalidQubitIndex.
Proof. split; [reflexivity|discriminate]. Qed.

(** C5 at a concrete input: a qubit count of 0 is accepted.  [create_state(0)]
    returns a state and has allocated one amplitude, and the C++ constructor,
    its allocation succeeding, returns a simulator whose state vector is
    [[1]]; neither raises [CapacityError]. *)
Lemma zero_qubits_is_constructed :
  CSim.returned (CSim.create_state (T:=float) heap_ok 0)
    = Some (CSim.mkState 0 1 [C0]) /\
  CSim.heap (CSim.create_state (T:=float) heap_ok 0)
    = [CSim.MallocState; CSim.CallocAmplitudes 1] /\
  CSim.errors (CSim.create_state (T:=float) heap_ok 0) = [] /\
  QuantumSimulator.call_new true 0 no_draws
    = Returned (QuantumSimulator.mk 0 [C1] no_draws) /\
  QuantumSimulator.call_new true 0 no_draws <> Raised CapacityError.
Proof. repeat split; try reflexivity. discriminate. Qed.

Lemma float_one_not_minus_one : 1%float <> (-1)%float.
Proof.
  intros E. apply (f_equal (fun x => PrimFloat.ltb x 0%float)) in E.
  vm_compute in E. discriminate.
Qed.

(** C6 at a concrete input: [apply_gate] with [GATE_Z] on the C state [|1>]
    leaves the amplitude at index 1 (target bit 1) at [1.0 + 0.0i]; it is not
    multiplied by [-1]. *)
Lemma pauli_z_is_not_applied :
  CSim.amplitudes c_one_qubit = [C0; C1] /\
  CSim.apply_gate c_one_qubit (CSim.mkGate CSim.GATE_Z 0 (-1) 0%float)
    = (c_one_qubit, [CSim.GateNotImplemented 3]) /\
  re (vget C0
        (CSim.amplitudes
           (fst (CSim.apply_gate c_one_qubit
                   (CSim.mkGate CSim.GATE_Z 0 (-1) 0%float)))) 1)
    <> PrimFloat.mul (-1)%float (re (vget C0 (CSim.amplitudes c_one_qubit) 1)).
Proof.
  split; [reflexivity|]. split; [reflexivity|].
  vm_compute. exact float_one_not_minus_one.
Qed.




(** C9 at a concrete input.  On the register left by [applyH(0)] and
    [applyH(1)], [measure(0)] with the draw [0.25] returns 0; the immediately
    repeated [measure(0)] with the draw [1 - 2^-53] returns 1 and leaves
    every amplitude at zero. *)
Lemma repeated_measurement_flips :
  well_formed plus_plus /\
  fst (draw (QuantumSimulator.rng plus_plus)) = 0.25%float /\
  fst (draw (QuantumSimulator.rng measured_once)) = below_one /\
  PrimFloat.leb 0%float below_one = true /\
  PrimFloat.ltb below_one 1%float = true /\
  fst (QuantumSimulator.measure 0 plus_plus) = 0 /\
  fst (QuantumSimulator.measure 0 measured_once) = 1 /\
  QuantumSimulator.state_vector measured_once
    = [mkComplex 0x1.6a09e667f3bccp-1%float 0%float; C0;
       mkComplex 0x1.6a09e667f3bccp-1%float 0%float; C0] /\
  QuantumSimulator.state_vector measured_twice = [C0; C0; C0; C0].
Proof.
  split; [exact well_formed_plus_plus|].
  repeat split; vm_compute; reflexivity.
Qed.


(* ===================================================================== *)
(** * Further properties of the two programs *)
(* ===================================================================== *)

(** ** How the gates compose *)

Section GateAlgebra.
Context {T : Type} `{Double T}.
Implicit Types (sim : QuantumSimulator.t T) (sv : list (Complex T)).

Lemma lxor_pow2_involutive (i q : Z) : Z.lxor (Z.lxor i (2 ^ q)) (2 ^ q) = i.
Proof. rewrite Z.lxor_assoc, Z.lxor_nilpotent, Z.lxor_0_r. reflexivity. Qed.

(** Flipping bit [q] of an index below [2^n] gives an index below [2^n]. *)
Lemma lxor_pow2_range (n q i : Z) :
  0 <= q < n -> 0 <= i < 2 ^ n -> 0 <= Z.lxor i (2 ^ q) < 2 ^ n.
Proof.
  intros Hq Hi. pose proof (@pow2_pos q ltac:(lia)) as Hp.
  split; [apply Z.lxor_nonneg; lia|].
  destruct (Z.testbit i q) eqn:Hb.
  - set (x := Z.lxor i (2 ^ q)).
    assert (Hxq : Z.testbit x q = false)
      by (unfold x; rewrite testbit_lxor_pow2, Z.eqb_refl, Hb by lia;
          reflexivity).
    assert (Hxi : x + 2 ^ q = i).
    { rewrite <- lxor_pow2_clear by (lia || exact Hxq).
      apply lxor_pow2_involutive. }
    lia.
  - rewrite lxor_pow2_clear by (lia || exact Hb).
    apply (clear_bit_add_lt (T:=T)); assumption.
Qed.

(** The loop nest of a single-qubit gate at every index: the partner of
    [i] is [i] with bit [q] flipped. *)
Lemma pair_loop_full (f0 f1 : Complex T -> Complex T -> Complex T)
    (n q : Z) sv :
  0 <= q < n -> Z.of_nat (length sv) = 2 ^ n ->
  let res := pair_loop f0 f1 (2 ^ n) (2 ^ q) sv in
  length res = length sv /\
  forall i, 0 <= i < 2 ^ n ->
    vget C0 res i =
      if Z.testbit i q
      then f1 (vget C0 sv (Z.lxor i (2 ^ q))) (vget C0 sv i)
      else f0 (vget C0 sv i) (vget C0 sv (Z.lxor i (2 ^ q))).
Proof.
  intros Hq Hlen. cbv zeta.
  destruct (pair_loop_spec f0 f1 sv Hq Hlen) as [Hl Hp].
  split; [exact Hl|]. intros i Hi.
  destruct (Z.testbit i q) eqn:Hb.
  - set (x := Z.lxor i (2 ^ q)).
    assert (Hxq : Z.testbit x q = false)
      by (unfold x; rewrite testbit_lxor_pow2, Z.eqb_refl, Hb by lia;
          reflexivity).
    assert (Hxi : x + 2 ^ q = i).
    { rewrite <- lxor_pow2_clear by (lia || exact Hxq).
      apply lxor_pow2_involutive. }
    assert (Hx : 0 <= x < 2 ^ n) by (apply lxor_pow2_range; assumption).
    destruct (Hp x Hx Hxq) as (_ & _ & E). rewrite Hxi in E. exact E.
  - rewrite lxor_pow2_clear by (lia || exact Hb).
    destruct (Hp i Hi Hb) as (_ & E & _). exact E.
Qed.

(** Two runs of the loop nest on one qubit are one run with the composed
    pair function. *)
Lemma pair_loop_compose (f0 f1 g0 g1 : Complex T -> Complex T -> Complex T)
    (n q : Z) sv :
  0 <= q < n -> Z.of_nat (length sv) = 2 ^ n ->
  pair_loop g0 g1 (2 ^ n) (2 ^ q) (pair_loop f0 f1 (2 ^ n) (2 ^ q) sv)
    = pair_loop (fun a b => g0 (f0 a b) (f1 a b))
                (fun a b => g1 (f0 a b) (f1 a b)) (2 ^ n) (2 ^ q) sv.
Proof.
  intros Hq Hlen.
  destruct (pair_loop_full f0 f1 sv Hq Hlen) as [Hl1 Hg1].
  assert (Hlen1 : Z.of_nat (length (pair_loop f0 f1 (2 ^ n) (2 ^ q) sv)) = 2 ^ n)
    by (rewrite Hl1; exact Hlen).
  destruct (pair_loop_full g0 g1 _ Hq Hlen1) as [Hl2 Hg2].
  destruct (pair_loop_full (fun a b => g0 (f0 a b) (f1 a b))
              (fun a b => g1 (f0 a b) (f1 a b)) sv Hq Hlen) as [Hl3 Hg3].
  apply (vget_ext C0); [rewrite Hl2, Hl1, Hl3; reflexivity|].
  intros i Hi. rewrite Hl2, Hl1, Hlen in Hi.
  pose proof (lxor_pow2_range Hq Hi) as Hx.
  rewrite Hg2, Hg3 by exact Hi. rewrite !Hg1 by assumption.
  rewrite testbit_lxor_pow2, Z.eqb_refl, lxor_pow2_involutive by lia.
  destruct (Z.testbit i q); reflexivity.
Qed.

Lemma pair_loop_identity (h0 h1 : Complex T -> Complex T -> Complex T)
    (n q : Z) sv :
  (forall a b, h0 a b = a) -> (forall a b, h1 a b = b) ->
  0 <= q < n -> Z.of_nat (length sv) = 2 ^ n ->
  pair_loop h0 h1 (2 ^ n) (2 ^ q) sv = sv.
Proof.
  intros E0 E1 Hq Hlen.
  destruct (pair_loop_full h0 h1 sv Hq Hlen) as [Hl Hg].
  apply (vget_ext C0); [exact Hl|].
  intros i Hi. rewrite Hl, Hlen in Hi. rewrite Hg by exact Hi.
  destruct (Z.testbit i q); [apply E1|apply E0].
Qed.

Lemma pair_loop_pointwise_ext (f0 f1 g0 g1 : Complex T -> Complex T -> Complex T)
    (n q : Z) sv :
  (forall a b, f0 a b = g0 a b) -> (forall a b, f1 a b = g1 a b) ->
  0 <= q < n -> Z.of_nat (length sv) = 2 ^ n ->
  pair_loop f0 f1 (2 ^ n) (2 ^ q) sv = pair_loop g0 g1 (2 ^ n) (2 ^ q) sv.
Proof.
  intros E0 E1 Hq Hlen.
  destruct (pair_loop_full f0 f1 sv Hq Hlen) as [Hl Hg].
  destruct (pair_loop_full g0 g1 sv Hq Hlen) as [Hl' Hg'].
  apply (vget_ext C0); [rewrite Hl, Hl'; reflexivity|].
  intros i Hi. rewrite Hl, Hlen in Hi. rewrite Hg, Hg' by exact Hi.
  destruct (Z.testbit i q); [apply E1|apply E0].
Qed.

Lemma with_state_same sim :
  QuantumSimulator.with_state sim (QuantumSimulator.state_vector sim) = sim.
Proof. destruct sim; reflexivity. Qed.

(** [applyX] moves to every index the amplitude of the index with the target
    bit flipped. *)
Lemma applyX_full (q : Z) sim :
  well_formed sim -> 0 <= q < QuantumSimulator.num_qubits sim ->
  forall i, 0 <= i < 2 ^ QuantumSimulator.num_qubits sim ->
    vget C0 (QuantumSimulator.state_vector (QuantumSimulator.applyX q sim)) i
      = vget C0 (QuantumSimulator.state_vector sim) (Z.lxor i (2 ^ q)).
Proof.
  intros [Hn Hlen] Hq i Hi. rewrite applyX_pair_loop.
  cbn [QuantumSimulator.with_state QuantumSimulator.state_vector].
  rewrite !shl1_pow2 by lia.
  destruct (pair_loop_full (fun a b => b) (fun a b => a) _ Hq Hlen) as [_ Hg].
  rewrite Hg by exact Hi. destruct (Z.testbit i q); reflexivity.
Qed.

Lemma applyX_well_formed (q : Z) sim :
  well_formed sim -> 0 <= q < QuantumSimulator.num_qubits sim ->
  well_formed (QuantumSimulator.applyX q sim).
Proof. intros. rewrite applyX_pair_loop. apply pair_loop_well_formed; assumption. Qed.

(** X1.  In every arithmetic, binary64 included, the Pauli-X gate is its own
    inverse on a register that satisfies the representation invariant and a
    target in range: two calls of [applyX] on one qubit give back the
    simulator, and two calls of the C [apply_pauli_x] give back the state. *)
Theorem pauli_x_twice_is_identity (q : Z) sim (st : CSim.QuantumState T) :
  well_formed sim -> 0 <= q < QuantumSimulator.num_qubits sim ->
  well_formed_state st -> 0 <= q < CSim.num_qubits st ->
  QuantumSimulator.applyX q (QuantumSimulator.applyX q sim) = sim /\
  CSim.apply_pauli_x (CSim.apply_pauli_x st q) q = st.
Proof.
  intros [Hn Hlen] Hq (Hn' & Hdim & Hlen') Hq'. split.
  - rewrite !applyX_pair_loop.
    cbn [QuantumSimulator.with_state QuantumSimulator.state_vector
         QuantumSimulator.num_qubits].
    rewrite !shl1_pow2 by lia. unfold QuantumSimulator.with_state.
    cbn [QuantumSimulator.num_qubits QuantumSimulator.rng].
    rewrite pair_loop_compose, pair_loop_identity by (assumption || reflexivity).
    destruct sim; reflexivity.
  - rewrite !apply_pauli_x_pair_loop.
    cbn [CSim.num_qubits CSim.dimension CSim.amplitudes].
    rewrite Hdim, !shl1_pow2 by lia.
    rewrite pair_loop_compose, pair_loop_identity by (assumption || reflexivity).
    destruct st; cbn in *. congruence.
Qed.

(** X2.  In every arithmetic, binary64 included, [applyX] on two qubits in
    range gives the same simulator in either order, and the amplitude at
    every index comes from the index with both bits flipped. *)
Theorem pauli_x_gates_commute (q1 q2 : Z) sim :
  well_formed sim ->
  0 <= q1 < QuantumSimulator.num_qubits sim ->
  0 <= q2 < QuantumSimulator.num_qubits sim ->
  QuantumSimulator.applyX q1 (QuantumSimulator.applyX q2 sim)
    = QuantumSimulator.applyX q2 (QuantumSimulator.applyX q1 sim) /\
  forall i, 0 <= i < 2 ^ QuantumSimulator.num_qubits sim ->
    vget C0 (QuantumSimulator.state_vector
               (QuantumSimulator.applyX q1 (QuantumSimulator.applyX q2 sim))) i
      = vget C0 (QuantumSimulator.state_vector sim)
          (Z.lxor (Z.lxor i (2 ^ q1)) (2 ^ q2)).
Proof.
  intros Hwf Hq1 Hq2. pose proof Hwf as [Hn Hlen].
  pose proof (applyX_well_formed Hwf Hq1) as Hwf1.
  pose proof (applyX_well_formed Hwf Hq2) as Hwf2.
  assert (Hpt : forall a b, 0 <= a < QuantumSimulator.num_qubits sim ->
            0 <= b < QuantumSimulator.num_qubits sim ->
            forall i, 0 <= i < 2 ^ QuantumSimulator.num_qubits sim ->
            vget C0 (QuantumSimulator.state_vector
                       (QuantumSimulator.applyX a (QuantumSimulator.applyX b sim))) i
            = vget C0 (QuantumSimulator.state_vector sim)
                (Z.lxor (Z.lxor i (2 ^ a)) (2 ^ b))).
  { intros a b Ha Hb i Hi.
    rewrite applyX_full; [|apply applyX_well_formed; assumption|exact Ha|exact Hi].
    apply applyX_full; [exact Hwf|exact Hb|].
    apply lxor_pow2_range; assumption. }
  split; [|apply Hpt; assumption].
  assert (Hsv : QuantumSimulator.state_vector
                  (QuantumSimulator.applyX q1 (QuantumSimulator.applyX q2 sim))
                = QuantumSimulator.state_vector
                    (QuantumSimulator.applyX q2 (QuantumSimulator.applyX q1 sim))).
  { pose proof (applyX_well_formed Hwf2 Hq1) as [_ Hl12].
    pose proof (applyX_well_formed Hwf1 Hq2) as [_ Hl21].
    cbn [QuantumSimulator.applyX QuantumSimulator.with_state
         QuantumSimulator.num_qubits] in Hl12, Hl21.
    apply (vget_ext C0); [lia|].
    intros i Hi. rewrite !Hpt by (assumption || lia).
    rewrite !Z.lxor_assoc, (Z.lxor_comm (2 ^ q1)). reflexivity. }
  unfold QuantumSimulator.applyX in *.
  cbn [QuantumSimulator.with_state QuantumSimulator.state_vector
       QuantumSimulator.num_qubits QuantumSimulator.rng] in *.
  rewrite Hsv. reflexivity.
Qed.

(** X3.  In every arithmetic, binary64 included, [applyCNOT] with distinct
    control and target in range is its own inverse. *)
Theorem cnot_twice_is_identity (c t : Z) sim :
  well_formed sim ->
  0 <= c < QuantumSimulator.num_qubits sim ->
  0 <= t < QuantumSimulator.num_qubits sim ->
  c <> t ->
  QuantumSimulator.applyCNOT c t (QuantumSimulator.applyCNOT c t sim) = sim.
Proof.
  intros Hwf Hc Ht Hct. pose proof Hwf as [Hn Hlen].
  assert (Hwf1 : well_formed (QuantumSimulator.applyCNOT c t sim))
    by (apply applyCNOT_well_formed; (assumption || lia)).
  destruct (applyCNOT_spec Hwf Hc Ht Hct) as [Hl1 Hg1].
  destruct (applyCNOT_spec Hwf1 Hc Ht Hct) as [Hl2 Hg2].
  cbn [QuantumSimulator.applyCNOT QuantumSimulator.with_state
       QuantumSimulator.num_qubits] in Hg2.
  assert (Hsv : QuantumSimulator.state_vector
                  (QuantumSimulator.applyCNOT c t
                     (QuantumSimulator.applyCNOT c t sim))
                = QuantumSimulator.state_vector sim).
  { apply (vget_ext C0); [rewrite Hl2, Hl1; reflexivity|].
    intros i Hi. rewrite Hl2, Hl1, Hlen in Hi.
    rewrite Hg2 by exact Hi.
    destruct (Z.testbit i c) eqn:Hb.
    - rewrite Hg1 by (apply lxor_pow2_range; assumption).
      rewrite testbit_lxor_pow2 by lia.
      destruct (Z.eqb_spec c t); [contradiction|].
      rewrite Hb, lxor_pow2_involutive. reflexivity.
    - rewrite Hg1 by exact Hi. rewrite Hb. reflexivity. }
  unfold QuantumSimulator.applyCNOT in *.
  cbn [QuantumSimulator.with_state QuantumSimulator.state_vector
       QuantumSimulator.num_qubits QuantumSimulator.rng] in *.
  rewrite Hsv. destruct sim; reflexivity.
Qed.
End GateAlgebra.

(** ** Gate algebra and measurement in exact real arithmetic *)

Section RealGateAlgebra.
Local Open Scope R_scope.
Implicit Types (sim : QuantumSimulator.t R) (a b : Complex R).

Lemma hadamard_hadamard a b :
  hadamard0 (hadamard0 a b) (hadamard1 a b) = a /\
  hadamard1 (hadamard0 a b) (hadamard1 a b) = b.
Proof.
  assert (Hs : R_sqrt.sqrt 2 * R_sqrt.sqrt 2 = 2) by (apply sqrt_sqrt; lra).
  assert (Ht : / R_sqrt.sqrt 2 * / R_sqrt.sqrt 2 = / 2)
    by (rewrite <- Rinv_mult, Hs; reflexivity).
  destruct a as [ar ai], b as [br bi].
  unfold hadamard0, hadamard1, Cdiv, Cadd, Csub. cbn. unfold Rdiv.
  set (t := / R_sqrt.sqrt 2) in *.
  split; f_equal.
  - transitivity (t * t * (2 * ar)); [ring|rewrite Ht; field].
  - transitivity (t * t * (2 * ai)); [ring|rewrite Ht; field].
  - transitivity (t * t * (2 * br)); [ring|rewrite Ht; field].
  - transitivity (t * t * (2 * bi)); [ring|rewrite Ht; field].
Qed.

(** X4.  In exact real arithmetic the Hadamard gate is its own inverse on a
    register that satisfies the representation invariant and a target in
    range: two calls of [applyH] on one qubit give back the simulator, and
    two calls of the C [apply_hadamard] give back the state. *)
Theorem hadamard_twice_is_identity (q : Z) sim (st : CSim.QuantumState R) :
  well_formed sim -> (0 <= q < QuantumSimulator.num_qubits sim)%Z ->
  well_formed_state st -> (0 <= q < CSim.num_qubits st)%Z ->
  QuantumSimulator.applyH q (QuantumSimulator.applyH q sim) = sim /\
  CSim.apply_hadamard (CSim.apply_hadamard st q) q = st.
Proof.
  intros [Hn Hlen] Hq (Hn' & Hdim & Hlen') Hq'. split.
  - rewrite !applyH_pair_loop.
    cbn [QuantumSimulator.with_state QuantumSimulator.state_vector
         QuantumSimulator.num_qubits].
    rewrite !shl1_pow2 by lia. unfold QuantumSimulator.with_state.
    cbn [QuantumSimulator.num_qubits QuantumSimulator.rng].
    rewrite pair_loop_compose by assumption.
    rewrite pair_loop_identity;
      [destruct sim; reflexivity
      |intros a b; apply hadamard_hadamard
      |intros a b; apply hadamard_hadamard|assumption|assumption].
  - rewrite !apply_hadamard_pair_loop.
    cbn [CSim.num_qubits CSim.dimension CSim.amplitudes].
    rewrite Hdim, !shl1_pow2 by lia.
    rewrite pair_loop_compose by assumption.
    rewrite pair_loop_identity;
      [destruct st; cbn in *; congruence
      |intros a b; apply hadamard_hadamard
      |intros a b; apply hadamard_hadamard|assumption|assumption].
Qed.

Lemma rotate_rotate (x y : R) a b :
  rotate0 (cos y) (sin y) (rotate0 (cos x) (sin x) a b)
                          (rotate1 (cos x) (sin x) a b)
    = rotate0 (cos (x + y)) (sin (x + y)) a b /\
  rotate1 (cos y) (sin y) (rotate0 (cos x) (sin x) a b)
                          (rotate1 (cos x) (sin x) a b)
    = rotate1 (cos (x + y)) (sin (x + y)) a b.
Proof.
  rewrite cos_plus, sin_plus. destruct a as [ar ai], b as [br bi].
  unfold rotate0, rotate1, Cscale, Cadd, Csub. cbn.
  split; f_equal; ring.
Qed.

Lemma rotate_zero a b :
  rotate0 (cos 0) (sin 0) a b = a /\ rotate1 (cos 0) (sin 0) a b = b.
Proof.
  rewrite cos_0, sin_0. destruct a as [ar ai], b as [br bi].
  unfold rotate0, rotate1, Cscale, Cadd, Csub. cbn.
  split; f_equal; ring.
Qed.

Lemma applyRY_R (q : Z) (theta : R) sim :
  well_formed sim ->
  QuantumSimulator.applyRY q theta sim =
    QuantumSimulator.with_state sim
      (pair_loop (rotate0 (cos (theta / 2)) (sin (theta / 2)))
                 (rotate1 (cos (theta / 2)) (sin (theta / 2)))
         (2 ^ QuantumSimulator.num_qubits sim) (shl1 q)
         (QuantumSimulator.state_vector sim)).
Proof.
  intros [Hn _]. rewrite applyRY_pair_loop.
  rewrite (shl1_pow2 Hn). reflexivity.
Qed.

(** X5.  In exact real arithmetic the Y rotations of one qubit compose by
    adding their angles: [applyRY(q, t1)] then [applyRY(q, t2)] is
    [applyRY(q, t1 + t2)]; [applyRY(q, 0)] changes nothing, and
    [applyRY(q, -t)] undoes [applyRY(q, t)]. *)
Theorem rotations_compose (q : Z) (t1 t2 : R) sim :
  well_formed sim -> (0 <= q < QuantumSimulator.num_qubits sim)%Z ->
  QuantumSimulator.applyRY q t2 (QuantumSimulator.applyRY q t1 sim)
    = QuantumSimulator.applyRY q (t1 + t2) sim /\
  QuantumSimulator.applyRY q 0 sim = sim /\
  QuantumSimulator.applyRY q (- t1) (QuantumSimulator.applyRY q t1 sim) = sim.
Proof.
  intros Hwf Hq. pose proof Hwf as [Hn Hlen].
  assert (Hcomp : forall x y,
            QuantumSimulator.applyRY q y (QuantumSimulator.applyRY q x sim)
            = QuantumSimulator.applyRY q (x + y) sim).
  { intros x y.
    assert (Hwf1 : well_formed (QuantumSimulator.applyRY q x sim))
      by (rewrite applyRY_pair_loop; apply pair_loop_well_formed; assumption).
    rewrite (applyRY_R q y Hwf1), !(applyRY_R q _ Hwf).
    cbn [QuantumSimulator.with_state QuantumSimulator.state_vector
         QuantumSimulator.num_qubits].
    rewrite !shl1_pow2 by lia. unfold QuantumSimulator.with_state.
    cbn [QuantumSimulator.num_qubits QuantumSimulator.rng].
    rewrite pair_loop_compose by assumption.
    f_equal. apply pair_loop_pointwise_ext; try assumption.
    - intros a b. replace ((x + y) / 2) with (x / 2 + y / 2) by field.
      apply rotate_rotate.
    - intros a b. replace ((x + y) / 2) with (x / 2 + y / 2) by field.
      apply rotate_rotate. }
  assert (Hzero : QuantumSimulator.applyRY q 0 sim = sim).
  { rewrite (applyRY_R q 0 Hwf). rewrite shl1_pow2 by lia.
    replace (0 / 2) with 0 by field.
    rewrite pair_loop_identity;
      [apply with_state_same
      |intros a b; apply rotate_zero|intros a b; apply rotate_zero
      |assumption|assumption]. }
  split; [apply Hcomp|]. split; [exact Hzero|].
  rewrite Hcomp. replace (t1 + - t1) with 0 by ring. exact Hzero.
Qed.

Lemma sumsq_nonneg (v : list (Complex R)) : 0 <= sumsq v.
Proof.
  unfold sumsq, Rsum. induction v as [|a v IH]; cbn [map fold_right]; [lra|].
  pose proof (norm_nonneg a). lra.
Qed.

(** X6.  In exact real arithmetic, on a register that satisfies the
    representation invariant, [getProbabilities()] has [2^num_qubits]
    entries, the entry at every index is the squared magnitude of the
    amplitude, it is not negative and not above the sum of all entries; so
    on a normalized register every entry is between 0 and 1. *)
Theorem probabilities_are_bounded sim :
  well_formed sim ->
  let probs := QuantumSimulator.getProbabilities sim in
  Z.of_nat (length probs) = (2 ^ QuantumSimulator.num_qubits sim)%Z /\
  forall i, (0 <= i < 2 ^ QuantumSimulator.num_qubits sim)%Z ->
    vget 0 probs i = norm (vget C0 (QuantumSimulator.state_vector sim) i) /\
    0 <= vget 0 probs i <= total_probability sim.
Proof.
  intros Hwf. pose proof Hwf as [Hn Hlen]. cbv zeta.
  rewrite total_probability_sumsq by exact Hwf.
  rewrite getProbabilities_map by exact Hwf.
  split; [rewrite length_map; exact Hlen|].
  intros i Hi. rewrite (vget_map norm C0 0) by lia.
  split; [reflexivity|].
  set (v := QuantumSimulator.state_vector sim) in *.
  pose proof (norm_nonneg (vget C0 v i)).
  assert (Hset := @sumsq_vset v i C0 ltac:(lia)).
  pose proof (sumsq_nonneg (vset v i C0)).
  rewrite norm_C0_R in Hset. lra.
Qed.

(** X7.  In exact real arithmetic, for a register that satisfies the
    representation invariant but need not be normalized, a qubit in range and
    a draw [r >= 0]: when [measure] returns 0 the probabilities afterwards sum
    to exactly 1; when it returns 1 and [prob0 < 1] they sum to
    [(total - prob0) / (1 - prob0)], which is 1 exactly when the register was
    normalized.  The second branch divides by [sqrt(1 - prob0)], not by the
    square root of the mass it keeps. *)
Theorem measure_renormalizes (q : Z) sim :
  well_formed sim -> (0 <= q < QuantumSimulator.num_qubits sim)%Z ->
  let prob0 := probability_of_bit0 q (QuantumSimulator.state_vector sim) in
  let m := QuantumSimulator.measure q sim in
  0 <= fst (draw (QuantumSimulator.rng sim)) ->
  (fst m = 0%Z -> total_probability (snd m) = 1) /\
  (fst m = 1%Z -> prob0 < 1 ->
     total_probability (snd m) = (total_probability sim - prob0) / (1 - prob0)).
Proof.
  intros Hwf Hq. cbv zeta. intros Hr. pose proof Hwf as [Hn Hlen].
  pose proof (measure_well_formed Hwf Hq) as Hwf1.
  rewrite <- (measure_prob0_spec Hwf) by lia.
  rewrite !total_probability_sumsq by assumption.
  destruct (measure_pointwise Hwf Hq) as (_ & _ & Hl & Hthen & Helse).
  rewrite <- Hlen in Hthen, Helse.
  pose proof (mass_split q (QuantumSimulator.state_vector sim)) as Hsplit.
  rewrite <- (measure_prob0_mass Hwf) in Hsplit by lia.
  set (p := QuantumSimulator.measure_prob0 q sim) in *.
  rewrite <- (mass_split q (QuantumSimulator.state_vector (snd _))).
  cbn [d_ltb d_sqrt d_sub d_one Double_R] in Hthen, Helse.
  destruct (Rltb (fst (draw (QuantumSimulator.rng sim))) p) eqn:Hlt.
  - apply Rltb_true in Hlt. assert (Hp : 0 < p) by lra.
    destruct (Hthen eq_refl) as [Hb Hg].
    destruct (@mass_after_keep0 q p _ _ Hp Hl Hg) as [E0 E1].
    split; [|rewrite Hb; discriminate].
    intros _. rewrite E0, E1, <- (measure_prob0_mass Hwf) by lia.
    fold p. field. lra.
  - destruct (Helse eq_refl) as [Hb Hg].
    split; [rewrite Hb; discriminate|].
    intros _ Hp1. assert (Hp1' : 0 < 1 - p) by lra.
    destruct (@mass_after_keep1 q (1 - p) _ _ Hp1' Hl Hg) as [E0 E1].
    rewrite E0, E1.
    replace (mass true q (QuantumSimulator.state_vector sim))
      with (sumsq (QuantumSimulator.state_vector sim) - p) by lra.
    field. lra.
Qed.
End RealGateAlgebra.

(** ** What every operation keeps *)

Section OperationsKeep.
Context {T : Type} `{Double T}.
Implicit Types (sim : QuantumSimulator.t T).

Lemma measure_bit (q : Z) sim :
  fst (QuantumSimulator.measure q sim) = 0 \/
  fst (QuantumSimulator.measure q sim) = 1.
Proof.
  rewrite measure_unfold. cbv zeta.
  destruct (d_ltb _ _); [left|right]; reflexivity.
Qed.

(** X8.  In every arithmetic, binary64 included, every operation of the C++
    class keeps the representation invariant ([2^num_qubits] amplitudes, the
    qubit count unchanged) for qubit indices in range.  The gates leave the
    random generator as it is; [measure] returns 0 or 1 and advances the
    generator by exactly one draw. *)
Theorem operations_keep_invariant `{Trig T} sim :
  well_formed sim ->
  let n := QuantumSimulator.num_qubits sim in
  (forall q theta, 0 <= q < n ->
     well_formed (QuantumSimulator.applyH q sim) /\
     well_formed (QuantumSimulator.applyX q sim) /\
     well_formed (QuantumSimulator.applyRY q theta sim) /\
     QuantumSimulator.rng (QuantumSimulator.applyH q sim)
       = QuantumSimulator.rng sim /\
     QuantumSimulator.rng (QuantumSimulator.applyX q sim)
       = QuantumSimulator.rng sim /\
     QuantumSimulator.rng (QuantumSimulator.applyRY q theta sim)
       = QuantumSimulator.rng sim) /\
  (forall c t, 0 <= c < n -> 0 <= t < n ->
     well_formed (QuantumSimulator.applyCNOT c t sim) /\
     QuantumSimulator.rng (QuantumSimulator.applyCNOT c t sim)
       = QuantumSimulator.rng sim) /\
  (2 <= n -> well_formed (QuantumSimulator.createBellState sim)) /\
  (forall q, 0 <= q < n ->
     let m := QuantumSimulator.measure q sim in
     well_formed (snd m) /\
     QuantumSimulator.num_qubits (snd m) = n /\
     (fst m = 0 \/ fst m = 1) /\
     stream (QuantumSimulator.rng (snd m)) = stream (QuantumSimulator.rng sim) /\
     cursor (QuantumSimulator.rng (snd m))
       = Datatypes.S (cursor (QuantumSimulator.rng sim))).
Proof.
  intros Hwf. pose proof Hwf as [Hn Hlen]. cbv zeta.
  split; [|split; [|split]].
  - intros q theta Hq.
    rewrite applyH_pair_loop, applyX_pair_loop, applyRY_pair_loop.
    repeat split; try reflexivity;
      try (apply pair_loop_well_formed; assumption);
      try (apply (pair_loop_well_formed _ _ Hwf Hq)).
  - intros c t Hc Ht.
    split; [apply applyCNOT_well_formed; (assumption || lia)|reflexivity].
  - intros H2. unfold QuantumSimulator.createBellState.
    apply applyCNOT_well_formed; [|lia|lia].
    rewrite applyH_pair_loop. apply pair_loop_well_formed; [exact Hwf|lia].
  - intros q Hq.
    destruct (measure_pointwise Hwf Hq) as (Hrng & Hnq & _).
    split; [apply measure_well_formed; assumption|].
    split; [exact Hnq|]. split; [apply measure_bit|].
    rewrite Hrng. split; reflexivity.
Qed.
End OperationsKeep.

(** ** Measuring the Bell state in binary64 *)

(** X9.  In binary64, for every generator: after [createBellState] on a
    fresh 2-qubit simulator, [measure(0)] followed by [measure(1)] returns the
    same bit twice, whatever the first draw is, provided the second draw
    [r'] satisfies the two tests [r' < 0.0] false and [r' < 1.0] true (it is
    in [[0,1)]).  After the first measurement the state vector is
    [[1,0,0,0]] (bit 0) or [[0,0,0,1 - 2^-53]] (bit 1), and the second
    measurement leaves it unchanged. *)
Theorem bell_measurements_agree (g : Rng float) :
  let bell := QuantumSimulator.createBellState (QuantumSimulator.new 2 g) in
  let m0 := QuantumSimulator.measure 0 bell in
  let m1 := QuantumSimulator.measure 1 (snd m0) in
  let r' := fst (draw (QuantumSimulator.rng (snd m0))) in
  PrimFloat.ltb r' 0%float = false ->
  PrimFloat.ltb r' 1%float = true ->
  fst m1 = fst m0 /\
  QuantumSimulator.state_vector (snd m1) = QuantumSimulator.state_vector (snd m0) /\
  (fst m0 = 0 ->
     QuantumSimulator.state_vector (snd m0) = [C1; C0; C0; C0]) /\
  (fst m0 = 1 ->
     QuantumSimulator.state_vector (snd m0)
       = [C0; C0; C0; mkComplex 0x1.fffffffffffffp-1%float 0%float]).
Proof.
  destruct g as [s c]. cbv zeta.
  set (after := mkRng s (Datatypes.S c)).
  set (zero := QuantumSimulator.mk 2 [C1; C0; C0; C0] after).
  set (one := QuantumSimulator.mk 2
                [C0; C0; C0; mkComplex 0x1.fffffffffffffp-1%float 0%float] after).
  assert (E0 : QuantumSimulator.measure 0
                 (QuantumSimulator.createBellState
                    (QuantumSimulator.new 2 (mkRng s c)))
               = if PrimFloat.ltb (s c) 0x1.ffffffffffffep-2%float
                 then (0, zero) else (1, one))
    by (vm_compute; reflexivity).
  assert (Ezero : QuantumSimulator.measure 1 zero
                  = if PrimFloat.ltb (s (Datatypes.S c)) 1%float
                    then (0, QuantumSimulator.mk 2 [C1; C0; C0; C0]
                               (mkRng s (Datatypes.S (Datatypes.S c))))
                    else (1, QuantumSimulator.mk 2
                               [C0; C0; mkComplex PrimFloat.nan PrimFloat.nan;
                                mkComplex PrimFloat.nan PrimFloat.nan]
                               (mkRng s (Datatypes.S (Datatypes.S c)))))
    by (vm_compute; reflexivity).
  assert (Eone : QuantumSimulator.measure 1 one
                 = if PrimFloat.ltb (s (Datatypes.S c)) 0%float
                   then (0, QuantumSimulator.mk 2
                              [mkComplex PrimFloat.nan PrimFloat.nan;
                               mkComplex PrimFloat.nan PrimFloat.nan; C0; C0]
                              (mkRng s (Datatypes.S (Datatypes.S c))))
                   else (1, QuantumSimulator.mk 2
                              [C0; C0; C0;
                               mkComplex 0x1.fffffffffffffp-1%float 0%float]
                              (mkRng s (Datatypes.S (Datatypes.S c)))))
    by (vm_compute; reflexivity).
  rewrite E0. destruct (PrimFloat.ltb (s c) _); cbn [fst snd]; intros H0 H1.
  - change (fst (draw (QuantumSimulator.rng zero))) with (s (Datatypes.S c)) in H1.
    rewrite Ezero, H1. cbn [fst snd]. repeat split; try reflexivity.
    discriminate.
  - change (fst (draw (QuantumSimulator.rng one))) with (s (Datatypes.S c)) in H0.
    rewrite Eone, H0. cbn [fst snd]. repeat split; try reflexivity.
    discriminate.
Qed.

Lemma bell_measurements_agree_witness :
  PrimFloat.ltb below_one 0%float = false /\
  PrimFloat.ltb below_one 1%float = true /\
  fst (QuantumSimulator.measure 1
         (snd (QuantumSimulator.measure 0
                 (QuantumSimulator.createBellState
                    (QuantumSimulator.new 2 two_draws)))))
    = fst (QuantumSimulator.measure 0
             (QuantumSimulator.createBellState
                (QuantumSimulator.new 2 two_draws))).
Proof.
  split; [reflexivity|]. split; [reflexivity|].
  destruct (@bell_measurements_agree two_draws) as (E & _);
    [reflexivity|reflexivity|exact E].
Defined.

(** ** The circuit functions of the C program *)

Section CStrings.
Import Strings.Byte.

Lemma c_string_no_nul (bytes : list byte) :
  Forall (fun b => b <> x00) (CCircuit.c_string bytes).
Proof.
  induction bytes as [|b rest IH]; cbn [CCircuit.c_string]; [constructor|].
  destruct (Byte.eqb b x00) eqn:E; constructor; [|exact IH].
  apply Byte.eqb_false. exact E.
Qed.

Lemma c_string_stops (chars rest : list byte) :
  Forall (fun b => b <> x00) chars ->
  CCircuit.c_string (chars ++ x00 :: rest) = chars.
Proof.
  induction 1 as [|b chars Hb _ IH]; [reflexivity|].
  cbn [app CCircuit.c_string]. destruct (Byte.eqb b x00) eqn:E.
  - apply Byte.byte_dec_bl in E. contradiction.
  - rewrite IH. reflexivity.
Qed.

Lemma Forall_firstn {A : Type} (P : A -> Prop) (n : nat) (l : list A) :
  Forall P l -> Forall P (firstn n l).
Proof.
  intros Hl. revert n. induction Hl as [|a l Ha _ IH]; intros [|n];
    cbn [firstn]; constructor; auto.
Qed.

Lemma strncpy_length (src : list byte) (n : nat) :
  length (CCircuit.strncpy src n) = n.
Proof.
  unfold CCircuit.strncpy. rewrite length_app, repeat_length, length_firstn. lia.
Qed.

(** What a reader of the destination finds after [strncpy] and the
    terminator that [create_circuit] writes behind it. *)
Lemma strncpy_terminated (src : list byte) (n : nat) :
  CCircuit.c_string (CCircuit.strncpy src n ++ [x00])
    = firstn n (CCircuit.c_string src).
Proof.
  unfold CCircuit.strncpy. rewrite <- app_assoc.
  assert (E : exists rest,
            repeat x00 (n - length (CCircuit.c_string src)) ++ [x00]
            = x00 :: rest).
  { destruct (n - length (CCircuit.c_string src))%nat; cbn; eauto. }
  destruct E as [rest ->].
  apply c_string_stops, Forall_firstn, c_string_no_nul.
Qed.
End CStrings.

Lemma vget_of_nat_gen {A : Type} (d : A) (l : list A) (k : nat) :
  vget d l (Z.of_nat k) = nth k l d.
Proof.
  unfold vget. destruct (Z.ltb_spec (Z.of_nat k) 0); [lia|].
  rewrite Nat2Z.id. reflexivity.
Qed.

Section CircuitFacts.
Context {T : Type} `{Double T}.
Implicit Types (circuit : CCircuit.QuantumCircuit T)
               (st : CSim.QuantumState T).

(** X10.  [create_circuit] returns [NULL] with one [perror] line when
    [malloc] fails.  Otherwise the circuit has the given qubit count and no
    gate; its [name] array holds 50 bytes, the last one is NUL, and the
    string it holds is the first 49 characters of the given name, so a name
    of at most 49 characters is stored whole and a longer one is cut, never
    written past the array. *)
Theorem create_circuit_stores_name (num_qubits : Z) (name : list Byte.byte) :
  CCircuit.create_circuit (T:=T) false num_qubits name
    = (None, [CCircuit.AllocCircuitFailed]) /\
  exists circuit,
    CCircuit.create_circuit true num_qubits name = (Some circuit, []) /\
    CCircuit.num_qubits circuit = num_qubits /\
    CCircuit.num_gates circuit = 0 /\
    CCircuit.gate_list circuit = [] /\
    CCircuit.circuit_ok circuit /\
    length (CCircuit.name circuit) = CCircuit.NAME_SIZE /\
    nth (CCircuit.NAME_SIZE - 1) (CCircuit.name circuit) Byte.x01 = Byte.x00 /\
    CCircuit.c_string (CCircuit.name circuit)
      = firstn (CCircuit.NAME_SIZE - 1) (CCircuit.c_string name) /\
    ((length (CCircuit.c_string name) <= CCircuit.NAME_SIZE - 1)%nat ->
     CCircuit.c_string (CCircuit.name circuit) = CCircuit.c_string name).
Proof.
  split; [reflexivity|]. eexists. split; [reflexivity|].
  cbn [CCircuit.num_qubits CCircuit.num_gates CCircuit.name CCircuit.gates].
  split; [reflexivity|]. split; [reflexivity|]. split; [reflexivity|].
  split.
  { unfold CCircuit.circuit_ok.
    cbn [CCircuit.num_gates CCircuit.gates]. rewrite repeat_length.
    unfold CCircuit.MAX_GATES. repeat split; try lia. }
  split; [rewrite length_app, strncpy_length; reflexivity|].
  split.
  { rewrite app_nth2 by (rewrite strncpy_length; lia).
    rewrite strncpy_length. reflexivity. }
  split; [apply strncpy_terminated|].
  intros Hshort. rewrite strncpy_terminated. apply firstn_all2. exact Hshort.
Qed.

Lemma firstn_replace_nth {A : Type} (k : nat) (x : A) (l : list A) :
  (k < length l)%nat ->
  firstn (Datatypes.S k) (replace_nth k x l) = firstn k l ++ [x].
Proof.
  revert k. induction l as [|a l IH]; intros [|k] Hk; cbn in *; try lia.
  - reflexivity.
  - f_equal. apply IH. lia.
Qed.

Lemma firstn_succ_nth {A : Type} (d : A) (k : nat) (l : list A) :
  (k < length l)%nat ->
  firstn (Datatypes.S k) l = firstn k l ++ [nth k l d].
Proof.
  revert k. induction l as [|a l IH]; intros [|k] Hk; cbn in *; try lia.
  - reflexivity.
  - f_equal. apply IH. lia.
Qed.

(** X11.  [add_gate] on a circuit as [create_circuit] and [add_gate] leave
    it.  Below [MAX_GATES] gates the new gate, with angle [0.0], becomes the
    last gate, the earlier ones stay and nothing is reported.  At
    [MAX_GATES] gates the circuit is unchanged and "Too many gates" is
    reported.  In both cases the count stays within the array, and the name
    and the qubit count stay. *)
Theorem add_gate_appends_within_bounds circuit (type : CSim.GateType)
    (target control : Z) :
  CCircuit.circuit_ok circuit ->
  let circuit' := fst (CCircuit.add_gate circuit type target control) in
  let log := snd (CCircuit.add_gate circuit type target control) in
  CCircuit.circuit_ok circuit' /\
  CCircuit.name circuit' = CCircuit.name circuit /\
  CCircuit.num_qubits circuit' = CCircuit.num_qubits circuit /\
  (CCircuit.num_gates circuit < CCircuit.MAX_GATES ->
     log = [] /\
     CCircuit.num_gates circuit' = CCircuit.num_gates circuit + 1 /\
     CCircuit.gate_list circuit'
       = CCircuit.gate_list circuit ++ [CSim.mkGate type target control d_zero]) /\
  (CCircuit.num_gates circuit = CCircuit.MAX_GATES ->
     log = [CCircuit.TooManyGates] /\ circuit' = circuit).
Proof.
  intros (Hk & Hlen & Hwritten). cbv zeta. unfold CCircuit.add_gate.
  destruct (Z.geb_spec (CCircuit.num_gates circuit) CCircuit.MAX_GATES) as [Hfull|Hroom];
    cbn [fst snd CCircuit.name CCircuit.num_qubits CCircuit.num_gates].
  - split; [unfold CCircuit.circuit_ok; auto|]. split; [reflexivity|].
    split; [reflexivity|]. split; [lia|]. intros _. split; reflexivity.
  - set (k := CCircuit.num_gates circuit) in *.
    set (gate := CSim.mkGate type target control d_zero).
    assert (Hget : forall i, 0 <= i < k + 1 ->
              exists g, vget None (vset (CCircuit.gates circuit) k (Some gate)) i
                        = Some g).
    { intros i Hi. destruct (Z.eq_dec i k) as [->|Hne].
      - exists gate. apply vget_vset_same. lia.
      - rewrite vget_vset_other by congruence. apply Hwritten. lia. }
    split.
    { unfold CCircuit.circuit_ok.
      cbn [CCircuit.num_gates CCircuit.gates]. rewrite vset_length.
      split; [lia|]. split; [exact Hlen|exact Hget]. }
    split; [reflexivity|]. split; [reflexivity|].
    split; [|lia]. intros _. split; [reflexivity|]. split; [reflexivity|].
    unfold CCircuit.gate_list. cbn [CCircuit.num_gates CCircuit.gates]. fold k.
    unfold vset. destruct (Z.ltb_spec k 0); [lia|].
    replace (Z.to_nat (k + 1)) with (Datatypes.S (Z.to_nat k)) by lia.
    rewrite firstn_replace_nth by lia.
    rewrite flat_map_app. reflexivity.
Qed.

Lemma add_gate_appends_ok circuit (type : CSim.GateType) (target control : Z) :
  CCircuit.circuit_ok circuit ->
  CCircuit.num_gates circuit < CCircuit.MAX_GATES ->
  CCircuit.circuit_ok (fst (CCircuit.add_gate circuit type target control)) /\
  CCircuit.gate_list (fst (CCircuit.add_gate circuit type target control))
    = CCircuit.gate_list circuit ++ [CSim.mkGate type target control d_zero].
Proof.
  intros (Hk & Hlen & Hwritten) Hroom. unfold CCircuit.add_gate.
  destruct (Z.geb_spec (CCircuit.num_gates circuit) CCircuit.MAX_GATES);
    [lia|]. cbn [fst].
  set (k := CCircuit.num_gates circuit) in *.
  set (gate := CSim.mkGate type target control d_zero).
  split.
  - unfold CCircuit.circuit_ok.
    cbn [CCircuit.num_gates CCircuit.gates]. rewrite vset_length.
    split; [lia|]. split; [exact Hlen|].
    intros i Hi. destruct (Z.eq_dec i k) as [->|Hne].
    + exists gate. apply vget_vset_same. lia.
    + rewrite vget_vset_other by congruence. apply Hwritten. lia.
  - unfold CCircuit.gate_list. cbn [CCircuit.num_gates CCircuit.gates]. fold k.
    unfold vset. destruct (Z.ltb_spec k 0); [lia|].
    replace (Z.to_nat (k + 1)) with (Datatypes.S (Z.to_nat k)) by lia.
    rewrite firstn_replace_nth by lia.
    rewrite flat_map_app. reflexivity.
Qed.

Lemma apply_gates_app (l1 l2 : list (CSim.QuantumGate T)) start :
  CCircuit.apply_gates (l1 ++ l2) start
    = CCircuit.apply_gates l2 (CCircuit.apply_gates l1 start).
Proof. unfold CCircuit.apply_gates. apply fold_left_app. Qed.

Lemma simulate_fold (l : list (option (CSim.QuantumGate T))) (k : nat) st :
  (k <= length l)%nat ->
  (forall i, 0 <= i < Z.of_nat k -> exists g, vget None l i = Some g) ->
  fold_left (fun acc i =>
    match acc with
    | Some (state, log) =>
        match vget None l (Z.of_nat i) with
        | Some gate =>
            let (state', written) := CSim.apply_gate state gate in
            Some (state', log ++ written)
        | None => None
        end
    | None => None
    end) (seq 0 k) (Some (st, []))
  = Some (CCircuit.apply_gates
            (flat_map (fun g => match g with Some gate => [gate] | None => [] end)
                      (firstn k l))
            (st, [])).
Proof.
  induction k as [|k IH]; intros Hk Hwritten; [reflexivity|].
  rewrite seq_S, fold_left_app, IH by (lia || (intros; apply Hwritten; lia)).
  cbn [fold_left Nat.add].
  destruct (Hwritten (Z.of_nat k) ltac:(lia)) as [g Hg].
  rewrite (firstn_succ_nth None) by lia.
  rewrite flat_map_app, apply_gates_app.
  rewrite vget_of_nat_gen in Hg. rewrite vget_of_nat_gen, Hg.
  cbn [flat_map app]. unfold CCircuit.apply_gates at 2. cbn [fold_left].
  destruct (CCircuit.apply_gates _ (st, [])) as [st' log].
  cbn [fst snd]. destruct (CSim.apply_gate st' g). reflexivity.
Qed.
End CircuitFacts.

Section CircuitRuns.
Context {T : Type} `{Double T}.
Implicit Types (circuit : CCircuit.QuantumCircuit T)
               (st : CSim.QuantumState T).

Lemma simulate_circuit_spec circuit st :
  CCircuit.circuit_ok circuit ->
  CCircuit.simulate_circuit circuit st
    = Some (CCircuit.apply_gates (CCircuit.gate_list circuit) (st, [])).
Proof.
  intros (Hk & Hlen & Hwritten). unfold CCircuit.simulate_circuit, CCircuit.gate_list.
  rewrite <- (Z2Nat.id (CCircuit.num_gates circuit)) at 1 by lia.
  rewrite for_loop_count. apply simulate_fold.
  - lia.
  - intros i Hi. apply Hwritten. lia.
Qed.

(** [apply_gate] reads the kind and the target of a gate and nothing else. *)
Lemma apply_gate_reads_type_and_target st (g g' : CSim.QuantumGate T) :
  CSim.type g = CSim.type g' -> CSim.target g = CSim.target g' ->
  CSim.apply_gate st g = CSim.apply_gate st g'.
Proof.
  intros Ety Etg. unfold CSim.apply_gate. rewrite Ety, Etg. reflexivity.
Qed.

Lemma apply_gates_keep (l : list (CSim.QuantumGate T)) st
    (log : list CSim.message) :
  well_formed_state st ->
  Forall (fun g => 0 <= CSim.target g < CSim.num_qubits st) l ->
  let r := CCircuit.apply_gates l (st, log) in
  well_formed_state (fst r) /\
  CSim.num_qubits (fst r) = CSim.num_qubits st /\
  snd r = log ++ unimplemented_lines l.
Proof.
  intros Hwf Hl. revert st log Hwf Hl.
  induction l as [|g l IH]; intros st log Hwf Hl.
  - cbn. rewrite app_nil_r. auto.
  - inversion Hl as [|? ? Hg Hl']; subst.
    destruct (apply_gate_spec g Hwf Hg) as (Hwf' & Hn' & Hcase).
    cbv zeta in *. unfold CCircuit.apply_gates in *. cbn [fold_left fst snd].
    specialize (IH (fst (CSim.apply_gate st g))
                   (log ++ snd (CSim.apply_gate st g)) Hwf').
    rewrite Hn' in IH. destruct (IH Hl') as (Hw & Hn & Hlog).
    split; [exact Hw|]. split; [exact Hn|]. rewrite Hlog, <- app_assoc.
    f_equal. unfold unimplemented_lines. cbn [flat_map]. f_equal.
    destruct (CSim.type g); destruct Hcase as [-> _]; reflexivity.
Qed.

(** X12.  On a circuit as [create_circuit] and [add_gate] leave it, a
    state as [create_state] builds it and gate targets in range,
    [simulate_circuit] never reads a gate that was not written: it applies
    the gates in the order in which they were added and collects what
    [apply_gate] reports, and the state it leaves is again as [create_state]
    builds it.  Simulating the circuit extended by [add_gate] with a target
    in range is simulating the circuit and then applying the new gate.  The
    control index given to [add_gate] has no effect on the simulation: a gate
    added as [GATE_X] with a control is an unconditional Pauli-X. *)
Theorem simulate_circuit_runs_gates_in_order circuit st
    (type : CSim.GateType) (target control control' : Z) :
  CCircuit.circuit_ok circuit ->
  CCircuit.num_gates circuit < CCircuit.MAX_GATES ->
  well_formed_state st ->
  Forall (fun g => 0 <= CSim.target g < CSim.num_qubits st)
         (CCircuit.gate_list circuit) ->
  0 <= target < CSim.num_qubits st ->
  let gate := CSim.mkGate type target control d_zero in
  let extended := fst (CCircuit.add_gate circuit type target control) in
  let extended' := fst (CCircuit.add_gate circuit type target control') in
  exists st' log,
    CCircuit.simulate_circuit circuit st = Some (st', log) /\
    (st', log) = CCircuit.apply_gates (CCircuit.gate_list circuit) (st, []) /\
    well_formed_state st' /\
    0 <= target < CSim.num_qubits st' /\
    CCircuit.simulate_circuit extended st
      = Some (fst (CSim.apply_gate st' gate),
              log ++ snd (CSim.apply_gate st' gate)) /\
    well_formed_state (fst (CSim.apply_gate st' gate)) /\
    CCircuit.simulate_circuit extended' st
      = CCircuit.simulate_circuit extended st.
Proof.
  intros Hok Hroom Hwf Hall Htarget. cbv zeta.
  destruct (@add_gate_appends_ok T _ circuit type target control Hok Hroom)
    as (Hok1 & Hl1).
  destruct (@add_gate_appends_ok T _ circuit type target control' Hok Hroom)
    as (Hok2 & Hl2).
  rewrite !simulate_circuit_spec by assumption.
  rewrite Hl1, Hl2, !apply_gates_app.
  destruct (apply_gates_keep [] Hwf Hall) as (Hw & Hn & _).
  destruct (CCircuit.apply_gates (CCircuit.gate_list circuit) (st, []))
    as [st' log] eqn:E.
  cbn [fst snd] in Hw, Hn.
  assert (Htarget' : 0 <= target < CSim.num_qubits st') by (rewrite Hn; exact Htarget).
  exists st', log. unfold CCircuit.apply_gates. cbn [fold_left fst snd].
  split; [reflexivity|]. split; [reflexivity|]. split; [exact Hw|].
  split; [exact Htarget'|]. split; [reflexivity|]. split; [|reflexivity].
  apply (apply_gate_spec (CSim.mkGate type target control d_zero) Hw Htarget').
Qed.

(** X13.  On a circuit as [create_circuit] and [add_gate] leave it, a state
    as [create_state] builds it and gate targets in range, [simulate_circuit]
    ends with a state of the same qubit count and [2^num_qubits]
    amplitudes, and what it writes to [stderr] is one "not implemented" line
    per gate of a kind other than [GATE_H] and [GATE_X], in the order of the
    gates. *)
Theorem simulate_circuit_keeps_state circuit st :
  CCircuit.circuit_ok circuit ->
  well_formed_state st ->
  Forall (fun g => 0 <= CSim.target g < CSim.num_qubits st)
         (CCircuit.gate_list circuit) ->
  exists st' log,
    CCircuit.simulate_circuit circuit st = Some (st', log) /\
    well_formed_state st' /\
    CSim.num_qubits st' = CSim.num_qubits st /\
    log = unimplemented_lines (CCircuit.gate_list circuit).
Proof.
  intros Hok Hwf Hl. rewrite simulate_circuit_spec by exact Hok.
  destruct (apply_gates_keep [] Hwf Hl) as (Hw & Hn & Hlog).
  destruct (CCircuit.apply_gates (CCircuit.gate_list circuit) (st, []))
    as [st' log]. exists st', log. cbn [fst snd] in *. auto.
Qed.
End CircuitRuns.

(** ** Allocation and reset of a C state *)

Section StateLifecycle.
Context {T : Type} `{Double T}.
Implicit Types (st : CSim.QuantumState T).

(** X14.  [create_state] never leaks: on each of its three failing paths
    (too many qubits, [malloc] fails, [calloc] fails) it returns [NULL], has
    reported the failure and leaves no block allocated, the state block being
    freed when [calloc] fails.  When it succeeds exactly the state block and
    the amplitude block are live, and [destroy_state] frees these two;
    [destroy_state(NULL)] frees nothing. *)
Theorem create_state_leaves_no_leak (al : CSim.allocator) (num_qubits : Z) :
  let r := CSim.create_state (T:=T) al num_qubits in
  match CSim.returned r with
  | None =>
      CCircuit.live_blocks (CSim.heap r) [] = [] /\ length (CSim.errors r) = 1%nat
  | Some st =>
      CSim.num_qubits st = num_qubits /\
      CSim.errors r = [] /\
      CCircuit.live_blocks (CSim.heap r) []
        = [CCircuit.StateBlock; CCircuit.AmplitudesBlock] /\
      forall b, In b (CCircuit.live_blocks (CSim.heap r) [])
                <-> In b (CCircuit.destroy_state (Some st))
  end /\
  CCircuit.destroy_state (T:=T) None = [].
Proof.
  cbv zeta. split; [|reflexivity]. unfold CSim.create_state.
  destruct (num_qubits >? CSim.MAX_QUBITS); [split; reflexivity|].
  destruct (CSim.malloc_succeeds al); [|split; reflexivity].
  destruct (CSim.calloc_succeeds al); [|split; reflexivity].
  cbn. repeat split; try reflexivity; intros [<-|[<-|[]]]; auto.
Qed.

Context `{!DoubleLiterals T}.

Lemma initialize_state_amplitudes st :
  Z.of_nat (length (CSim.amplitudes st)) = CSim.dimension st ->
  0 < CSim.dimension st ->
  CSim.amplitudes (CSim.initialize_state st)
    = C1 :: repeat C0 (length (CSim.amplitudes st) - 1).
Proof.
  intros Hlen Hdim. unfold CSim.initialize_state.
  cbn [CSim.amplitudes]. rewrite one_plus_zero_I, <- Hlen.
  pose proof (map_loop_spec C0 (fun _ _ => C0) (CSim.amplitudes st)) as Hspec.
  cbv zeta in Hspec. unfold map_loop in Hspec. destruct Hspec as [Hl Hg].
  set (amps := for_loop _ _ _ _ _) in *.
  assert (amps = repeat C0 (length (CSim.amplitudes st))) as ->.
  { apply (vget_ext C0); [rewrite Hl, repeat_length; reflexivity|].
    intros i Hi. rewrite Hl in Hi. rewrite Hg by lia. rewrite vget_repeat.
    destruct (Z.leb_spec 0 i); [|lia].
    destruct (Z.ltb_spec i (Z.of_nat (length (CSim.amplitudes st)))); [|lia].
    reflexivity. }
  destruct (length (CSim.amplitudes st)) as [|m] eqn:E; [lia|].
  replace (Datatypes.S m - 1)%nat with m by lia. apply vset_repeat_0.
Qed.

(** X15.  [initialize_state] resets a state whatever its amplitudes are: on
    a state whose array has [dimension >= 1] elements it leaves [1.0 + 0.0i]
    at index 0 and [0.0] at every other index, keeps the qubit count and the
    dimension, and a second call changes nothing. *)
Theorem initialize_state_resets st :
  Z.of_nat (length (CSim.amplitudes st)) = CSim.dimension st ->
  0 < CSim.dimension st ->
  let st' := CSim.initialize_state st in
  CSim.amplitudes st' = C1 :: repeat C0 (length (CSim.amplitudes st) - 1) /\
  CSim.num_qubits st' = CSim.num_qubits st /\
  CSim.dimension st' = CSim.dimension st /\
  CSim.initialize_state st' = st'.
Proof.
  intros Hlen Hdim. cbv zeta.
  pose proof (initialize_state_amplitudes st Hlen Hdim) as E.
  split; [exact E|]. split; [reflexivity|]. split; [reflexivity|].
  set (st' := CSim.initialize_state st) in *.
  assert (Hlen' : Z.of_nat (length (CSim.amplitudes st')) = CSim.dimension st').
  { rewrite E. cbn [length]. rewrite repeat_length.
    change (CSim.dimension st') with (CSim.dimension st). lia. }
  assert (Hdim' : 0 < CSim.dimension st') by exact Hdim.
  pose proof (initialize_state_amplitudes st' Hlen' Hdim') as E'.
  assert (Esame : CSim.amplitudes (CSim.initialize_state st')
                  = CSim.amplitudes st').
  { rewrite E', E. cbn [length]. rewrite repeat_length.
    replace (Datatypes.S (length (CSim.amplitudes st) - 1) - 1)%nat
      with (length (CSim.amplitudes st) - 1)%nat by lia. reflexivity. }
  unfold CSim.initialize_state in *. cbn [CSim.amplitudes] in Esame.
  rewrite Esame. destruct st'; reflexivity.
Qed.
End StateLifecycle.

(** ** [printState] and its labels *)

Lemma in_seq_9 (n : Z) : 0 <= n <= 8 -> In (Z.to_nat n) (seq 0 9).
Proof. intros Hn. apply in_seq. lia. Qed.

Lemma existsb_map_of_nat (p : Z -> bool) (l : list nat) :
  existsb (fun i => p (Z.of_nat i)) l = existsb p (map Z.of_nat l).
Proof.
  induction l as [|a l IH]; [reflexivity|]. cbn [map existsb].
  rewrite IH. reflexivity.
Qed.

Section PrintStateFacts.
Context {T : Type} `{Double T}.
Implicit Types (sim : QuantumSimulator.t T).

Lemma labels_checked_true : labels_checked = true.
Proof. vm_compute. reflexivity. Qed.

Lemma basis_label_small (n i : Z) :
  0 <= n <= 8 -> 0 <= i < 2 ^ n ->
  exists l, PrintState.basis_label n i = Some l /\
            PrintState.binary_value l = i /\
            Z.of_nat (length l) = n.
Proof.
  intros Hn Hi. pose proof labels_checked_true as Hc.
  unfold labels_checked in Hc. rewrite forallb_forall in Hc.
  specialize (Hc (Z.to_nat n)). rewrite forallb_forall in Hc by (apply in_seq; lia).
  assert (Hin : In (Z.to_nat i) (seq 0 (2 ^ Z.to_nat n))).
  { apply in_seq. split; [lia|].
    assert (Z.of_nat (2 ^ Z.to_nat n) = 2 ^ n)
      by (rewrite Nat2Z.inj_pow, Z2Nat.id by lia; reflexivity).
    lia. }
  specialize (Hc (in_seq_9 Hn) _ Hin).
  rewrite !Z2Nat.id in Hc by lia.
  destruct (PrintState.basis_label n i) as [l|]; [|discriminate].
  apply andb_true_iff in Hc as [Hv Hl].
  apply Z.eqb_eq in Hv. apply Nat.eqb_eq in Hl.
  exists l. repeat split; [exact Hv|lia].
Qed.

Lemma basis_label_large (n i : Z) :
  8 < n <= 30 -> PrintState.basis_label n i = None.
Proof.
  intros Hn. unfold PrintState.basis_label, PrintState.substr,
    PrintState.to_size_t, PrintState.bitset8_to_string.
  cbn [length map].
  replace ((8 - n) mod 2 ^ 64) with (2 ^ 64 + (8 - n)).
  - destruct (Z.gtb_spec (2 ^ 64 + (8 - n)) (Z.of_nat 8)); [reflexivity|].
    change (2 ^ 64) with 18446744073709551616 in *. lia.
  - symmetry. rewrite <- (Z.mod_small (2 ^ 64 + (8 - n)) (2 ^ 64)).
    + replace (2 ^ 64 + (8 - n)) with ((8 - n) + 1 * 2 ^ 64) by ring.
      rewrite Z.mod_add; [reflexivity|].
      change (2 ^ 64) with 18446744073709551616. lia.
    + change (2 ^ 64) with 18446744073709551616. lia.
Qed.

Lemma printState_small (visible : Complex T -> bool) sim :
  well_formed sim -> QuantumSimulator.num_qubits sim <= 8 ->
  PrintState.printState visible sim
    = PrintState.Completed
        (lines_of visible sim
           (map Z.of_nat (seq 0 (length (QuantumSimulator.state_vector sim))))).
Proof.
  intros [Hn Hlen] H8. unfold PrintState.printState.
  rewrite shl1_pow2, <- Hlen, for_loop_count by lia.
  assert (Hgen : forall k, (k <= length (QuantumSimulator.state_vector sim))%nat ->
    fold_left (fun acc i =>
      match acc with
      | PrintState.Completed lines =>
          let z := vget C0 (QuantumSimulator.state_vector sim) (Z.of_nat i) in
          if visible z then
            match PrintState.basis_label (QuantumSimulator.num_qubits sim)
                    (Z.of_nat i) with
            | Some l => PrintState.Completed
                          (lines ++ [PrintState.mkLine l z (norm z)])
            | None => PrintState.OutOfRange lines
            end
          else acc
      | PrintState.OutOfRange _ => acc
      end) (seq 0 k) (PrintState.Completed [])
    = PrintState.Completed (lines_of visible sim (map Z.of_nat (seq 0 k)))).
  { induction k as [|k IH]; intros Hk; [reflexivity|].
    rewrite seq_S, fold_left_app, IH by lia.
    rewrite map_app. unfold lines_of at 2. rewrite flat_map_app.
    fold (lines_of visible sim (map Z.of_nat (seq 0 k))).
    cbn [fold_left Nat.add map flat_map]. cbv zeta.
    destruct (visible _); [|rewrite !app_nil_r; reflexivity].
    destruct (@basis_label_small (QuantumSimulator.num_qubits sim) (Z.of_nat k))
      as (l & -> & _); [lia|lia|].
    rewrite app_nil_r. reflexivity. }
  apply Hgen. lia.
Qed.

Lemma lines_of_labels (visible : Complex T -> bool) sim (l : list Z) :
  0 <= QuantumSimulator.num_qubits sim <= 8 ->
  Forall (fun i => 0 <= i < 2 ^ QuantumSimulator.num_qubits sim) l ->
  map (fun ln => PrintState.binary_value (PrintState.label ln))
      (lines_of visible sim l)
    = filter (fun i => visible (vget C0 (QuantumSimulator.state_vector sim) i)) l /\
  Forall (fun ln =>
            Z.of_nat (length (PrintState.label ln))
              = QuantumSimulator.num_qubits sim /\
            PrintState.amplitude ln
              = vget C0 (QuantumSimulator.state_vector sim)
                  (PrintState.binary_value (PrintState.label ln)) /\
            PrintState.prob ln = norm (PrintState.amplitude ln))
         (lines_of visible sim l).
Proof.
  intros Hn Hl. induction Hl as [|i l Hi _ [IHmap IHall]].
  - split; [reflexivity|constructor].
  - unfold lines_of. cbn [flat_map filter]. cbv zeta.
    fold (lines_of visible sim l).
    destruct (visible _) eqn:Hv; [|split; assumption].
    destruct (@basis_label_small (QuantumSimulator.num_qubits sim) i Hn Hi)
      as (lbl & -> & Hval & Hlenl).
    cbn [app map PrintState.label]. split.
    + rewrite Hval, IHmap. reflexivity.
    + constructor; [|exact IHall].
      cbn [PrintState.label PrintState.amplitude PrintState.prob].
      rewrite Hval. auto.
Qed.

Lemma printState_large (visible : Complex T -> bool) sim (k : nat) :
  8 < QuantumSimulator.num_qubits sim <= 30 ->
  fold_left (fun acc i =>
    match acc with
    | PrintState.Completed lines =>
        let z := vget C0 (QuantumSimulator.state_vector sim) (Z.of_nat i) in
        if visible z then
          match PrintState.basis_label (QuantumSimulator.num_qubits sim)
                  (Z.of_nat i) with
          | Some l => PrintState.Completed
                        (lines ++ [PrintState.mkLine l z (norm z)])
          | None => PrintState.OutOfRange lines
          end
        else acc
    | PrintState.OutOfRange _ => acc
    end) (seq 0 k) (PrintState.Completed [])
  = if existsb (fun i => visible (vget C0 (QuantumSimulator.state_vector sim)
                                    (Z.of_nat i))) (seq 0 k)
    then PrintState.OutOfRange [] else PrintState.Completed [].
Proof.
  intros Hn. induction k as [|k IH]; [reflexivity|].
  rewrite seq_S, fold_left_app, existsb_app, IH.
  cbn [fold_left existsb Nat.add]. cbv zeta.
  destruct (existsb _ (seq 0 k)); [reflexivity|]. cbn [orb].
  destruct (visible _); [|reflexivity].
  rewrite basis_label_large by exact Hn. reflexivity.
Qed.

(** X16.  [printState] on a register that satisfies the representation
    invariant, with [visible] the test of line 152.  (1) With at most 8
    qubits it returns after one line for every visible amplitude, in
    increasing order of the index; the label of a line has [num_qubits]
    binary digits and denotes the index of the amplitude printed with it.
    (2) With more than 8 qubits the position [8 - num_qubits] handed to
    [substr] is negative, and the call ends in [std::out_of_range] before
    the first line as soon as one amplitude is visible; with no visible
    amplitude it returns without a line. *)
Theorem printState_labels_and_range (visible : Complex T -> bool) sim :
  well_formed sim ->
  let n := QuantumSimulator.num_qubits sim in
  let sv := QuantumSimulator.state_vector sim in
  let indices := map Z.of_nat (seq 0 (length sv)) in
  (n <= 8 ->
   exists lines,
     PrintState.printState visible sim = PrintState.Completed lines /\
     map (fun ln => PrintState.binary_value (PrintState.label ln)) lines
       = filter (fun i => visible (vget C0 sv i)) indices /\
     Forall (fun ln =>
               Z.of_nat (length (PrintState.label ln)) = n /\
               PrintState.amplitude ln
                 = vget C0 sv (PrintState.binary_value (PrintState.label ln)) /\
               PrintState.prob ln = norm (PrintState.amplitude ln)) lines) /\
  (8 < n ->
   PrintState.printState visible sim =
     if existsb (fun i => visible (vget C0 sv i)) indices
     then PrintState.OutOfRange [] else PrintState.Completed []).
Proof.
  intros Hwf. pose proof Hwf as [Hn Hlen]. cbv zeta. split.
  - intros H8. eexists. split; [apply printState_small; assumption|].
    apply lines_of_labels; [lia|].
    apply Forall_forall. intros i Hi. apply in_map_iff in Hi as (k & <- & Hk).
    apply in_seq in Hk. lia.
  - intros H8. unfold PrintState.printState.
    rewrite shl1_pow2, <- Hlen, for_loop_count by lia.
    rewrite printState_large by lia.
    rewrite (existsb_map_of_nat
      (fun i => visible (vget C0 (QuantumSimulator.state_vector sim) i))).
    reflexivity.
Qed.
End PrintStateFacts.

(** ** The C program's [main] in binary64 *)

(** X17.  The C [main] in binary64, for every outcome of its three
    allocations.  When the circuit cannot be allocated it returns 1 at once;
    when the state cannot be created it frees the circuit and returns 1.
    Otherwise it returns 0 after printing [|00>] (amplitude 1 at index 0),
    then the state after the circuit, and after [destroy_state] and
    [free(bell_circuit)].  The second gate being [GATE_X] on qubit 1, whose
    control field [apply_gate] never reads, the final state has the amplitude
    [0x1.6a09e667f3bccp-1] at indices 2 and 3 and 0 at indices 0 and 1. *)
Theorem c_main_runs (circuit_malloc_ok : bool) (al : CSim.allocator) :
  CMain.main (T:=float) circuit_malloc_ok al =
    if negb circuit_malloc_ok then Some (1, [])
    else if negb (CSim.malloc_succeeds al && CSim.calloc_succeeds al)
    then Some (1, [CMain.FreeCircuit])
    else
      let h := mkComplex 0x1.6a09e667f3bccp-1%float 0%float in
      Some (0, [CMain.PrintState (CSim.mkState 2 4 [C1; C0; C0; C0]);
                CMain.PrintState (CSim.mkState 2 4 [C0; C0; h; h]);
                CMain.DestroyState; CMain.FreeCircuit]).
Proof.
  destruct circuit_malloc_ok, al as [[|] [|]]; vm_compute; reflexivity.
Qed.

(** ** Instances of the properties above *)

Lemma well_formed_c_real_qubit : well_formed_state c_real_qubit.
Proof. split; [simpl; lia|split; reflexivity]. Qed.

Lemma well_formed_c_two_qubits : well_formed_state c_two_qubits.
Proof. split; [simpl; lia|split; reflexivity]. Qed.

Lemma circuit_ok_empty_circuit : CCircuit.circuit_ok empty_circuit.
Proof.
  split; [vm_compute; split; discriminate|]. split; [reflexivity|].
  intros i Hi. change (CCircuit.num_gates empty_circuit) with 0 in Hi. lia.
Qed.

Lemma circuit_ok_h_circuit : CCircuit.circuit_ok h_circuit.
Proof.
  split; [vm_compute; split; discriminate|]. split; [reflexivity|].
  intros i Hi. change (CCircuit.num_gates h_circuit) with 1 in Hi.
  assert (i = 0) as -> by lia.
  eexists. reflexivity.
Qed.

Lemma pauli_x_twice_is_identity_witness :
  well_formed one_state /\
  0 <= 0 < QuantumSimulator.num_qubits one_state /\
  well_formed_state c_one_qubit /\
  0 <= 0 < CSim.num_qubits c_one_qubit /\
  QuantumSimulator.applyX 0 (QuantumSimulator.applyX 0 one_state) = one_state /\
  CSim.apply_pauli_x (CSim.apply_pauli_x c_one_qubit 0) 0 = c_one_qubit.
Proof.
  assert (Hq : 0 <= 0 < QuantumSimulator.num_qubits one_state) by (simpl; lia).
  assert (Hq' : 0 <= 0 < CSim.num_qubits c_one_qubit) by (simpl; lia).
  split; [exact well_formed_one_state|]. split; [exact Hq|].
  split; [exact well_formed_c_one_qubit|]. split; [exact Hq'|].
  exact (pauli_x_twice_is_identity well_formed_one_state Hq
           well_formed_c_one_qubit Hq').
Defined.

Lemma pauli_x_gates_commute_witness :
  well_formed plus_plus /\
  0 <= 0 < QuantumSimulator.num_qubits plus_plus /\
  0 <= 1 < QuantumSimulator.num_qubits plus_plus /\
  QuantumSimulator.applyX 0 (QuantumSimulator.applyX 1 plus_plus)
    = QuantumSimulator.applyX 1 (QuantumSimulator.applyX 0 plus_plus).
Proof.
  assert (H0 : 0 <= 0 < QuantumSimulator.num_qubits plus_plus) by (simpl; lia).
  assert (H1 : 0 <= 1 < QuantumSimulator.num_qubits plus_plus) by (simpl; lia).
  split; [exact well_formed_plus_plus|]. split; [exact H0|]. split; [exact H1|].
  exact (proj1 (pauli_x_gates_commute well_formed_plus_plus H0 H1)).
Defined.

Lemma cnot_twice_is_identity_witness :
  well_formed plus_plus /\
  0 <= 0 < QuantumSimulator.num_qubits plus_plus /\
  0 <= 1 < QuantumSimulator.num_qubits plus_plus /\
  0 <> 1 /\
  QuantumSimulator.applyCNOT 0 1 (QuantumSimulator.applyCNOT 0 1 plus_plus)
    = plus_plus.
Proof.
  assert (H0 : 0 <= 0 < QuantumSimulator.num_qubits plus_plus) by (simpl; lia).
  assert (H1 : 0 <= 1 < QuantumSimulator.num_qubits plus_plus) by (simpl; lia).
  assert (Hne : 0 <> 1) by lia.
  split; [exact well_formed_plus_plus|]. split; [exact H0|]. split; [exact H1|].
  split; [exact Hne|].
  exact (cnot_twice_is_identity well_formed_plus_plus H0 H1 Hne).
Defined.

Lemma hadamard_twice_is_identity_witness :
  well_formed real_qubit /\
  0 <= 0 < QuantumSimulator.num_qubits real_qubit /\
  well_formed_state c_real_qubit /\
  0 <= 0 < CSim.num_qubits c_real_qubit /\
  QuantumSimulator.applyH 0 (QuantumSimulator.applyH 0 real_qubit) = real_qubit /\
  CSim.apply_hadamard (CSim.apply_hadamard c_real_qubit 0) 0 = c_real_qubit.
Proof.
  assert (Hq : 0 <= 0 < QuantumSimulator.num_qubits real_qubit) by (simpl; lia).
  assert (Hq' : 0 <= 0 < CSim.num_qubits c_real_qubit) by (simpl; lia).
  split; [exact well_formed_real_qubit|]. split; [exact Hq|].
  split; [exact well_formed_c_real_qubit|]. split; [exact Hq'|].
  exact (hadamard_twice_is_identity well_formed_real_qubit Hq
           well_formed_c_real_qubit Hq').
Defined.

Lemma rotations_compose_witness :
  well_formed real_qubit /\
  0 <= 0 < QuantumSimulator.num_qubits real_qubit /\
  QuantumSimulator.applyRY 0 PI (QuantumSimulator.applyRY 0 PI real_qubit)
    = QuantumSimulator.applyRY 0 (PI + PI)%R real_qubit.
Proof.
  assert (Hq : 0 <= 0 < QuantumSimulator.num_qubits real_qubit) by (simpl; lia).
  split; [exact well_formed_real_qubit|]. split; [exact Hq|].
  exact (proj1 (rotations_compose PI PI well_formed_real_qubit Hq)).
Defined.

Lemma probabilities_are_bounded_witness :
  well_formed real_qubit /\
  Z.of_nat (length (QuantumSimulator.getProbabilities real_qubit))
    = 2 ^ QuantumSimulator.num_qubits real_qubit.
Proof.
  split; [exact well_formed_real_qubit|].
  exact (proj1 (probabilities_are_bounded well_formed_real_qubit)).
Defined.

Lemma measure_renormalizes_witness :
  well_formed real_qubit /\
  0 <= 0 < QuantumSimulator.num_qubits real_qubit /\
  (0 <= fst (draw (QuantumSimulator.rng real_qubit)))%R /\
  (fst (QuantumSimulator.measure 0 real_qubit) = 0 ->
   total_probability (snd (QuantumSimulator.measure 0 real_qubit)) = 1%R).
Proof.
  assert (Hq : 0 <= 0 < QuantumSimulator.num_qubits real_qubit) by (simpl; lia).
  assert (Hr : (0 <= fst (draw (QuantumSimulator.rng real_qubit)))%R)
    by (simpl; lra).
  split; [exact well_formed_real_qubit|]. split; [exact Hq|]. split; [exact Hr|].
  exact (proj1 (measure_renormalizes well_formed_real_qubit Hq Hr)).
Defined.

Lemma operations_keep_invariant_witness :
  well_formed plus_plus /\
  well_formed (QuantumSimulator.createBellState plus_plus) /\
  well_formed (snd (QuantumSimulator.measure 1 plus_plus)).
Proof.
  destruct (@operations_keep_invariant float _ identity_trig plus_plus
              well_formed_plus_plus) as (_ & _ & Hbell & Hm).
  split; [exact well_formed_plus_plus|].
  split; [apply Hbell; simpl; lia|].
  apply (Hm 1). simpl. lia.
Defined.

Lemma add_gate_appends_within_bounds_witness :
  CCircuit.circuit_ok empty_circuit /\
  CCircuit.circuit_ok h_circuit /\
  CCircuit.name h_circuit = CCircuit.name empty_circuit.
Proof.
  destruct (@add_gate_appends_within_bounds float _ empty_circuit
              CSim.GATE_H 0 (-1) circuit_ok_empty_circuit) as (Hok & Hname & _).
  split; [exact circuit_ok_empty_circuit|]. split; [exact Hok|exact Hname].
Defined.

Lemma simulate_circuit_runs_gates_in_order_witness :
  CCircuit.circuit_ok h_circuit /\
  CCircuit.num_gates h_circuit < CCircuit.MAX_GATES /\
  well_formed_state c_two_qubits /\
  Forall (fun g => 0 <= CSim.target g < CSim.num_qubits c_two_qubits)
         (CCircuit.gate_list h_circuit) /\
  0 <= 1 < CSim.num_qubits c_two_qubits /\
  CCircuit.simulate_circuit
    (fst (CCircuit.add_gate h_circuit CSim.GATE_X 1 0)) c_two_qubits
  = CCircuit.simulate_circuit
      (fst (CCircuit.add_gate h_circuit CSim.GATE_X 1 (-1))) c_two_qubits.
Proof.
  assert (Hlt : CCircuit.num_gates h_circuit < CCircuit.MAX_GATES)
    by (vm_compute; reflexivity).
  split; [exact circuit_ok_h_circuit|]. split; [exact Hlt|].
  assert (Hall : Forall (fun g => 0 <= CSim.target g < CSim.num_qubits c_two_qubits)
                   (CCircuit.gate_list h_circuit))
    by (repeat constructor; simpl; lia).
  assert (Htarget : 0 <= 1 < CSim.num_qubits c_two_qubits) by (simpl; lia).
  split; [exact well_formed_c_two_qubits|]. split; [exact Hall|].
  split; [exact Htarget|].
  destruct (@simulate_circuit_runs_gates_in_order float _ h_circuit c_two_qubits
              CSim.GATE_X 1 (-1) 0 circuit_ok_h_circuit Hlt
              well_formed_c_two_qubits Hall Htarget)
    as (st' & log & _ & _ & _ & _ & _ & _ & E).
  exact E.
Defined.

Lemma simulate_circuit_keeps_state_witness :
  CCircuit.circuit_ok h_circuit /\
  well_formed_state c_one_qubit /\
  Forall (fun g => 0 <= CSim.target g < CSim.num_qubits c_one_qubit)
         (CCircuit.gate_list h_circuit) /\
  exists st' log,
    CCircuit.simulate_circuit h_circuit c_one_qubit = Some (st', log) /\
    well_formed_state st'.
Proof.
  assert (Hall : Forall (fun g => 0 <= CSim.target g < CSim.num_qubits c_one_qubit)
                   (CCircuit.gate_list h_circuit))
    by (repeat constructor; simpl; lia).
  split; [exact circuit_ok_h_circuit|]. split; [exact well_formed_c_one_qubit|].
  split; [exact Hall|].
  destruct (simulate_circuit_keeps_state circuit_ok_h_circuit
              well_formed_c_one_qubit Hall) as (st' & log & E & Hwf & _).
  exists st', log. split; [exact E|exact Hwf].
Defined.

Lemma initialize_state_resets_witness :
  Z.of_nat (length (CSim.amplitudes c_created_qubit))
    = CSim.dimension c_created_qubit /\
  0 < CSim.dimension c_created_qubit /\
  CSim.amplitudes (CSim.initialize_state c_created_qubit) = [C1; C0].
Proof.
  assert (Hlen : Z.of_nat (length (CSim.amplitudes c_created_qubit))
                 = CSim.dimension c_created_qubit) by reflexivity.
  assert (Hpos : 0 < CSim.dimension c_created_qubit) by reflexivity.
  split; [exact Hlen|]. split; [exact Hpos|].
  exact (proj1 (@initialize_state_resets float _ _ c_created_qubit Hlen Hpos)).
Defined.

Lemma printState_labels_and_range_witness :
  well_formed plus_plus /\
  exists lines,
    PrintState.printState visible_real_part plus_plus
      = PrintState.Completed lines /\
    map (fun ln => PrintState.binary_value (PrintState.label ln)) lines
      = [0; 1; 2; 3].
Proof.
  split; [exact well_formed_plus_plus|].
  destruct (proj1 (@printState_labels_and_range float _ visible_real_part
                     plus_plus well_formed_plus_plus))
    as (lines & E & Hmap & _); [simpl; lia|].
  exists lines. split; [exact E|exact Hmap].
Defined.
